(* ===== verification/_CoqProject ===== *)
-Q . S2P
Prelude.v
Hoare.v
Python.v
Env.v
Fetcher.v
Request.v
Uplink.v
Relay.v
Typing.v
Agps.v
Frame.v
Protocol.v
Conformance.v
Safety.v
Startup.v
