(* ===== verification/Prelude.v ===== *)
(** * A verification development for [src/agps.py]

    [agps.py] is a 48-line Python 2 script that fetches Assisted-GPS data
    from a u-blox server and feeds it to a GPS receiver on a serial line.
    After its two imports (lines 1-2) it runs three phases one after the
    other:

    - the _fetcher_ (lines 4-24) makes a TCP socket, connects it, sends
      one request with [send], whose result it drops, accumulates the
      reply with [recv(1024)] until the peer closes, and cuts the reply
      after the first CRLF CRLF;
    - the _uplink_ (lines 26-35) opens the serial device, polls
      [inWaiting()] and reads away what is pending until a poll answers 0,
      and writes the payload in one call;
    - the _relay_ (lines 37-48) reads the line one byte at a time, keeps a
      message buffer that restarts at every [$], prints the buffer when it
      starts with [$GPGGA], and closes the device on [KeyboardInterrupt].

    ** Files

    - [Prelude] (this file): the outcome of a run ([outcome]), the monad
      [io] of programs over a world, [try_except], the Python [while]
      with fuel and the states a loop goes through ([iterates]), the
      laws of these combinators, the equivalence [io_eq] with its
      [Proper] instances, the order [extends] of programs by their fuel,
      the programs that keep a property ([preserves]), the hint
      databases and the tactics.
    - [Hoare]: triples [triple P m Q X B] over [io] programs, with a
      postcondition for each way a run may end, and their rules.
    - [Python]: Python 2 [str] as [bytes := list ascii]; the exceptions
      ([exn]); the values of the loop variables ([pyval]) and their truth
      value; the built-ins the script calls ([index], slicing,
      [startswith], [strip], [==]) with their specifications.
    - [Env]: the world the script runs in ([World]): the TCP peer as a
      script of segments with the room of the send buffer ([Net]), the
      serial line as a buffer and a script of arrivals, interrupts and
      faults ([Serial]), and the [trace] of the calls completed; one
      [io] action per library call of the script ([socket_socket],
      [sock_connect], [sock_send], [sock_recv], [serial_open],
      [inWaiting], [ser_read], [ser_write], [ser_close], [print]).  What
      was printed, passed to the peer and written are projections of the
      trace ([stdout], [sent], [written]).
    - [Fetcher]: lines 4-24, [fetch] with [recv_body], [recv_loop] and
      [extract_binary].
    - [Request]: the request of line 12 by its fields: the serialisation
      the specification describes and its inverse, modelled from the
      specification, and the literal of the script read with them.
    - [Uplink]: lines 26-35, [uplink] with [drain_body] and [drain_loop].
    - [Relay]: lines 37-48, [relay] with [relay_body] and [relay_loop],
      and the reference framing [split_dollar], [gpgga_lines].
    - [Typing]: what the dynamically typed loop variables hold in every
      state of their loops.
    - [Agps]: lines 4-48, the statements of the script [main], its runs
      by cases of what the environment does, and its termination.
    - [Frame]: which device each phase leaves alone.
    - [Protocol]: the order of the calls of the script as a state machine
      ([phase], [next], [run]), with the exceptions and the waits each
      phase allows; properties of its traces.
    - [Conformance]: the triples that tie each call, each loop and each
      phase of the program to the machine, and the [Contract] the
      script needs of its three phases.
    - [Safety]: what follows for every run of [main].
    - [Startup]: lines 1-2, [import_module] over an interpreter
      ([Host]), and the whole file [script]: the imports, then [main].

    ** How the code is modelled

    A program is a function from the world to an [outcome]: [Done] with a
    value, [Raised] with a Python exception, [Blocked] when a blocking
    call never returns (the send buffer stays full, the peer never
    closes, the line stays silent), or [OutOfFuel], which only the
    [while] combinator produces.  Every outcome but the last carries the
    world, so that what was printed and written before a failure can be
    stated.  The variables of the script are the arguments and results
    of the definitions; a loop's state is the record of the variables
    its body assigns ([recv_state], [relay_state], the [pyval]
    [drainer]), and its condition is the Python truth value of the loop
    variable ([truthy]).

    The environment is deterministic given its scripts: [net_room] is
    the number of bytes the send buffer takes; the peer's [net_inbox]
    lists the segments it sends, its close ([Fin]) or reset ([Rst]) and
    a Ctrl-C of the user while [recv] waits ([Sigint]); the line's
    [ser_feed] lists what happens while the program polls or waits:
    bytes arrive ([Arrive]), the user interrupts ([Interrupt]), the
    device fails ([Fault]).  One event of the line happens at each poll;
    a blocking read consumes arrivals until it has its bytes.  A script
    that runs out stands for silence, so a blocking call on an exhausted
    script is [Blocked].  Every completed call is appended to the
    [trace] with its arguments or its result ([call]).  The interpreter
    of [Startup] adds the modules that can be found and those loaded.

    ** Fuel

    [while] takes a bound on the number of iterations.  Each loop of the
    script consumes its script (one part of a segment, one event of the
    line or one byte per iteration), so a bound computed from the world
    suffices: [recv_fuel] (the segments cut in parts of 1024 bytes, plus
    one), [drain_fuel] (the events of the line, plus one or two) and
    [relay_fuel] (the bytes of the stream, plus one); [main_fuel] is the
    largest of the three.  [Agps.main_terminates] shows that with this
    bound no run is [OutOfFuel], on any environment, and
    [Agps.main_fuel_irrelevant] that a larger bound never changes a run
    that has ended.  The triples of [Conformance] and the theorems of
    [Safety], [Frame], [Typing] and [Startup] hold for every bound.

    ** What the theorems show

    - [Python]: [index] returns the first occurrence and fails exactly
      when there is none; [startswith] decides [prefix_of]; [strip]
      returns the one trimmed middle of its argument.
    - [Fetcher]: the peer is passed the bytes of the request the send
      buffer has room for, and never the rest; the loop returns the
      concatenation of what the peer sent before it closed, whatever
      the segments; the payload is what follows the first CRLF CRLF; a
      reply without it raises [ValueError]; a silent peer blocks the
      script, a reset and a Ctrl-C raise.
    - [Request]: building and parsing a request are inverse of each
      other; the literal of the script is the request of the fields of
      the specification's example, with placeholders for credentials.
    - [Uplink]: the drain reads away as many bytes as its polls have
      counted and stops at the first poll that counts nothing; the
      payload is written once, after the drain.
    - [Relay]: at every iteration the message buffer holds the bytes
      since the last [$], that [$] included ([relay_reach], by rule
      induction), never more than was read and as much when no [$]
      comes; the lines printed are the stripped [$GPGGA] frames of the
      stream, however the stream is cut and in whatever pieces the line
      delivers it; the loop never ends through its condition; the port
      is closed exactly when the loop ends by [KeyboardInterrupt].
    - [Typing]: [buffer] and [drainer] are [True] or what their loop
      stores in them, in every state of the loops.
    - [Agps]: the complete trace of a run that goes well; what each
      failure leaves behind; termination.
    - [Frame]: the fetcher keeps the serial device, the uplink and the
      relay keep the socket.
    - [Safety]: on every environment and for every bound, a run follows
      the protocol; [close()] is called at most once and last; the line
      is written at most once, with the payload of what was received;
      every poll is followed by a read of what it counted; no call
      finds the port closed; [recv] returns at most 1024 bytes and
      [send] passes on between 1 and 61; an interrupt that escapes was
      raised in the receive loop or in the drain.
    - [Startup]: the script ends with [ImportError] exactly when a
      module is missing, before any call; otherwise it is [main], and
      follows the protocol.

    ** What is not modelled

    The socket and pyserial libraries themselves (their calls are the
    actions of [Env], over a model of the peer and of the line); what a
    module does when it is loaded; errors of [socket()] and of [send]
    and name resolution apart from a refused connection; interrupts
    outside [recv] and the polls and reads of the serial line; failures
    of the console; the baud rate and the timing of the serial line
    beyond the order of the events in [ser_feed]; the reply of the
    server as a function of the request (the peer's script is fixed in
    advance, so every reply is covered but none is tied to what was
    sent). *)

From Stdlib Require Import Ascii.
From Stdlib Require String.
From stdpp Require Import list.

(** * Outcomes and the [io] monad *)

Inductive outcome (W E A : Type) : Type :=
| Done (a : A) (w : W)
| Raised (e : E) (w : W)
| Blocked (w : W)
| OutOfFuel.

Arguments Done {W E A} a w.
Arguments Raised {W E A} e w.
Arguments Blocked {W E A} w.
Arguments OutOfFuel {W E A}.

Definition io (W E A : Type) : Type := W -> outcome W E A.

Declare Scope io_scope.
Delimit Scope io_scope with io.

Section Monad.
Context {W E : Type}.

Definition ret {A} (a : A) : io W E A := fun w => Done a w.

Definition bind {A B} (m : io W E A) (k : A -> io W E B) : io W E B :=
  fun w =>
    match m w with
    | Done a w' => k a w'
    | Raised e w' => Raised e w'
    | Blocked w' => Blocked w'
    | OutOfFuel => OutOfFuel
    end.

Definition raise {A} (e : E) : io W E A := fun w => Raised e w.

Definition block {A} : io W E A := fun w => Blocked w.

Definition gets {A} (f : W -> A) : io W E A := fun w => Done (f w) w.

Definition modify (f : W -> W) : io W E unit := fun w => Done tt (f w).

(** [try: m except <the exceptions of catches>: h] *)
Definition try_except {A} (m : io W E A) (catches : E -> bool) (h : io W E A)
  : io W E A :=
  fun w =>
    match m w with
    | Raised e w' => if catches e then h w' else Raised e w'
    | r => r
    end.

(** [while cond(s): s = body(s)], at most [fuel] iterations. *)
Fixpoint while {St} (fuel : nat) (cond : St -> bool) (body : St -> io W E St)
  (s : St) : io W E St :=
  if cond s then
    match fuel with
    | 0 => fun _ => OutOfFuel
    | S fuel' => bind (body s) (while fuel' cond body)
    end
  else ret s.

(** The states the loop [while cond(s): s = body(s)] goes through
    from the state [s0] in the world [w0]: those it tests its
    condition in. *)
Inductive iterates {St} (cond : St -> bool) (body : St -> io W E St)
    (s0 : St) (w0 : W) : St -> W -> Prop :=
| iterates_start : iterates cond body s0 w0 s0 w0
| iterates_step s w s' w' :
    iterates cond body s0 w0 s w -> cond s = true ->
    body s w = Done s' w' -> iterates cond body s0 w0 s' w'.

(** A program over a part [V] of the world, run on the whole world. *)
Definition zoom {V A} (get : W -> V) (set : V -> W -> W) (m : io V E A)
  : io W E A :=
  fun w =>
    match m (get w) with
    | Done a v => Done a (set v w)
    | Raised e v => Raised e (set v w)
    | Blocked v => Blocked (set v w)
    | OutOfFuel => OutOfFuel
    end.

(** The world an outcome ends in, when it has one. *)
Definition final_world {A} (r : outcome W E A) : option W :=
  match r with
  | Done _ w | Raised _ w | Blocked w => Some w
  | OutOfFuel => None
  end.

(** The same, with [w] for a run that is out of fuel. *)
Definition end_world {A} (w : W) (r : outcome W E A) : W :=
  match final_world r with Some w' => w' | None => w end.

Definition finished {A} (r : outcome W E A) : bool :=
  match r with OutOfFuel => false | _ => true end.

(** [m] keeps [I]: from a world in [I] it ends, however it ends, in [I]. *)
Definition preserves {A} (I : W -> Prop) (m : io W E A) : Prop :=
  forall w w', I w -> final_world (m w) = Some w' -> I w'.

(** [m2] extends [m1]: it ends as [m1] does wherever [m1] ends. *)
Definition extends {A} (m1 m2 : io W E A) : Prop :=
  forall w, finished (m1 w) = true -> m2 w = m1 w.

(** Two programs are equivalent when they agree on every world. *)
Definition io_eq {A} (m1 m2 : io W E A) : Prop := forall w, m1 w = m2 w.

End Monad.

Notation "x <- m ;; k" := (bind m (fun x => k))
  (at level 100, m at next level, k at level 200, right associativity)
  : io_scope.
Notation "m ;; k" := (bind m (fun _ => k))
  (at level 100, k at level 200, right associativity) : io_scope.
Infix "=io=" := io_eq (at level 70, no associativity) : io_scope.

Create HintDb io discriminated.
Create Rewrite HintDb io.

(** * Laws *)

Section Laws.
Context {W E : Type}.
Local Open Scope io_scope.
Implicit Types w : W.

#[export] Instance io_eq_equiv {A} : Equivalence (@io_eq W E A).
Proof.
  split; [intros m w; reflexivity | intros m1 m2 H w; symmetry; apply H |].
  intros m1 m2 m3 H12 H23 w. rewrite H12. apply H23.
Qed.

#[export] Instance bind_proper {A B} :
  Proper (io_eq ==> pointwise_relation A io_eq ==> io_eq) (@bind W E A B).
Proof.
  intros m1 m2 Hm k1 k2 Hk w. unfold bind. rewrite (Hm w).
  destruct (m2 w); try reflexivity. apply Hk.
Qed.

#[export] Instance try_except_proper {A} :
  Proper (io_eq ==> eq ==> io_eq ==> io_eq) (@try_except W E A).
Proof.
  intros m1 m2 Hm c ? <- h1 h2 Hh w. unfold try_except. rewrite (Hm w).
  destruct (m2 w); try reflexivity. destruct (c e); [apply Hh | reflexivity].
Qed.

Lemma bind_ret_l {A B} (a : A) (k : A -> io W E B) w :
  bind (ret a) k w = k a w.
Proof. reflexivity. Qed.

Lemma bind_ret_r {A} (m : io W E A) : bind m ret =io= m.
Proof. intros w. unfold bind, ret. destruct (m w); reflexivity. Qed.

Lemma bind_assoc {A B C} (m : io W E A) (k : A -> io W E B)
  (h : B -> io W E C) :
  bind (bind m k) h =io= bind m (fun a => bind (k a) h).
Proof. intros w. unfold bind. destruct (m w); reflexivity. Qed.

Lemma bind_done {A B} (m : io W E A) (k : A -> io W E B) w a w' :
  m w = Done a w' -> bind m k w = k a w'.
Proof. intros H. unfold bind. rewrite H. reflexivity. Qed.

Lemma bind_raised {A B} (m : io W E A) (k : A -> io W E B) w e w' :
  m w = Raised e w' -> bind m k w = Raised e w'.
Proof. intros H. unfold bind. rewrite H. reflexivity. Qed.

Lemma bind_blocked {A B} (m : io W E A) (k : A -> io W E B) w w' :
  m w = Blocked w' -> bind m k w = Blocked w'.
Proof. intros H. unfold bind. rewrite H. reflexivity. Qed.

Lemma bind_out_of_fuel {A B} (m : io W E A) (k : A -> io W E B) w :
  m w = OutOfFuel -> bind m k w = OutOfFuel.
Proof. intros H. unfold bind. rewrite H. reflexivity. Qed.

(** A sequence is a normal completion exactly when both parts are. *)
Lemma bind_Done_inv {A B} (m : io W E A) (k : A -> io W E B) w b w2 :
  bind m k w = Done b w2 <->
  exists a w1, m w = Done a w1 /\ k a w1 = Done b w2.
Proof.
  unfold bind. split.
  - destruct (m w) as [a w1| | |]; try discriminate. eauto.
  - intros (a & w1 & -> & H). exact H.
Qed.

Lemma bind_finished {A B} (m : io W E A) (k : A -> io W E B) w :
  finished (m w) = true ->
  (forall a w', m w = Done a w' -> finished (k a w') = true) ->
  finished (bind m k w) = true.
Proof.
  unfold bind. intros Hm Hk. destruct (m w); try (simpl in *; congruence).
  apply Hk. reflexivity.
Qed.

Lemma try_except_done {A} (m h : io W E A) c w a w' :
  m w = Done a w' -> try_except m c h w = Done a w'.
Proof. intros H. unfold try_except. rewrite H. reflexivity. Qed.

Lemma try_except_caught {A} (m h : io W E A) c w e w' :
  m w = Raised e w' -> c e = true -> try_except m c h w = h w'.
Proof. intros H Hc. unfold try_except. rewrite H, Hc. reflexivity. Qed.

Lemma try_except_passed {A} (m h : io W E A) c w e w' :
  m w = Raised e w' -> c e = false -> try_except m c h w = Raised e w'.
Proof. intros H Hc. unfold try_except. rewrite H, Hc. reflexivity. Qed.

Lemma try_except_blocked {A} (m h : io W E A) c w w' :
  m w = Blocked w' -> try_except m c h w = Blocked w'.
Proof. intros H. unfold try_except. rewrite H. reflexivity. Qed.

End Laws.

#[export] Hint Rewrite @bind_ret_l : io.
#[export] Hint Resolve bind_finished : io.

(** * The [while] loop *)

Section While.
Context {W E St : Type}.
Variable cond : St -> bool.
Variable body : St -> io W E St.
Implicit Types (s : St) (w : W).

Lemma while_unfold fuel s :
  while (S fuel) cond body s =
  if cond s then bind (body s) (while fuel cond body) else ret s.
Proof. reflexivity. Qed.

Lemma while_exit fuel s w : cond s = false -> while fuel cond body s w = Done s w.
Proof. intros H. destruct fuel; simpl; rewrite H; reflexivity. Qed.

Lemma while_step fuel s w s' w' :
  cond s = true -> body s w = Done s' w' ->
  while (S fuel) cond body s w = while fuel cond body s' w'.
Proof. intros Hc Hb. rewrite while_unfold, Hc. apply bind_done, Hb. Qed.

Lemma while_raised fuel s w e w' :
  cond s = true -> body s w = Raised e w' ->
  while (S fuel) cond body s w = Raised e w'.
Proof. intros Hc Hb. rewrite while_unfold, Hc. apply bind_raised, Hb. Qed.

Lemma while_blocked fuel s w w' :
  cond s = true -> body s w = Blocked w' ->
  while (S fuel) cond body s w = Blocked w'.
Proof. intros Hc Hb. rewrite while_unfold, Hc. apply bind_blocked, Hb. Qed.

(** A loop that ends normally ends in a state that fails its condition. *)
Lemma while_Done_cond fuel s w s' w' :
  while fuel cond body s w = Done s' w' -> cond s' = false.
Proof.
  revert s w. induction fuel as [|fuel IH]; intros s w; simpl;
    destruct (cond s) eqn:Hc; unfold ret; try congruence.
  unfold bind. destruct (body s w); try discriminate. apply IH.
Qed.

(** A loop whose body always re-establishes its condition never ends
    normally. *)
Lemma while_never_Done fuel s w s' w' :
  (forall s1 w1 s2 w2, body s1 w1 = Done s2 w2 -> cond s2 = true) ->
  cond s = true -> while fuel cond body s w <> Done s' w'.
Proof.
  intros Hb. revert s w. induction fuel as [|fuel IH]; intros s w Hc; simpl;
    rewrite Hc; [done|]. unfold bind.
  destruct (body s w) as [s1 w1| | |] eqn:Hbody; try done. eauto.
Qed.

(** More fuel does not change a run that did not run out of it. *)
Lemma while_fuel_mono n m s w :
  n <= m -> finished (while n cond body s w) = true ->
  while m cond body s w = while n cond body s w.
Proof.
  revert m s w. induction n as [|n IH]; intros m s w Hle Hfin.
  - simpl in *. destruct (cond s) eqn:Hc; [discriminate|].
    apply while_exit, Hc.
  - destruct m as [|m]; [lia|]. rewrite !while_unfold in *.
    destruct (cond s); [|reflexivity]. unfold bind in *.
    destruct (body s w); try reflexivity. apply IH; [lia | exact Hfin].
Qed.

(** A variant that the body decreases bounds the iterations. *)
Lemma while_terminates (mu : St -> W -> nat) :
  (forall s w, cond s = true -> finished (body s w) = true) ->
  (forall s w s' w', cond s = true -> body s w = Done s' w' ->
                     mu s' w' < mu s w) ->
  forall fuel s w, mu s w < fuel -> finished (while fuel cond body s w) = true.
Proof.
  intros Hfin Hdec. induction fuel as [|fuel IH]; intros s w Hmu; [lia|].
  rewrite while_unfold. destruct (cond s) eqn:Hc; [|reflexivity].
  apply bind_finished; [auto|]. intros s' w' Hb. apply IH.
  specialize (Hdec _ _ _ _ Hc Hb). lia.
Qed.

(** What holds at the start and is kept by every iteration holds of
    every state the loop goes through. *)
Lemma iterates_invariant (J : St -> W -> Prop) s0 w0 :
  J s0 w0 ->
  (forall s w s' w', J s w -> cond s = true -> body s w = Done s' w' ->
                     J s' w') ->
  forall s w, iterates cond body s0 w0 s w -> J s w.
Proof. intros H0 Hstep s w. induction 1; eauto. Qed.

Lemma iterates_first s w s1 w1 s' w' :
  cond s = true -> body s w = Done s1 w1 ->
  iterates cond body s1 w1 s' w' -> iterates cond body s w s' w'.
Proof.
  intros Hc Hb. induction 1; [|by eapply iterates_step].
  eapply iterates_step; [apply iterates_start|done..].
Qed.

(** The state a loop ends in is one of those it goes through. *)
Lemma while_iterates fuel s w s' w' :
  while fuel cond body s w = Done s' w' -> iterates cond body s w s' w'.
Proof.
  revert s w. induction fuel as [|fuel IH]; intros s w; simpl;
    destruct (cond s) eqn:Hc; try done;
    try (intros [= <- <-]; apply iterates_start).
  unfold bind. destruct (body s w) as [s1 w1| | |] eqn:Hb; try done.
  intros Hw. eapply iterates_first; eauto.
Qed.

(** An invariant of the body holds when the loop ends, however it ends. *)
Lemma while_invariant (I : W -> Prop) :
  (forall s w w', cond s = true -> I w ->
                  final_world (body s w) = Some w' -> I w') ->
  forall fuel s w w', I w ->
    final_world (while fuel cond body s w) = Some w' -> I w'.
Proof.
  intros Hb. induction fuel as [|fuel IH]; intros s w w' HI; simpl;
    destruct (cond s) eqn:Hc; simpl; try congruence.
  specialize (Hb s w). unfold bind.
  destruct (body s w) as [s1 w1|e w1|w1|]; simpl in *; try discriminate;
    [apply IH | intros [= <-] ..]; eauto.
Qed.

End While.

(** * Fuel is only a bound

    A program with more fuel for its loops extends the program with
    less: the rules below follow the structure of the program. *)

Section Extends.
Context {W E : Type}.

Lemma extends_refl {A} (m : io W E A) : extends m m.
Proof. by intros w. Qed.

Lemma extends_bind {A B} (m1 m2 : io W E A) (k1 k2 : A -> io W E B) :
  extends m1 m2 -> (forall a, extends (k1 a) (k2 a)) ->
  extends (bind m1 k1) (bind m2 k2).
Proof.
  intros Hm Hk w. unfold bind. specialize (Hm w).
  destruct (m1 w) as [a w1|e w1|w1|]; simpl; try done;
    try (intros _; by rewrite Hm).
  intros Hf. rewrite Hm by done. by apply Hk.
Qed.

Lemma extends_try_except {A} (m1 m2 h1 h2 : io W E A) c :
  extends m1 m2 -> extends h1 h2 ->
  extends (try_except m1 c h1) (try_except m2 c h2).
Proof.
  intros Hm Hh w. unfold try_except. specialize (Hm w).
  destruct (m1 w) as [a w1|e w1|w1|]; simpl; try done;
    try (intros _; by rewrite Hm).
  intros Hf. rewrite Hm by done. destruct (c e); [by apply Hh | done].
Qed.

Lemma extends_while {St} n m (cond : St -> bool) (body : St -> io W E St) s :
  n <= m -> extends (while n cond body s) (while m cond body s).
Proof. intros Hle w Hf. by apply while_fuel_mono. Qed.

End Extends.

#[export] Hint Resolve extends_refl extends_bind extends_try_except
  extends_while : io.

(** * Programs that keep a property of the world *)

Section Preserves.
Context {W E : Type}.
Variable I : W -> Prop.

Lemma preserves_ret {A} (a : A) : preserves I (@ret W E A a).
Proof. by intros w w' HI [= <-]. Qed.

Lemma preserves_raise {A} (e : E) : preserves I (@raise W E A e).
Proof. by intros w w' HI [= <-]. Qed.

Lemma preserves_gets {A} (f : W -> A) : preserves I (@gets W E A f).
Proof. by intros w w' HI [= <-]. Qed.

Lemma preserves_modify (f : W -> W) :
  (forall w, I w -> I (f w)) -> preserves I (@modify W E f).
Proof. intros Hf w w' HI [= <-]. by apply Hf. Qed.

Lemma preserves_bind {A B} (m : io W E A) (k : A -> io W E B) :
  preserves I m -> (forall a, preserves I (k a)) -> preserves I (bind m k).
Proof.
  intros Hm Hk w w' HI. unfold bind. specialize (Hm w).
  destruct (m w) as [a w1|e w1|w1|]; simpl in *; try discriminate;
    [apply (Hk a) | intros [= <-] ..]; eauto.
Qed.

Lemma preserves_try_except {A} (m h : io W E A) c :
  preserves I m -> preserves I h -> preserves I (try_except m c h).
Proof.
  intros Hm Hh w w' HI. unfold try_except. specialize (Hm w).
  destruct (m w) as [a w1|e w1|w1|]; simpl in *; try discriminate; eauto.
  destruct (c e); [apply Hh|]; eauto.
Qed.

Lemma preserves_while {St} fuel (cond : St -> bool) (body : St -> io W E St) s :
  (forall s, preserves I (body s)) -> preserves I (while fuel cond body s).
Proof.
  intros Hb w w' HI. apply while_invariant; [|done].
  intros s1 w1 w2 _. apply Hb.
Qed.

Lemma preserves_zoom {V A} (get : W -> V) (set : V -> W -> W) (m : io V E A) :
  (forall v w, I w -> I (set v w)) -> preserves I (zoom get set m).
Proof.
  intros Hset w w' HI. unfold zoom.
  destruct (m (get w)); simpl; try discriminate; intros [= <-]; by apply Hset.
Qed.

Lemma preserves_if {A} (b : bool) (m1 m2 : io W E A) :
  preserves I m1 -> preserves I m2 -> preserves I (if b then m1 else m2).
Proof. by destruct b. Qed.

End Preserves.

#[export] Hint Resolve preserves_ret preserves_raise preserves_gets
  preserves_modify preserves_bind preserves_try_except preserves_while
  preserves_zoom preserves_if : io.

(** * Tactics *)

(** [preserves_auto] follows a program down to its primitive actions
    with the rules of [preserves], and leaves what [auto] cannot prove
    of them. *)
Ltac preserves_auto :=
  repeat (cbv beta;
          lazymatch goal with
          | |- forall _, _ => intros ?
          | |- preserves _ (bind _ _) => apply preserves_bind
          | |- preserves _ (while _ _ _ _) => apply preserves_while
          | |- preserves _ (try_except _ _ _) => apply preserves_try_except
          | |- preserves _ (if _ then _ else _) => apply preserves_if
          | |- preserves _ (zoom _ _ _) => apply preserves_zoom
          | |- preserves _ (modify _) => apply preserves_modify
          | |- preserves _ (ret _) => apply preserves_ret
          | |- preserves _ (raise _) => apply preserves_raise
          | |- preserves _ (gets _) => apply preserves_gets
          end);
  auto with io.

(** [io_step H] rewrites the head action of a sequence with the equation
    [H : m w = r] of its outcome. *)
Ltac io_step H :=
  first
    [ rewrite (bind_done _ _ _ _ _ H)
    | rewrite (bind_raised _ _ _ _ _ H)
    | rewrite (bind_blocked _ _ _ _ H) ].

(** [io_exec tac] runs the head action of a sequence when [tac] proves
    the equation of its normal completion. *)
Tactic Notation "io_exec" "by" tactic(tac) :=
  erewrite bind_done by tac.

(** [io_unfold] exposes the outcome of a straight-line program. *)
Ltac io_unfold :=
  unfold bind, ret, raise, block, gets, modify, try_except in *; simpl in *.

(** [case_outcome r] makes the four cases of an outcome, keeping the equation. *)
Ltac case_outcome r :=
  let a := fresh "a" in let w := fresh "w" in let e := fresh "e" in
  let H := fresh "Hout" in
  destruct r as [a w|e w|w|] eqn:H.

(** * Lists *)

Section Lists.
Context {A : Type}.
Implicit Types l k : list A.

Lemma drop_app_length' l k n : n = length l -> drop n (l ++ k) = k.
Proof. intros ->. apply drop_app_length. Qed.

Lemma take_app_length' l k n : n = length l -> take n (l ++ k) = l.
Proof. intros ->. apply take_app_length. Qed.

Lemma take_length_min l n : take (length l `min` n) l = take n l.
Proof.
  destruct (decide (n <= length l)); [by rewrite Nat.min_r|].
  by rewrite Nat.min_l, !take_ge by lia.
Qed.

Lemma length_concat_le n (ls : list (list A)) :
  Forall (fun l => length l <= n) ls -> length (concat ls) <= n * length ls.
Proof.
  induction 1 as [|l ls Hl _ IH]; simpl; [lia|]. rewrite length_app. lia.
Qed.

Lemma app_cons_snoc l (x : A) k : l ++ x :: k = (l ++ [x]) ++ k.
Proof. rewrite <- app_assoc. reflexivity. Qed.

End Lists.
