(* ===== verification/Hoare.v ===== *)
(** * Triples over [io] programs

    A triple [triple P m Q X B] states that the program [m], started in
    a world of [P], ends in [Q] when it returns, in [X] when it raises
    and in [B] when it blocks.  It says nothing of a run that is out of
    fuel, so a triple of a loop holds for every bound on its
    iterations.  The rules follow the combinators of [Prelude]: a loop
    has an invariant indexed by its variables, [try_except] moves the
    exceptions it catches to the precondition of the handler.  The
    rules are registered in the hint database [triple], and the tactic
    [triple_step] applies the one that fits the head of the program. *)

From stdpp Require Import base tactics.
From S2P Require Import Prelude.

Local Open Scope io_scope.

Section Triple.
Context {W E : Type}.
Implicit Types (P : W -> Prop) (X : E -> W -> Prop) (B : W -> Prop).

(** What [Q], [X] and [B] say of an outcome. *)
Definition holds {A} (Q : A -> W -> Prop) X B (r : outcome W E A) : Prop :=
  match r with
  | Done a w => Q a w
  | Raised e w => X e w
  | Blocked w => B w
  | OutOfFuel => True
  end.

Definition triple {A} P (m : io W E A) (Q : A -> W -> Prop) X B : Prop :=
  forall w, P w -> holds Q X B (m w).

Lemma holds_mono {A} (Q Q' : A -> W -> Prop) X X' B B' r :
  (forall a w, Q a w -> Q' a w) -> (forall e w, X e w -> X' e w) ->
  (forall w, B w -> B' w) -> holds Q X B r -> holds Q' X' B' r.
Proof. destruct r; simpl; auto. Qed.

Lemma holds_bind {A C} (m : io W E A) (k : A -> io W E C) Q R X B w :
  holds R X B (m w) ->
  (forall a w', R a w' -> holds Q X B (k a w')) ->
  holds Q X B (bind m k w).
Proof. unfold bind. destruct (m w); simpl; auto. Qed.

(** ** The rules *)

Lemma triple_conseq {A} P P' (m : io W E A) Q Q' X X' B B' :
  triple P' m Q' X' B' ->
  (forall w, P w -> P' w) -> (forall a w, Q' a w -> Q a w) ->
  (forall e w, X' e w -> X e w) -> (forall w, B' w -> B w) ->
  triple P m Q X B.
Proof. intros Hm HP HQ HX HB w Hw. eapply holds_mono; eauto. Qed.

Lemma triple_pre {A} P P' (m : io W E A) Q X B :
  (forall w, P w -> P' w) -> triple P' m Q X B -> triple P m Q X B.
Proof. intros HP Hm. eapply triple_conseq; eauto. Qed.

Lemma triple_post {A} P (m : io W E A) Q Q' X B :
  triple P m Q' X B -> (forall a w, Q' a w -> Q a w) -> triple P m Q X B.
Proof. intros Hm HQ. eapply triple_conseq; eauto. Qed.

Lemma triple_ret {A} (a : A) (Q : A -> W -> Prop) X B :
  triple (Q a) (ret a) Q X B.
Proof. by intros w. Qed.

Lemma triple_ret_pre {A} (a : A) P (Q : A -> W -> Prop) X B :
  (forall w, P w -> Q a w) -> triple P (ret a) Q X B.
Proof. intros HP w Hw. by apply HP. Qed.

Lemma triple_raise {A} (e : E) (Q : A -> W -> Prop) X B :
  triple (X e) (raise e) Q X B.
Proof. by intros w. Qed.

Lemma triple_gets {A} (f : W -> A) (Q : A -> W -> Prop) X B :
  triple (fun w => Q (f w) w) (gets f) Q X B.
Proof. by intros w. Qed.

Lemma triple_modify (f : W -> W) (Q : unit -> W -> Prop) X B :
  triple (fun w => Q tt (f w)) (modify f) Q X B.
Proof. by intros w. Qed.

Lemma triple_bind {A C} P (m : io W E A) (k : A -> io W E C) R Q X B :
  triple P m R X B -> (forall a, triple (R a) (k a) Q X B) ->
  triple P (bind m k) Q X B.
Proof. intros Hm Hk w Hw. eapply holds_bind; [by apply Hm|]. intros; by apply Hk. Qed.

Lemma triple_if {A} (b : bool) P (m1 m2 : io W E A) Q X B :
  (b = true -> triple P m1 Q X B) -> (b = false -> triple P m2 Q X B) ->
  triple P (if b then m1 else m2) Q X B.
Proof. destruct b; auto. Qed.

(** [try_except]: what the body raises and the handler catches is the
    precondition of the handler. *)
Lemma triple_try_except {A} P (m h : io W E A) c Q X X' B :
  triple P m Q X' B ->
  (forall e, c e = true -> triple (X' e) h Q X B) ->
  (forall e w, c e = false -> X' e w -> X e w) ->
  triple P (try_except m c h) Q X B.
Proof.
  intros Hm Hh HX w Hw. specialize (Hm w Hw). unfold try_except.
  destruct (m w) as [a w'|e w'|w'|]; simpl in *; try done.
  destruct (c e) eqn:Hc; [by apply (Hh e) | by apply HX].
Qed.

(** [while]: [I] holds of the variables and the world at every test of
    the condition; the bound on the iterations does not matter. *)
Lemma triple_while {St} (I : St -> W -> Prop) fuel (cond : St -> bool)
    (body : St -> io W E St) X B s :
  (forall s, cond s = true -> triple (I s) (body s) I X B) ->
  triple (I s) (while fuel cond body s)
    (fun s' w => I s' w /\ cond s' = false) X B.
Proof.
  intros Hb. revert s. induction fuel as [|fuel IH]; intros s w Hw; simpl;
    destruct (cond s) eqn:Hc; try done.
  eapply holds_bind; [by apply Hb|]. intros s' w' Hw'. by apply IH.
Qed.

(** The same, with the invariant to be chosen for the goal at hand. *)
Lemma triple_loop {St} (I : St -> W -> Prop) fuel (cond : St -> bool)
    (body : St -> io W E St) P Q X B s :
  (forall w, P w -> I s w) ->
  (forall s, cond s = true -> triple (I s) (body s) I X B) ->
  (forall s' w, I s' w -> cond s' = false -> Q s' w) ->
  triple P (while fuel cond body s) Q X B.
Proof.
  intros HP Hb HQ. eapply triple_conseq; [by apply (triple_while I)|..]; eauto.
  intros s' w [? ?]. eauto.
Qed.

(** Preconditions that quantify, assume or cannot hold. *)
Lemma triple_exist {A T} (P : T -> W -> Prop) (m : io W E A) Q X B :
  (forall x, triple (P x) m Q X B) -> triple (fun w => exists x, P x w) m Q X B.
Proof. intros Hm w [x Hw]. by eapply Hm. Qed.

Lemma triple_pure {A} (F : Prop) P (m : io W E A) Q X B :
  (F -> triple P m Q X B) -> triple (fun w => F /\ P w) m Q X B.
Proof. intros Hm w [HF Hw]. by apply Hm. Qed.

Lemma triple_False {A} (m : io W E A) Q X B : triple (fun _ => False) m Q X B.
Proof. by intros w. Qed.

(** Two triples of a program hold together. *)
Lemma triple_conj {A} P P' (m : io W E A) Q Q' X X' B B' :
  triple P m Q X B -> triple P' m Q' X' B' ->
  triple (fun w => P w /\ P' w) m (fun a w => Q a w /\ Q' a w)
    (fun e w => X e w /\ X' e w) (fun w => B w /\ B' w).
Proof.
  intros H1 H2 w [Hw Hw']. specialize (H1 w Hw). specialize (H2 w Hw').
  by destruct (m w).
Qed.

(** A property of the world that [m] keeps is a triple of [m]. *)
Lemma preserves_triple {A} (I : W -> Prop) (m : io W E A) :
  preserves I m <->
  triple I m (fun _ => I) (fun _ => I) I.
Proof.
  split.
  - intros Hm w Hw. specialize (Hm w). destruct (m w); simpl in *; eauto.
  - intros Hm w w' Hw. specialize (Hm w Hw).
    destruct (m w); simpl in *; intros [= <-]; done.
Qed.

(** What a triple says of a run. *)
Lemma triple_Done {A} P (m : io W E A) Q X B w a w' :
  triple P m Q X B -> P w -> m w = Done a w' -> Q a w'.
Proof. intros Hm Hw Hr. specialize (Hm w Hw). by rewrite Hr in Hm. Qed.

Lemma triple_Raised {A} P (m : io W E A) Q X B w e w' :
  triple P m Q X B -> P w -> m w = Raised e w' -> X e w'.
Proof. intros Hm Hw Hr. specialize (Hm w Hw). by rewrite Hr in Hm. Qed.

Lemma triple_Blocked {A} P (m : io W E A) Q X B w w' :
  triple P m Q X B -> P w -> m w = Blocked w' -> B w'.
Proof. intros Hm Hw Hr. specialize (Hm w Hw). by rewrite Hr in Hm. Qed.

End Triple.

(** A program on a part of the world. *)
Lemma triple_zoom {W V E A} (get : W -> V) (set : V -> W -> W)
    (m : io V E A) (P : W -> Prop) (Q : A -> W -> Prop) (X : E -> W -> Prop)
    (B : W -> Prop) :
  (forall w, P w ->
     holds (fun a v => Q a (set v w)) (fun e v => X e (set v w))
           (fun v => B (set v w)) (m (get w))) ->
  triple P (zoom get set m) Q X B.
Proof.
  intros Hm w Hw. specialize (Hm w Hw). unfold zoom. by destruct (m (get w)).
Qed.

Create HintDb triple discriminated.
#[export] Hint Resolve triple_ret triple_raise triple_gets triple_modify : triple.

(** One step on a goal [triple P m Q X B]: the rule of the head of [m],
    a precondition left to be matched by [triple_pre]. *)
Ltac triple_step :=
  lazymatch goal with
  | |- triple _ (bind _ _) _ _ _ => eapply triple_bind; [|intros ?]
  | |- triple _ (if _ then _ else _) _ _ _ => apply triple_if; intros ?
  | |- triple _ (ret _) _ _ _ => apply triple_ret_pre
  | |- triple _ (raise _) _ _ _ => eapply triple_pre; [|apply triple_raise]
  | |- triple _ (modify _) _ _ _ => eapply triple_pre; [|apply triple_modify]
  | |- triple _ (gets _) _ _ _ => eapply triple_pre; [|apply triple_gets]
  end.
