(* ===== verification/Python.v ===== *)
(** * The fragment of Python 2 that [agps.py] uses

    A Python 2 [str] is a sequence of 8-bit characters: [bytes], a list
    of [ascii].  This file holds the built-ins the script calls on it
    ([+], [==], truth value, [startswith], [index], [s[k:]], [strip]),
    the values a loop variable takes ([pyval]: the script starts its loops
    with [True] and then stores a [str] or an [int] in the same variable),
    and the exceptions that can reach the top of the script ([exn]).
    Each built-in comes with the specification the program proofs use. *)

From Stdlib Require Import Ascii.
From Stdlib Require String.
From stdpp Require Import list strings.
From S2P Require Import Prelude.

Abbreviation bytes := (list ascii).

(** The [str] literal written ["..."] in the script. *)
Definition lit (s : string) : bytes := String.list_ascii_of_string s.
Arguments lit : simpl never.

(** Exceptions: [ImportError] (of [import]), [socket.error],
    [ValueError] (of [str.index]), [serial.SerialException], raised by
    a failing device or, as [PortNotOpen], by a call on a port that is
    not open, and [KeyboardInterrupt]. *)
Inductive exn : Type :=
| ImportError
| SocketError
| ValueError
| SerialException
| PortNotOpen
| KeyboardInterrupt.

#[export] Instance exn_eq_dec : EqDecision exn.
Proof. solve_decision. Defined.

(** The values the loop variables [buffer] and [drainer] hold. *)
Inductive pyval : Type :=
| PyBool (b : bool)
| PyInt (n : nat)
| PyStr (s : bytes).

#[export] Instance pyval_eq_dec : EqDecision pyval.
Proof. solve_decision. Defined.

(** Truth value testing: [False], [0] and [""] are false. *)
Definition truthy (v : pyval) : bool :=
  match v with
  | PyBool b => b
  | PyInt n => negb (Nat.eqb n 0)
  | PyStr s => match s with [] => false | _ :: _ => true end
  end.

(** [a == b] on [str]. *)
Fixpoint str_eqb (a b : bytes) : bool :=
  match a, b with
  | [], [] => true
  | c :: a', d :: b' => Ascii.eqb c d && str_eqb a' b'
  | _, _ => false
  end.

(** [v == s] for a [str] [s]: a [bool] or an [int] equals no [str]. *)
Definition py_eq_str (v : pyval) (s : bytes) : bool :=
  match v with
  | PyStr a => str_eqb a s
  | _ => false
  end.

(** [s.startswith(p)] *)
Fixpoint startswith (s p : bytes) : bool :=
  match p, s with
  | [], _ => true
  | _ :: _, [] => false
  | c :: p', d :: s' => Ascii.eqb c d && startswith s' p'
  end.

(** [s.find(sub)]: the lowest index where [sub] starts, if any. *)
Fixpoint find (s sub : bytes) : option nat :=
  if startswith s sub then Some 0
  else
    match s with
    | [] => None
    | _ :: s' => option_map S (find s' sub)
    end.

(** [s.index(sub)]: like [find], but raises [ValueError] when [sub] is absent. *)
Definition index {W} (s sub : bytes) : io W exn nat :=
  match find s sub with
  | Some i => ret i
  | None => raise ValueError
  end.

(** [s[k:]] for [k >= 0]: past the end it is [""]. *)
Definition slice_from (s : bytes) (k : nat) : bytes := drop k s.

(** White space for [str.strip()]: space, [\t], [\n], [\v], [\f], [\r]. *)
Definition is_space (c : ascii) : bool :=
  let n := nat_of_ascii c in
  Nat.eqb n 32 || (Nat.leb 9 n && Nat.leb n 13).

(** [s.lstrip()], [s.rstrip()] and [s.strip()] *)
Fixpoint lstrip (s : bytes) : bytes :=
  match s with
  | [] => []
  | c :: s' => if is_space c then lstrip s' else s
  end.

Definition rstrip (s : bytes) : bytes := reverse (lstrip (reverse s)).

Definition strip (s : bytes) : bytes := rstrip (lstrip s).

(** ** Specifications *)

(** [sub] occurs in [s] at index [i]. *)
Definition occurs_at (sub s : bytes) (i : nat) : Prop :=
  i <= length s /\ sub `prefix_of` drop i s.

(** [s] neither starts nor ends with white space. *)
Definition trimmed (s : bytes) : Prop :=
  (forall c, head s = Some c -> is_space c = false) /\
  (forall c, last s = Some c -> is_space c = false).

Abbreviation blank := (Forall (fun c => is_space c = true)).

Section Specs.
Implicit Types (s p sub : bytes) (c : ascii) (i j : nat).

Lemma str_eqb_eq a b : str_eqb a b = true <-> a = b.
Proof.
  revert b. induction a as [|c a IH]; intros [|d b]; simpl; try done.
  rewrite andb_true_iff, Ascii.eqb_eq, IH. split; [by intros [-> ->] | by intros [= -> ->]].
Qed.

Lemma str_eqb_refl a : str_eqb a a = true.
Proof. by apply str_eqb_eq. Qed.

Lemma py_eq_str_true v s : py_eq_str v s = true <-> v = PyStr s.
Proof.
  destruct v; simpl; try done. rewrite str_eqb_eq.
  split; [by intros -> | by intros [= ->]].
Qed.

Lemma truthy_PyStr s : truthy (PyStr s) = true <-> s <> [].
Proof. by destruct s. Qed.

Lemma startswith_prefix s p : startswith s p = true <-> p `prefix_of` s.
Proof.
  revert s. induction p as [|c p IH]; intros [|d s]; simpl.
  - split; [intros _; apply prefix_nil | done].
  - split; [intros _; apply prefix_nil | done].
  - split; [done | by intros ?%prefix_nil_inv].
  - rewrite andb_true_iff, Ascii.eqb_eq, IH. split.
    + intros [-> H]. by apply prefix_cons.
    + intros H. split; [by eapply prefix_cons_inv_1 | by eapply prefix_cons_inv_2].
Qed.

Lemma startswith_false s p : startswith s p = false <-> ~ p `prefix_of` s.
Proof. rewrite <- startswith_prefix. by destruct (startswith s p). Qed.

Lemma startswith_app s p : startswith (p ++ s) p = true.
Proof. apply startswith_prefix. by apply prefix_app_r. Qed.

Lemma startswith_nil_r s : startswith s [] = true.
Proof. by destruct s. Qed.

Lemma occurs_at_0 sub s : occurs_at sub s 0 <-> sub `prefix_of` s.
Proof. unfold occurs_at. simpl. intuition lia. Qed.

Lemma occurs_at_S sub c s i : occurs_at sub (c :: s) (S i) <-> occurs_at sub s i.
Proof. unfold occurs_at. simpl. intuition lia. Qed.

Lemma occurs_at_split sub s i :
  occurs_at sub s i <->
  exists pre post, s = pre ++ sub ++ post /\ length pre = i.
Proof.
  unfold occurs_at. split.
  - intros [Hi [post Hpost]]. exists (take i s), post.
    rewrite <- Hpost, take_drop, length_take. split; [done | lia].
  - intros (pre & post & -> & <-). rewrite length_app, drop_app_length.
    split; [lia | by apply prefix_app_r].
Qed.

Lemma find_unfold s sub :
  find s sub =
  if startswith s sub then Some 0
  else match s with [] => None | _ :: s' => option_map S (find s' sub) end.
Proof. by destruct s. Qed.

(** [find] returns an occurrence, ... *)
Lemma find_occurs s sub i : find s sub = Some i -> occurs_at sub s i.
Proof.
  revert i. induction s as [|c s IH]; intros i; rewrite find_unfold;
    destruct (startswith _ sub) eqn:Hp; try done;
    try (intros [= <-]; by apply occurs_at_0, startswith_prefix).
  destruct (find s sub); simpl; [|done]. intros [= <-]. by apply occurs_at_S, IH.
Qed.

(** ... the first one, ... *)
Lemma find_minimal s sub i j :
  find s sub = Some i -> j < i -> ~ occurs_at sub s j.
Proof.
  revert i j. induction s as [|c s IH]; intros i j; rewrite find_unfold;
    destruct (startswith _ sub) eqn:Hp; try done; try (intros [= <-]; lia).
  destruct (find s sub) as [k|]; simpl; [|done]. intros [= <-] Hj.
  destruct j as [|j].
  - rewrite occurs_at_0. by apply startswith_false.
  - rewrite occurs_at_S. apply (IH k); [done | lia].
Qed.

(** ... and it finds one whenever there is one. *)
Lemma find_complete s sub j :
  occurs_at sub s j -> exists i, find s sub = Some i /\ i <= j.
Proof.
  revert j. induction s as [|c s IH]; intros j Hocc; rewrite find_unfold;
    destruct (startswith _ sub) eqn:Hp; try (exists 0; split; [done | lia]);
    apply startswith_false in Hp.
  - destruct Hocc as [Hj Hocc]. simpl in Hj. by replace j with 0 in Hocc by lia.
  - destruct j as [|j]; [by apply occurs_at_0 in Hocc|].
    apply occurs_at_S, IH in Hocc as (i & -> & Hi). exists (S i). split; [done | lia].
Qed.

Lemma find_Some s sub i :
  find s sub = Some i <->
  occurs_at sub s i /\ forall j, j < i -> ~ occurs_at sub s j.
Proof.
  split; [eauto using find_occurs, find_minimal|]. intros [Hocc Hmin].
  destruct (find_complete _ _ _ Hocc) as (k & Hk & Hle).
  destruct (decide (k = i)) as [->|]; [done|].
  destruct (Hmin k); [lia | by eapply find_occurs].
Qed.

Lemma find_None s sub : find s sub = None <-> forall j, ~ occurs_at sub s j.
Proof.
  split.
  - intros Hf j (i & Hi & _)%find_complete. congruence.
  - intros Hno. destruct (find s sub) as [i|] eqn:Hf; [|done].
    by destruct (Hno i); apply find_occurs.
Qed.

(** The separator is found right after a prefix that does not hold it. *)
Lemma find_app_first pre sub post :
  (forall j, j < length pre -> ~ occurs_at sub (pre ++ sub ++ post) j) ->
  find (pre ++ sub ++ post) sub = Some (length pre).
Proof.
  intros Hmin. apply find_Some. split; [|done].
  apply occurs_at_split. by exists pre, post.
Qed.

End Specs.

(** ** [strip] *)

Section Strip.
Implicit Types (s t p : bytes) (c : ascii).

Lemma lstrip_split s : exists ws, s = ws ++ lstrip s /\ blank ws.
Proof.
  induction s as [|c s (ws & IH & Hws)]; [by exists []|]. simpl.
  destruct (is_space c) eqn:Hc; [|by exists []].
  exists (c :: ws). split; [by rewrite IH at 1 | by constructor].
Qed.

Lemma lstrip_head s c : head (lstrip s) = Some c -> is_space c = false.
Proof.
  induction s as [|d s IH]; simpl; [done|].
  destruct (is_space d) eqn:Hd; [done|]. by intros [= <-].
Qed.

Lemma lstrip_fixed s :
  (forall c, head s = Some c -> is_space c = false) -> lstrip s = s.
Proof. destruct s as [|c s]; simpl; [done|]. intros H. by rewrite H. Qed.

Lemma rstrip_split s : exists ws, s = rstrip s ++ ws /\ blank ws.
Proof.
  destruct (lstrip_split (reverse s)) as (ws & Hs & Hws).
  exists (reverse ws). split; [|by apply Forall_reverse].
  unfold rstrip. by rewrite <- reverse_app, <- Hs, reverse_involutive.
Qed.

Lemma rstrip_last s c : last (rstrip s) = Some c -> is_space c = false.
Proof. unfold rstrip. rewrite last_reverse. apply lstrip_head. Qed.

Lemma rstrip_fixed s :
  (forall c, last s = Some c -> is_space c = false) -> rstrip s = s.
Proof.
  intros H. unfold rstrip. rewrite lstrip_fixed, reverse_involutive; [done|].
  intros c. rewrite head_reverse. apply H.
Qed.

Lemma lstrip_blank_app ws s : blank ws -> lstrip (ws ++ s) = lstrip s.
Proof. induction 1 as [|c ws Hc _ IH]; simpl; [done|]. by rewrite Hc. Qed.

Lemma rstrip_app_blank s ws : blank ws -> rstrip (s ++ ws) = rstrip s.
Proof.
  intros Hws. unfold rstrip.
  by rewrite reverse_app, lstrip_blank_app by by apply Forall_reverse.
Qed.

Lemma rstrip_head s c : head (rstrip s) = Some c -> head s = Some c.
Proof.
  destruct (rstrip_split s) as (ws & Hs & _). rewrite Hs at 2.
  by destruct (rstrip s).
Qed.

(** [strip] takes white space, and only white space, off both ends. *)
Lemma strip_spec s :
  trimmed (strip s) /\
  exists l r, s = l ++ strip s ++ r /\ blank l /\ blank r.
Proof.
  unfold strip. split; [split|].
  - intros c Hc%rstrip_head. by eapply lstrip_head.
  - apply rstrip_last.
  - destruct (lstrip_split s) as (l & Hl & ?).
    destruct (rstrip_split (lstrip s)) as (r & Hr & ?).
    exists l, r. by rewrite <- Hr.
Qed.

(** A [str] that is trimmed already is left as it is. *)
Lemma strip_fixed s : trimmed s -> strip s = s.
Proof.
  intros [Hh Hl]. unfold strip. by rewrite lstrip_fixed, rstrip_fixed.
Qed.

Lemma strip_idemp s : strip (strip s) = strip s.
Proof. apply strip_fixed, strip_spec. Qed.

(** Stripping keeps a prefix that holds no white space. *)
Lemma strip_prefix p t :
  p <> [] -> Forall (fun c => is_space c = false) p ->
  strip (p ++ t) = p ++ rstrip t.
Proof.
  intros Hp Hns. unfold strip. rewrite lstrip_fixed.
  2: { destruct Hns; [done|]. by intros c [= <-]. }
  destruct (rstrip_split t) as (ws & Ht & Hws). rewrite Ht at 1.
  rewrite app_assoc, rstrip_app_blank by done.
  apply rstrip_fixed. intros c. rewrite last_app.
  destruct (last (rstrip t)) eqn:Hl.
  - intros [= <-]. by eapply rstrip_last.
  - intros Hc. eapply Forall_forall in Hns; [done|].
    by eapply last_Some_elem_of.
Qed.

(** C40: [strip] returns the one trimmed middle of its argument: for
    every way of writing [s] as white space, a trimmed [m], white space,
    [strip s] is [m]. *)
Theorem strip_unique l m r :
  blank l -> blank r -> trimmed m -> strip (l ++ m ++ r) = m.
Proof.
  intros Hl Hr [Hh Ht]. unfold strip. rewrite lstrip_blank_app by done.
  destruct m as [|c m].
  - destruct (lstrip_split r) as (ws & Hws & _). simpl.
    rewrite Hws in Hr. apply Forall_app in Hr as [_ Hr].
    destruct (lstrip r) as [|d ?] eqn:Hd; [done|].
    apply Forall_cons in Hr as [Hb _].
    by rewrite (lstrip_head r d) in Hb by by rewrite Hd.
  - rewrite lstrip_fixed by (intros d [= <-]; by apply Hh).
    rewrite rstrip_app_blank by done. by apply rstrip_fixed.
Qed.

Definition demo_line_raw : bytes :=
  " "%char :: lit "$GPGGA,1,2,3" ++ ["013"%char; "010"%char].

Lemma strip_unique_witness : strip demo_line_raw = lit "$GPGGA,1,2,3".
Proof.
  apply (strip_unique [" "%char] (lit "$GPGGA,1,2,3")
           ["013"%char; "010"%char]).
  - by repeat constructor.
  - by repeat constructor.
  - split; intros c; vm_compute; by intros [= <-].
Defined.

End Strip.

