(* ===== verification/Env.v ===== *)
(** * The world [agps.py] runs in

    The script talks to a TCP peer through [socket], to a GPS receiver
    through [serial] and to the console through [print].  The peer and
    the line are records of their state and of a script of what they
    will do ([Net], [Serial]); the [World] holds both and the [trace] of
    the calls the script has completed, in order.  What was printed,
    sent and written are projections of the trace.  Every library call
    of [agps.py] is one action here, first on its device and then, with
    its entry in the trace, on the [World]. *)

From Stdlib Require Import Ascii.
From Stdlib Require String.
From stdpp Require Import list strings.
From S2P Require Import Prelude Python.

Local Open Scope io_scope.

(** ** The TCP peer *)

(** What happens next on the connection: the peer sends a segment,
    closes its side or resets the connection, or the user presses
    Ctrl-C while the script waits in [recv].  An exhausted list is a
    peer that stays silent. *)
Inductive net_event : Type :=
| Seg (bs : bytes)
| Fin
| Rst
| Sigint.

Record Net : Type := mkNet {
  net_up : bool;                    (* the peer accepts a connection *)
  net_peer : option (bytes * N);    (* the address connected to *)
  net_inbox : list net_event;       (* what the peer will do *)
  net_room : nat                    (* the bytes the send buffer has room for *)
}.

Definition set_net_peer (p : option (bytes * N)) (n : Net) : Net :=
  mkNet (net_up n) p (net_inbox n) (net_room n).
Definition set_net_inbox (q : list net_event) (n : Net) : Net :=
  mkNet (net_up n) (net_peer n) q (net_room n).
Definition set_net_room (r : nat) (n : Net) : Net :=
  mkNet (net_up n) (net_peer n) (net_inbox n) r.

(** [socket.socket()]: a new socket, connected to nothing. *)
Definition net_socket : io Net exn unit :=
  fun n => Done tt (set_net_peer None n).

(** [sock.connect((address, port))] *)
Definition net_connect (address : bytes) (port : N) : io Net exn unit :=
  fun n =>
    if net_up n then Done tt (set_net_peer (Some (address, port)) n)
    else Raised SocketError n.

(** [sock.send(data)]: as many bytes of [data] as the send buffer has
    room for are taken, and their number is returned; the call waits
    while there is room for none. *)
Definition net_send (data : bytes) : io Net exn nat :=
  fun n =>
    match net_peer n with
    | Some _ =>
        match data, net_room n with
        | [], _ => Done 0 n
        | _ :: _, 0 => Blocked n
        | _ :: _, S _ =>
            Done (length data `min` net_room n)
                 (set_net_room (net_room n - length data) n)
        end
    | None => Raised SocketError n
    end.

(** What [recv(bufsize)] returns from an inbox, and the inbox it leaves:
    at most [bufsize] bytes of the first segment that has any; [""] once
    the peer has closed; it waits for ever on a silent peer, and Ctrl-C
    ends the wait with [KeyboardInterrupt]. *)
Fixpoint recv_inbox (bufsize : nat) (inbox : list net_event)
  : outcome (list net_event) exn bytes :=
  match inbox with
  | [] => Blocked []
  | Seg [] :: q => recv_inbox bufsize q
  | Seg bs :: q =>
      Done (take bufsize bs)
           (match drop bufsize bs with [] => q | rest => Seg rest :: q end)
  | Fin :: q => Done [] (Fin :: q)
  | Rst :: q => Raised SocketError q
  | Sigint :: q => Raised KeyboardInterrupt q
  end.

Arguments recv_inbox : simpl nomatch.

(** [sock.recv(bufsize)] *)
Definition net_recv (bufsize : nat) : io Net exn bytes :=
  fun n =>
    match net_peer n with
    | Some _ => zoom net_inbox set_net_inbox (recv_inbox bufsize) n
    | None => Raised SocketError n
    end.

(** ** The serial line *)

(** What happens on the line while the script polls or waits: bytes
    arrive from the receiver, the user presses Ctrl-C, or the device
    fails.  An exhausted list is a line that stays silent. *)
Inductive ser_event : Type :=
| Arrive (bs : bytes)
| Interrupt
| Fault.

Record Serial : Type := mkSerial {
  ser_present : bool;               (* the device can be opened *)
  ser_port : option (bytes * N);    (* the open port: path and baud rate *)
  ser_rx : bytes;                   (* the input buffer of the driver *)
  ser_feed : list ser_event         (* what the line will do *)
}.

Definition set_ser_port (p : option (bytes * N)) (d : Serial) : Serial :=
  mkSerial (ser_present d) p (ser_rx d) (ser_feed d).
Definition set_ser_line (l : bytes * list ser_event) (d : Serial) : Serial :=
  mkSerial (ser_present d) (ser_port d) l.1 l.2.
Definition ser_line (d : Serial) : bytes * list ser_event :=
  (ser_rx d, ser_feed d).

(** [serial.Serial(path, baud)] *)
Definition dev_open (path : bytes) (baud : N) : io Serial exn unit :=
  fun d =>
    if ser_present d then Done tt (set_ser_port (Some (path, baud)) d)
    else Raised SerialException d.

(** A call on a port that is not open raises [PortNotOpen]. *)
Definition when_open {A} (m : io Serial exn A) : io Serial exn A :=
  fun d =>
    match ser_port d with
    | Some _ => m d
    | None => Raised PortNotOpen d
    end.

(** One event of the line happens. *)
Definition line_tick : io (bytes * list ser_event) exn unit :=
  fun '(rx, feed) =>
    match feed with
    | [] => Done tt (rx, [])
    | Arrive bs :: f => Done tt (rx ++ bs, f)
    | Interrupt :: f => Raised KeyboardInterrupt (rx, f)
    | Fault :: f => Raised SerialException (rx, f)
    end.

(** Wait until [size] bytes are in the buffer, and take them. *)
Fixpoint line_await (size : nat) (rx : bytes) (feed : list ser_event)
  : outcome (bytes * list ser_event) exn bytes :=
  if size <=? length rx then Done (take size rx) (drop size rx, feed)
  else
    match feed with
    | [] => Blocked (rx, [])
    | Arrive bs :: f => line_await size (rx ++ bs) f
    | Interrupt :: f => Raised KeyboardInterrupt (rx, f)
    | Fault :: f => Raised SerialException (rx, f)
    end.

Arguments line_await : simpl never.

(** The bytes the line delivers before it interrupts, fails or falls
    silent, and what is left of its script then. *)
Fixpoint line_arrivals (feed : list ser_event) : bytes :=
  match feed with
  | Arrive bs :: f => bs ++ line_arrivals f
  | _ => []
  end.

Fixpoint line_stop (feed : list ser_event) : list ser_event :=
  match feed with
  | Arrive _ :: f => line_stop f
  | rest => rest
  end.

(** [ser.inWaiting()]: the line moves on, then the bytes buffered are counted. *)
Definition dev_inWaiting : io Serial exn nat :=
  when_open (zoom ser_line set_ser_line
               (line_tick ;; gets (fun l => length l.1))).

(** [ser.read(size)], blocking: the port is opened without a timeout. *)
Definition dev_read (size : nat) : io Serial exn bytes :=
  when_open (zoom ser_line set_ser_line (fun l => line_await size l.1 l.2)).

(** [ser.write(data)]: the number of bytes written. *)
Definition dev_write (data : bytes) : io Serial exn nat :=
  when_open (ret (length data)).

(** [ser.close()] *)
Definition dev_close : io Serial exn unit :=
  fun d => Done tt (set_ser_port None d).

(** ** The world *)

(** A completed call of the script, with its arguments or its result. *)
Inductive call : Type :=
| CPrint (s : bytes)
| CSocket
| CConnect (address : bytes) (port : N)
| CSend (data : bytes) (n : nat)
| CRecv (buf : bytes)
| COpen (path : bytes) (baud : N)
| CPoll (n : nat)
| CRead (bs : bytes)
| CWrite (data : bytes)
| CClose.

#[export] Instance call_eq_dec : EqDecision call.
Proof. solve_decision. Defined.

Record World : Type := mkWorld {
  net : Net;
  ser : Serial;
  trace : list call                 (* the calls completed, oldest first *)
}.

Definition set_net (n : Net) (w : World) : World := mkWorld n (ser w) (trace w).
Definition set_ser (d : Serial) (w : World) : World := mkWorld (net w) d (trace w).

(** The world with the calls [cs] added to its trace. *)
Definition logs (cs : list call) (w : World) : World :=
  mkWorld (net w) (ser w) (trace w ++ cs).

Abbreviation prog := (io World exn).

Definition on_net {A} (m : io Net exn A) : prog A := zoom net set_net m.
Definition on_ser {A} (m : io Serial exn A) : prog A := zoom ser set_ser m.
Definition log (c : call) : prog unit := modify (logs [c]).

(** [print s] *)
Definition print (s : bytes) : prog unit := log (CPrint s).

Definition socket_socket : prog unit := on_net net_socket ;; log CSocket.
Definition sock_connect (address : bytes) (port : N) : prog unit :=
  on_net (net_connect address port) ;; log (CConnect address port).
Definition sock_send (data : bytes) : prog nat :=
  n <- on_net (net_send data) ;; log (CSend data n) ;; ret n.
Definition sock_recv (bufsize : nat) : prog bytes :=
  buf <- on_net (net_recv bufsize) ;; log (CRecv buf) ;; ret buf.
Definition serial_open (path : bytes) (baud : N) : prog unit :=
  on_ser (dev_open path baud) ;; log (COpen path baud).
Definition inWaiting : prog nat :=
  n <- on_ser dev_inWaiting ;; log (CPoll n) ;; ret n.
Definition ser_read (size : nat) : prog bytes :=
  bs <- on_ser (dev_read size) ;; log (CRead bs) ;; ret bs.
Definition ser_write (data : bytes) : prog nat :=
  n <- on_ser (dev_write data) ;; log (CWrite data) ;; ret n.
Definition ser_close : prog unit := on_ser dev_close ;; log CClose.

(** ** Projections of the trace *)

Definition printed (c : call) : option bytes :=
  match c with CPrint s => Some s | _ => None end.
Definition sent_data (c : call) : option bytes :=
  match c with CSend d n => Some (take n d) | _ => None end.
Definition written_data (c : call) : option bytes :=
  match c with CWrite d => Some d | _ => None end.
Definition read_data (c : call) : option bytes :=
  match c with CRead bs => Some bs | _ => None end.
Definition polled (c : call) : option nat :=
  match c with CPoll n => Some n | _ => None end.

(** The lines on the console, the bytes each [send] has passed to the
    peer, what was written to the line. *)
Definition stdout (w : World) : list bytes := omap printed (trace w).
Definition sent (w : World) : list bytes := omap sent_data (trace w).
Definition written (w : World) : list bytes := omap written_data (trace w).
Arguments stdout : simpl never.
Arguments sent : simpl never.
Arguments written : simpl never.

(** ** Views of the world *)

Definition connected (w : World) : Prop := is_Some (net_peer (net w)).
Definition port_open (w : World) : Prop := is_Some (ser_port (ser w)).

Definition set_inbox (q : list net_event) (w : World) : World :=
  set_net (set_net_inbox q (net w)) w.
Definition set_room (r : nat) (w : World) : World :=
  set_net (set_net_room r (net w)) w.
Definition set_line (l : bytes * list ser_event) (w : World) : World :=
  set_ser (set_ser_line l (ser w)) w.

(** An outcome on a part of the world, seen on the whole world. *)
Definition lift_outcome {V A} (set : V -> World -> World) (w : World)
  (r : outcome V exn A) : outcome World exn A :=
  match r with
  | Done a v => Done a (set v w)
  | Raised e v => Raised e (set v w)
  | Blocked v => Blocked (set v w)
  | OutOfFuel => OutOfFuel
  end.

(** ** The actions, by cases *)

Section Actions.
Implicit Types (w : World) (q : list net_event) (l : bytes * list ser_event)
  (cs : list call) (rx : bytes) (feed : list ser_event).

Lemma logs_logs cs1 cs2 w : logs cs2 (logs cs1 w) = logs (cs1 ++ cs2) w.
Proof. unfold logs. simpl. by rewrite app_assoc. Qed.

Lemma logs_nil w : logs [] w = w.
Proof. destruct w. unfold logs. simpl. by rewrite app_nil_r. Qed.

Lemma set_inbox_set_inbox q q' w : set_inbox q (set_inbox q' w) = set_inbox q w.
Proof. reflexivity. Qed.

Lemma set_line_set_line l l' w : set_line l (set_line l' w) = set_line l w.
Proof. reflexivity. Qed.

Lemma set_inbox_logs q cs w : set_inbox q (logs cs w) = logs cs (set_inbox q w).
Proof. reflexivity. Qed.

Lemma set_room_logs r cs w : set_room r (logs cs w) = logs cs (set_room r w).
Proof. reflexivity. Qed.

Lemma set_line_logs l cs w : set_line l (logs cs w) = logs cs (set_line l w).
Proof. reflexivity. Qed.

Lemma line_await_unfold size rx feed :
  line_await size rx feed =
  if size <=? length rx then Done (take size rx) (drop size rx, feed)
  else
    match feed with
    | [] => Blocked (rx, [])
    | Arrive bs :: f => line_await size (rx ++ bs) f
    | Interrupt :: f => Raised KeyboardInterrupt (rx, f)
    | Fault :: f => Raised SerialException (rx, f)
    end.
Proof. by destruct feed. Qed.

(** Reading what a poll has counted takes the whole buffer. *)
Lemma line_await_all rx feed :
  line_await (length rx) rx feed = Done rx ([], feed).
Proof.
  by rewrite line_await_unfold, Nat.leb_refl, take_ge, drop_ge.
Qed.

Lemma set_net_logs n cs w : set_net n (logs cs w) = logs cs (set_net n w).
Proof. reflexivity. Qed.

Lemma set_ser_logs d cs w : set_ser d (logs cs w) = logs cs (set_ser d w).
Proof. reflexivity. Qed.

Lemma net_logs cs w : net (logs cs w) = net w.
Proof. reflexivity. Qed.

Lemma ser_logs cs w : ser (logs cs w) = ser w.
Proof. reflexivity. Qed.

Lemma log_run c w : log c w = Done tt (logs [c] w).
Proof. reflexivity. Qed.

Lemma print_run s w : print s w = Done tt (logs [CPrint s] w).
Proof. reflexivity. Qed.

Lemma sock_connect_up a p w :
  net_up (net w) = true ->
  sock_connect a p w =
  Done tt (logs [CConnect a p] (set_net (set_net_peer (Some (a, p)) (net w)) w)).
Proof.
  intros H. unfold sock_connect, on_net, zoom, net_connect, bind. by rewrite H.
Qed.

Lemma sock_connect_down a p w :
  net_up (net w) = false -> sock_connect a p w = Raised SocketError w.
Proof.
  intros H. unfold sock_connect, on_net, zoom, net_connect, bind. rewrite H.
  by destruct w.
Qed.

Lemma socket_socket_run w :
  socket_socket w = Done tt (logs [CSocket] (set_net (set_net_peer None (net w)) w)).
Proof. reflexivity. Qed.

(** The number of bytes a [send] of [d] passes to the peer. *)
Lemma sock_send_connected d w :
  connected w -> d <> [] -> 0 < net_room (net w) ->
  sock_send d w =
  Done (length d `min` net_room (net w))
    (logs [CSend d (length d `min` net_room (net w))]
       (set_room (net_room (net w) - length d) w)).
Proof.
  intros [p Hp] Hd Hr. unfold sock_send, on_net, zoom, net_send, bind.
  rewrite Hp. destruct d; [done|]. by destruct (net_room (net w)); [lia|].
Qed.

(** A [send] waits for ever when the send buffer stays full. *)
Lemma sock_send_full d w :
  connected w -> d <> [] -> net_room (net w) = 0 -> sock_send d w = Blocked w.
Proof.
  intros [p Hp] Hd Hr. unfold sock_send, on_net, zoom, net_send, bind.
  rewrite Hp, Hr. destruct d; [done|]. by destruct w.
Qed.

Lemma sock_recv_connected b w :
  connected w ->
  sock_recv b w =
  match recv_inbox b (net_inbox (net w)) with
  | Done buf q => Done buf (logs [CRecv buf] (set_inbox q w))
  | r => lift_outcome set_inbox w r
  end.
Proof.
  intros [p Hp]. unfold sock_recv, on_net, zoom, net_recv, bind. rewrite Hp.
  unfold zoom. by destruct (recv_inbox b _).
Qed.

Lemma serial_open_present p b w :
  ser_present (ser w) = true ->
  serial_open p b w =
  Done tt (logs [COpen p b] (set_ser (set_ser_port (Some (p, b)) (ser w)) w)).
Proof.
  intros H. unfold serial_open, on_ser, zoom, dev_open, bind. by rewrite H.
Qed.

Lemma serial_open_absent p b w :
  ser_present (ser w) = false -> serial_open p b w = Raised SerialException w.
Proof.
  intros H. unfold serial_open, on_ser, zoom, dev_open, bind. rewrite H.
  by destruct w.
Qed.

Lemma inWaiting_open w :
  port_open w ->
  inWaiting w =
  match line_tick (ser_rx (ser w), ser_feed (ser w)) with
  | Done _ l => Done (length l.1) (logs [CPoll (length l.1)] (set_line l w))
  | Raised e l => Raised e (set_line l w)
  | Blocked l => Blocked (set_line l w)
  | OutOfFuel => OutOfFuel
  end.
Proof.
  intros [p Hp]. unfold inWaiting, on_ser, dev_inWaiting, when_open, zoom, bind.
  rewrite Hp. unfold ser_line. by destruct (line_tick _).
Qed.

Lemma ser_read_open n w :
  port_open w ->
  ser_read n w =
  match line_await n (ser_rx (ser w)) (ser_feed (ser w)) with
  | Done bs l => Done bs (logs [CRead bs] (set_line l w))
  | r => lift_outcome set_line w r
  end.
Proof.
  intros [p Hp]. unfold ser_read, on_ser, dev_read, when_open, zoom, bind.
  rewrite Hp. unfold ser_line. simpl. by destruct (line_await _ _ _).
Qed.

Lemma ser_write_open d w :
  port_open w -> ser_write d w = Done (length d) (logs [CWrite d] w).
Proof.
  intros [p Hp]. unfold ser_write, on_ser, dev_write, when_open, zoom, bind.
  rewrite Hp. by destruct w.
Qed.

Lemma ser_close_run w :
  ser_close w = Done tt (logs [CClose] (set_ser (set_ser_port None (ser w)) w)).
Proof. reflexivity. Qed.

(** The calls of the receive loop print and write nothing. *)
Lemma omap_recv {B} (f : call -> option B) (l : list bytes) :
  (forall b, f (CRecv b) = None) -> omap f (CRecv <$> l) = [].
Proof. intros Hf. induction l as [|b l IH]; simpl; [done|]. by rewrite Hf. Qed.

Lemma stdout_logs cs w : stdout (logs cs w) = stdout w ++ omap printed cs.
Proof. unfold stdout, logs. simpl. apply omap_app. Qed.

Lemma written_logs cs w : written (logs cs w) = written w ++ omap written_data cs.
Proof. unfold written, logs. simpl. apply omap_app. Qed.

Lemma sent_logs cs w : sent (logs cs w) = sent w ++ omap sent_data cs.
Proof. unfold sent, logs. simpl. apply omap_app. Qed.

End Actions.

(** Worlds are normalised by moving the trace outwards and merging it. *)
Create Rewrite HintDb world.
#[export] Hint Rewrite set_inbox_logs set_room_logs set_line_logs set_net_logs
  set_ser_logs net_logs ser_logs logs_logs set_inbox_set_inbox set_line_set_line logs_nil
  : world.

Ltac world_rw := autorewrite with world.
Ltac world_norm := simpl; world_rw; simpl.
