(* ===== verification/Fetcher.v ===== *)
(** * The fetcher: lines 4-24 of [agps.py]

    [fetch] makes a socket, connects to the u-blox server, sends the
    request, reads the reply until the peer closes ([recv_loop]) and
    cuts it after the first CRLF CRLF ([extract_binary]).  The theorems
    give what [send] passes to the peer ([fetch_sends_once]), the
    outcome of [recv_loop] for every behaviour of the peer
    ([recv_while]), the payload for every reply
    ([extract_binary_first], [extract_binary_absent]) and the bound on
    the iterations ([recv_fuel]). *)

From Stdlib Require Import Ascii.
From Stdlib Require String.
From stdpp Require Import list strings.
From S2P Require Import Prelude Python Env.

Local Open Scope io_scope.

(** ** The program *)

Definition address : bytes := lit "agps.u-blox.com".
Definition port : N := 46434.
Definition request : bytes :=
  lit "cmd=full;user=xxx@xxx.xx;pwd=xxx;lat=50.0;lon=14.3;pacc=10000".

(** ["\r\n\r\n"] *)
Definition CRLFCRLF : bytes := ["013"; "010"; "013"; "010"]%char.

(** The variables of the receive loop. *)
Record recv_state : Type := mkRecv {
  data : bytes;
  buffer : pyval
}.

(** Lines 18-20: one iteration. *)
Definition recv_body (st : recv_state) : prog recv_state :=
  buf <- sock_recv 1024 ;;
  if truthy (PyStr buf) then ret (mkRecv (data st ++ buf) (PyStr buf))
  else ret (mkRecv (data st) (PyStr buf)).

(** Lines 14-20: [data = ""; buffer = True; while buffer: ...] *)
Definition recv_loop (fuel : nat) : prog bytes :=
  st <- while fuel (fun st => truthy (buffer st)) recv_body
          (mkRecv [] (PyBool true)) ;;
  ret (data st).

(** Lines 22-24: the payload follows the first blank line. *)
Definition extract_binary (data : bytes) : prog bytes :=
  headerEndsAt <- index data CRLFCRLF ;;
  let binaryStartsAt := headerEndsAt + 4 in
  ret (slice_from data binaryStartsAt).

(** Lines 4-24. *)
Definition fetch (fuel : nat) : prog bytes :=
  socket_socket ;;
  print (lit "Connecting to u-blox") ;;
  sock_connect address port ;;
  print (lit "Connection established") ;;
  print (lit "Sending the request") ;;
  sock_send request ;;
  data <- recv_loop fuel ;;
  extract_binary data.

(** ** What the peer sends *)

(** The bytes of the segments before the peer closes, resets or falls
    silent, and what is left of the inbox then. *)
Fixpoint inbox_data (inbox : list net_event) : bytes :=
  match inbox with
  | Seg bs :: q => bs ++ inbox_data q
  | _ => []
  end.

Fixpoint inbox_rest (inbox : list net_event) : list net_event :=
  match inbox with
  | Seg _ :: q => inbox_rest q
  | rest => rest
  end.

(** A bound on the number of [recv] calls that return data. *)
Fixpoint inbox_weight (inbox : list net_event) : nat :=
  match inbox with
  | Seg bs :: q => S (length bs + inbox_weight q)
  | _ :: q => S (inbox_weight q)
  | [] => 0
  end.

Definition recv_fuel (w : World) : nat := S (inbox_weight (net_inbox (net w))).

(** What the calls of the loop return, one item per [recv]. *)
Fixpoint recv_chunks (fuel : nat) (inbox : list net_event) : list bytes :=
  match fuel with
  | 0 => []
  | S fuel' =>
      match recv_inbox 1024 inbox with
      | Done [] _ => [[]]
      | Done buf q => buf :: recv_chunks fuel' q
      | _ => []
      end
  end.

(** The world after the loop: the inbox [q] is left, the calls are logged. *)
Definition received (fuel : nat) (q : list net_event) (w : World) : World :=
  logs ((CRecv <$> recv_chunks fuel (net_inbox (net w)))) (set_inbox q w).

(** The outcome of the receive loop started with [data0] in [data]. *)
Definition recv_result (fuel : nat) (data0 : bytes) (w : World)
  : outcome World exn recv_state :=
  match inbox_rest (net_inbox (net w)) with
  | Fin :: q =>
      Done (mkRecv (data0 ++ inbox_data (net_inbox (net w))) (PyStr []))
           (received fuel (Fin :: q) w)
  | Rst :: q => Raised SocketError (received fuel q w)
  | Sigint :: q => Raised KeyboardInterrupt (received fuel q w)
  | _ => Blocked (received fuel [] w)
  end.

(** The calls of [fetch] before the receive loop, when [send] has
    passed [n] bytes of the request to the peer. *)
Definition fetch_calls (n : nat) : list call :=
  [CSocket; CPrint (lit "Connecting to u-blox"); CConnect address port;
   CPrint (lit "Connection established"); CPrint (lit "Sending the request");
   CSend request n].

(** The bytes of the request that [send] passes to the peer. *)
Definition request_sent (w : World) : nat :=
  length request `min` net_room (net w).
Arguments request_sent : simpl never.

(** The world after the connection was made, and after the request
    was sent. *)
Definition connected_to (w : World) : World :=
  set_net (set_net_peer (Some (address, port)) (net w)) w.

Definition requested (w : World) : World :=
  logs (fetch_calls (request_sent w))
    (set_room (net_room (net w) - length request) (connected_to w)).

(** ** One [recv] *)

Section Recv.
Implicit Types (w : World) (inbox q : list net_event) (buf : bytes).

(** What one [recv] returns, in terms of what the peer sends. *)
Lemma recv_inbox_spec b inbox :
  0 < b ->
  match recv_inbox b inbox with
  | Done [] q =>
      inbox_data inbox = [] /\ inbox_rest inbox = q /\ exists q', q = Fin :: q'
  | Done buf q =>
      inbox_data inbox = buf ++ inbox_data q /\
      inbox_rest inbox = inbox_rest q /\ inbox_weight q < inbox_weight inbox
  | Raised e q =>
      inbox_data inbox = [] /\
      ((e = SocketError /\ inbox_rest inbox = Rst :: q) \/
       (e = KeyboardInterrupt /\ inbox_rest inbox = Sigint :: q))
  | Blocked q => q = [] /\ inbox_data inbox = [] /\ inbox_rest inbox = []
  | OutOfFuel => False
  end.
Proof.
  intros Hb. induction inbox as [|[[|c bs]| | |] q IH]; simpl; eauto.
  - destruct (recv_inbox b q) as [[|? ?] ?|? ?|?|]; intuition lia.
  - destruct b as [|b]; [lia|]. simpl.
    pose proof (take_drop b bs) as Htd. remember (take b bs) as t eqn:Ht.
    clear Ht. destruct (drop b bs) as [|d rest]; subst bs; simpl;
      rewrite ?length_app, <- ?app_assoc, ?app_nil_r; simpl;
      repeat split; try done; lia.
Qed.

(** [recv] never returns more than it is asked for. *)
Lemma recv_inbox_length b inbox buf q :
  recv_inbox b inbox = Done buf q -> length buf <= b.
Proof.
  induction inbox as [|[[|c bs]| | |] q' IH]; simpl; try done.
  - intros [= <- _]. rewrite length_take. lia.
  - intros [= <- _]. simpl. lia.
Qed.

Lemma sock_recv_length b w buf w' :
  sock_recv b w = Done buf w' -> length buf <= b.
Proof.
  destruct (net_peer (net w)) eqn:Hp.
  - rewrite sock_recv_connected by (by eexists).
    destruct (recv_inbox b _) eqn:Hr; try done. intros [= <- _].
    by eapply recv_inbox_length.
  - unfold sock_recv, on_net, zoom, net_recv, bind. by rewrite Hp.
Qed.

End Recv.

(** ** The receive loop *)

Section RecvLoop.
Implicit Types (w : World) (st : recv_state).

Let cond st := truthy (buffer st).

Lemma recv_body_connected st w :
  connected w ->
  recv_body st w =
  match recv_inbox 1024 (net_inbox (net w)) with
  | Done [] q =>
      Done (mkRecv (data st) (PyStr [])) (logs [CRecv []] (set_inbox q w))
  | Done buf q =>
      Done (mkRecv (data st ++ buf) (PyStr buf)) (logs [CRecv buf] (set_inbox q w))
  | Raised e q => Raised e (set_inbox q w)
  | Blocked q => Blocked (set_inbox q w)
  | OutOfFuel => OutOfFuel
  end.
Proof.
  intros Hc. unfold recv_body, bind. rewrite sock_recv_connected by done.
  by destruct (recv_inbox _ _) as [[|? ?] ?|? ?|?|].
Qed.

(** The loop reads everything the peer sends before it closes. *)
Lemma recv_while fuel st w :
  connected w -> cond st = true ->
  inbox_weight (net_inbox (net w)) < fuel ->
  while fuel cond recv_body st w = recv_result fuel (data st) w.
Proof.
  revert st w. induction fuel as [|fuel IH]; intros st w Hc Hst Hfuel; [lia|].
  rewrite while_unfold, Hst. unfold bind. rewrite recv_body_connected by done.
  pose proof (recv_inbox_spec 1024 (net_inbox (net w)) ltac:(lia)) as Hspec.
  unfold recv_result, received. simpl recv_chunks.
  destruct (recv_inbox _ _) as [[|c buf] q|e q|q|]; try done.
  - destruct Hspec as (Hd & -> & q' & ->).
    rewrite while_exit by done. by rewrite Hd, app_nil_r.
  - destruct Hspec as (Hd & Hr & Hw).
    rewrite IH; [|done..|simpl; lia]. unfold recv_result, received. simpl.
    rewrite Hd, Hr, app_assoc.
    by destruct (inbox_rest q) as [|[| | |] ?]; world_norm.
  - by destruct Hspec as (_ & [[-> ->]|[-> ->]]); world_norm.
  - by destruct Hspec as (-> & _ & ->); world_norm.
Qed.

(** The chunks received are those of the reply, none longer than asked. *)
Lemma recv_chunks_concat fuel inbox :
  inbox_weight inbox < fuel -> concat (recv_chunks fuel inbox) = inbox_data inbox.
Proof.
  revert inbox. induction fuel as [|fuel IH]; intros inbox Hfuel; [lia|]. simpl.
  pose proof (recv_inbox_spec 1024 inbox ltac:(lia)) as Hspec.
  destruct (recv_inbox _ _) as [[|c buf] q|e q|q|]; [| |..]; simpl.
  - by destruct Hspec as (-> & _).
  - destruct Hspec as (-> & _ & Hw). by rewrite IH by lia.
  - by destruct Hspec as (-> & _).
  - by destruct Hspec as (_ & -> & _).
  - done.
Qed.

Lemma recv_chunks_bounded fuel inbox :
  Forall (fun buf => length buf <= 1024) (recv_chunks fuel inbox).
Proof.
  revert inbox. induction fuel as [|fuel IH]; intros inbox; simpl; [done|].
  destruct (recv_inbox _ _) as [[|c buf] q|e q|q|] eqn:Hr; try done.
  - constructor; [simpl; lia | constructor].
  - constructor; [by eapply recv_inbox_length | apply IH].
Qed.

End RecvLoop.

(** ** The payload *)

Section Extract.
Implicit Types (w : World) (data hdr payload : bytes).

Lemma CRLFCRLF_length : length CRLFCRLF = 4.
Proof. reflexivity. Qed.

Lemma request_length : length request = 61.
Proof. reflexivity. Qed.

Lemma extract_binary_find data w :
  extract_binary data w =
  match find data CRLFCRLF with
  | Some i => Done (drop (i + 4) data) w
  | None => Raised ValueError w
  end.
Proof. unfold extract_binary, index, bind. by destruct (find _ _). Qed.

(** C3: the payload of a reply is exactly what follows its first CRLF
    CRLF, whatever follows: later separators belong to the payload. *)
Theorem extract_binary_first hdr payload w :
  (forall j, j < length hdr ->
             ~ occurs_at CRLFCRLF (hdr ++ CRLFCRLF ++ payload) j) ->
  extract_binary (hdr ++ CRLFCRLF ++ payload) w = Done payload w.
Proof.
  intros Hmin. rewrite extract_binary_find, (find_app_first _ _ _ Hmin).
  f_equal. rewrite app_assoc. apply drop_app_length'.
  by rewrite length_app, CRLFCRLF_length.
Qed.

(** C28: when the extraction returns, the reply is a header free of the
    separator, the separator, and the payload returned; the world is
    left as it was. *)
Theorem extract_binary_Done data payload w w' :
  extract_binary data w = Done payload w' ->
  w' = w /\
  exists hdr, data = hdr ++ CRLFCRLF ++ payload /\
    forall j, j < length hdr -> ~ occurs_at CRLFCRLF data j.
Proof.
  rewrite extract_binary_find. destruct (find _ _) as [i|] eqn:Hf; [|done].
  intros [= <- <-]. split; [done|]. exists (take i data).
  pose proof (find_occurs _ _ _ Hf) as [Hi [post Hpost]].
  rewrite length_take, Nat.min_l by done.
  split; [|intros j Hj; by eapply find_minimal].
  rewrite <- (take_drop i data) at 1. f_equal.
  by rewrite <- drop_drop, Hpost, (drop_app_length' CRLFCRLF post 4).
Qed.

(** C29: a reply without CRLF CRLF raises [ValueError], and only such a
    reply does; nothing is returned in its place. *)
Theorem extract_binary_absent data w :
  (forall j, ~ occurs_at CRLFCRLF data j) <->
  extract_binary data w = Raised ValueError w.
Proof.
  rewrite extract_binary_find, <- find_None.
  by destruct (find _ _).
Qed.

End Extract.

(** ** The whole phase *)

Section Fetch.
Implicit Types (w : World).

(** The phase up to [send], on a server that accepts. *)
Lemma fetch_send fuel w :
  net_up (net w) = true ->
  fetch fuel w =
  (sock_send request ;; data <- recv_loop fuel ;; extract_binary data)
    (logs (take 5 (fetch_calls 0)) (connected_to w)).
Proof.
  intros Hup. unfold fetch.
  io_exec by apply socket_socket_run.
  io_exec by apply print_run.
  io_exec by (by apply sock_connect_up).
  do 2 io_exec by apply print_run.
  by world_norm.
Qed.

Lemma fetch_request fuel w :
  net_up (net w) = true -> 0 < net_room (net w) ->
  fetch fuel w =
  (data <- recv_loop fuel ;; extract_binary data) (requested w).
Proof.
  intros Hup Hroom. rewrite fetch_send by done.
  io_exec by (by apply sock_send_connected; [eexists|..]).
  by world_norm.
Qed.

(** More fuel for the loop does not change a run that has ended. *)
Lemma fetch_extends n m : n <= m -> extends (fetch n) (fetch m).
Proof. intros Hle. unfold fetch, recv_loop. eauto 12 with io. Qed.

(** The phase on a server that accepts: the request, then the loop. *)
Lemma fetch_run fuel w :
  net_up (net w) = true -> 0 < net_room (net w) -> recv_fuel w <= fuel ->
  fetch fuel w =
  match inbox_rest (net_inbox (net w)) with
  | Fin :: q =>
      extract_binary (inbox_data (net_inbox (net w)))
        (received fuel (Fin :: q) (requested w))
  | Rst :: q => Raised SocketError (received fuel q (requested w))
  | Sigint :: q => Raised KeyboardInterrupt (received fuel q (requested w))
  | _ => Blocked (received fuel [] (requested w))
  end.
Proof.
  intros Hup Hroom Hfuel. rewrite fetch_request by done.
  unfold recv_loop, bind. rewrite recv_while; [|by eexists|done|exact Hfuel].
  unfold recv_result. simpl. by destruct (inbox_rest _) as [|[| | |] ?].
Qed.

(** C8: when the peer sends its reply and closes, [fetch] returns what
    [extract_binary] makes of the whole reply, whatever the segments. *)
Theorem fetch_closed fuel w q :
  net_up (net w) = true -> 0 < net_room (net w) ->
  inbox_rest (net_inbox (net w)) = Fin :: q ->
  recv_fuel w <= fuel ->
  fetch fuel w =
  extract_binary (inbox_data (net_inbox (net w)))
    (received fuel (Fin :: q) (requested w)).
Proof.
  intros Hup Hroom Hrest Hfuel. by rewrite fetch_run, Hrest.
Qed.

(** A server that refuses the connection ends the phase with a socket
    error after the first progress line. *)
Lemma fetch_refused fuel w :
  net_up (net w) = false ->
  fetch fuel w =
  Raised SocketError
    (logs (take 2 (fetch_calls 0)) (set_net (set_net_peer None (net w)) w)).
Proof.
  intros Hup. unfold fetch. io_exec by apply socket_socket_run.
  io_exec by apply print_run.
  erewrite bind_raised by (by apply sock_connect_down). by world_norm.
Qed.

(** A send buffer that stays full blocks the script in [send]. *)
Lemma fetch_send_blocked fuel w :
  net_up (net w) = true -> net_room (net w) = 0 ->
  fetch fuel w = Blocked (logs (take 5 (fetch_calls 0)) (connected_to w)).
Proof.
  intros Hup Hroom. rewrite fetch_send by done.
  by apply bind_blocked, sock_send_full; [eexists|..].
Qed.

(** A peer that never closes blocks the script for ever in [recv]. *)
Lemma fetch_silent fuel w :
  net_up (net w) = true -> 0 < net_room (net w) ->
  inbox_rest (net_inbox (net w)) = [] ->
  recv_fuel w <= fuel ->
  fetch fuel w = Blocked (received fuel [] (requested w)).
Proof.
  intros Hup Hroom Hrest Hfuel. by rewrite fetch_run, Hrest.
Qed.

(** A connection reset while the reply is read raises a socket error. *)
Lemma fetch_reset fuel w q :
  net_up (net w) = true -> 0 < net_room (net w) ->
  inbox_rest (net_inbox (net w)) = Rst :: q ->
  recv_fuel w <= fuel ->
  fetch fuel w = Raised SocketError (received fuel q (requested w)).
Proof.
  intros Hup Hroom Hrest Hfuel. by rewrite fetch_run, Hrest.
Qed.

(** C23: the script calls [send] once and drops the count it returns:
    the peer is passed the bytes of the request the send buffer has
    room for, and the rest is never sent.  However the phase ends
    after the call, the peer has the whole request only when there was
    room for its 61 bytes. *)
Theorem fetch_sends_once fuel w w' :
  net_up (net w) = true -> 0 < net_room (net w) -> recv_fuel w <= fuel ->
  final_world (fetch fuel w) = Some w' ->
  sent w' = sent w ++ [take (net_room (net w)) request] /\
  (take (net_room (net w)) request = request <->
   length request <= net_room (net w)).
Proof.
  intros Hup Hroom Hfuel Hw'. split.
  - assert (exists q, w' = received fuel q (requested w)) as [q ->].
    { rewrite fetch_run in Hw' by done. revert Hw'.
      destruct (inbox_rest _) as [|[| | |] ?]; rewrite ?extract_binary_find;
        repeat case_match; intros [= <-]; eauto. }
    unfold received, requested. world_rw.
    rewrite sent_logs, omap_app, omap_recv by done. simpl.
    unfold request_sent. by rewrite take_length_min.
  - split; [intros Ht; rewrite <- Ht at 1; rewrite length_take; lia|].
    apply take_ge.
Qed.

(** Ctrl-C while the reply is read ends the phase with
    [KeyboardInterrupt]: no [try] covers the receive loop. *)
Lemma fetch_interrupted fuel w q :
  net_up (net w) = true -> 0 < net_room (net w) ->
  inbox_rest (net_inbox (net w)) = Sigint :: q ->
  recv_fuel w <= fuel ->
  fetch fuel w = Raised KeyboardInterrupt (received fuel q (requested w)).
Proof.
  intros Hup Hroom Hrest Hfuel. by rewrite fetch_run, Hrest.
Qed.

End Fetch.

(** ** Concrete runs *)

(** A reply whose separator is cut by the segmentation, with a second
    separator inside the payload. *)
Definition demo_reply : list net_event :=
  [Seg (lit "HTTP/1.0 200 OK" ++ ["013"; "010"]%char);
   Seg (["013"; "010"]%char ++ lit "ubx");
   Seg (CRLFCRLF ++ lit "!"); Fin].

Definition demo_world (up : bool) (inbox : list net_event) : World :=
  mkWorld (mkNet up None inbox 4096) (mkSerial true None [] []) [].

Lemma extract_binary_first_witness :
  extract_binary
    (lit "HTTP/1.0 200 OK" ++ CRLFCRLF ++ lit "ubx" ++ CRLFCRLF ++ lit "!")
    (demo_world true []) =
  Done (lit "ubx" ++ CRLFCRLF ++ lit "!") (demo_world true []).
Proof.
  apply (extract_binary_first (lit "HTTP/1.0 200 OK")).
  intros j Hj. eapply find_minimal; [vm_compute; reflexivity | exact Hj].
Defined.

Lemma extract_binary_Done_witness :
  demo_world true [] = demo_world true [] /\
  exists hdr,
    lit "a" ++ CRLFCRLF ++ lit "b" = hdr ++ CRLFCRLF ++ lit "b" /\
    forall j, j < length hdr ->
              ~ occurs_at CRLFCRLF (lit "a" ++ CRLFCRLF ++ lit "b") j.
Proof.
  apply (extract_binary_Done _ (lit "b") (demo_world true [])). reflexivity.
Defined.

Lemma fetch_closed_witness :
  fetch 64 (demo_world true demo_reply) =
  Done (lit "ubx" ++ CRLFCRLF ++ lit "!")
       (received 64 [Fin] (requested (demo_world true demo_reply))).
Proof.
  rewrite (fetch_closed 64 _ []);
    [reflexivity | reflexivity | vm_compute; lia | reflexivity
    | vm_compute; lia].
Defined.

(** The peer of [demo_reply], with room for nine bytes of the request. *)
Definition demo_narrow : World :=
  mkWorld (mkNet true None demo_reply 9) (mkSerial true None [] []) [].

Lemma fetch_sends_once_witness :
  sent (end_world demo_narrow (fetch 64 demo_narrow)) =
  sent demo_narrow ++ [take 9 request] /\
  (take 9 request = request <-> length request <= 9).
Proof.
  apply (fetch_sends_once 64 demo_narrow);
    [reflexivity | vm_compute; lia.. | vm_compute; reflexivity].
Defined.

(** The fetcher takes no notice: it reads the reply and returns its
    payload after nine bytes of the request. *)
Example fetch_narrow_demo :
  fetch 64 demo_narrow =
  Done (lit "ubx" ++ CRLFCRLF ++ lit "!")
    (received 64 [Fin] (requested demo_narrow)) /\
  sent (received 64 [Fin] (requested demo_narrow)) = [lit "cmd=full;"].
Proof. split; vm_compute; reflexivity. Qed.

Example fetch_refused_demo :
  fetch 0 (demo_world false demo_reply) =
  Raised SocketError
    (logs [CSocket; CPrint (lit "Connecting to u-blox")]
       (demo_world false demo_reply)).
Proof. apply (fetch_refused 0 (demo_world false demo_reply)). reflexivity. Defined.

Example fetch_silent_demo :
  fetch 8 (demo_world true [Seg (lit "HTTP")]) =
  Blocked (received 8 [] (requested (demo_world true [Seg (lit "HTTP")]))).
Proof.
  apply (fetch_silent 8 (demo_world true [Seg (lit "HTTP")]));
    [reflexivity | vm_compute; lia | reflexivity | vm_compute; lia].
Defined.

Example fetch_reset_demo :
  fetch 8 (demo_world true [Seg (lit "HTTP"); Rst; Fin]) =
  Raised SocketError
    (received 8 [Fin] (requested (demo_world true [Seg (lit "HTTP"); Rst; Fin]))).
Proof.
  apply (fetch_reset 8 (demo_world true [Seg (lit "HTTP"); Rst; Fin]));
    [reflexivity | vm_compute; lia | reflexivity | vm_compute; lia].
Defined.
