(* ===== verification/Uplink.v ===== *)
(** * The uplink: lines 26-35 of [agps.py]

    [uplink] opens the serial device, drains its input buffer by
    polling ([drain_loop]) and writes the payload in one call.  The
    theorems give the calls the drain makes and the state it leaves the
    line in for every behaviour of the line ([drain_while]), relate the
    polls to the bytes discarded, and give the outcome of the phase. *)

From Stdlib Require Import Ascii.
From Stdlib Require String.
From stdpp Require Import list strings.
From S2P Require Import Prelude Python Env.

Local Open Scope io_scope.

(** ** The program *)

Definition device : bytes := lit "/dev/ttyAMA0".
Definition baud : N := 9600.

(** Lines 30-31: one iteration of the drain. *)
Definition drain_body (drainer : pyval) : prog pyval :=
  n <- inWaiting ;;
  ser_read n ;;
  ret (PyInt n).

(** Lines 28-31: [drainer = True; while drainer: ...] *)
Definition drain_loop (fuel : nat) : prog pyval :=
  while fuel truthy drain_body (PyBool true).

(** Lines 26-35. *)
Definition uplink (fuel : nat) (binary : bytes) : prog unit :=
  serial_open device baud ;;
  print (lit "Waiting for free line") ;;
  drain_loop fuel ;;
  print (lit "Writing AGPS data") ;;
  ser_write binary ;;
  print (lit "Done").

(** ** What the drain does to the line *)

(** The calls of the drain on a line with [rx] buffered and [feed] to
    come: each poll is followed by the read of what it counted, the
    last poll counts nothing. *)
Fixpoint drain_calls (rx : bytes) (feed : list ser_event) : list call :=
  match feed with
  | [] =>
      match rx with
      | [] => [CPoll 0; CRead []]
      | _ => [CPoll (length rx); CRead rx; CPoll 0; CRead []]
      end
  | Arrive bs :: f =>
      match rx ++ bs with
      | [] => [CPoll 0; CRead []]
      | l => CPoll (length l) :: CRead l :: drain_calls [] f
      end
  | _ => []
  end.

(** How the drain ends and the line it leaves. *)
Fixpoint drain_end (rx : bytes) (feed : list ser_event)
  : outcome (bytes * list ser_event) exn pyval :=
  match feed with
  | [] => Done (PyInt 0) ([], [])
  | Arrive bs :: f =>
      match rx ++ bs with
      | [] => Done (PyInt 0) ([], f)
      | _ => drain_end [] f
      end
  | Interrupt :: f => Raised KeyboardInterrupt (rx, f)
  | Fault :: f => Raised SerialException (rx, f)
  end.

(** The bytes the drain throws away. *)
Fixpoint drained (rx : bytes) (feed : list ser_event) : bytes :=
  match feed with
  | [] => rx
  | Arrive bs :: f =>
      match rx ++ bs with
      | [] => []
      | l => l ++ drained [] f
      end
  | _ => []
  end.

(** A bound on the iterations of the drain: one per event of the line,
    one more when bytes are buffered already. *)
Definition line_weight (rx : bytes) (feed : list ser_event) : nat :=
  length feed + match rx with [] => 0 | _ => 1 end.

Definition drain_fuel (w : World) : nat :=
  S (line_weight (ser_rx (ser w)) (ser_feed (ser w))).

(** The outcome of the drain on the world [w]. *)
Definition drain_result (w : World) : outcome World exn pyval :=
  let rx := ser_rx (ser w) in
  let feed := ser_feed (ser w) in
  match drain_end rx feed with
  | Done d l => Done d (logs (drain_calls rx feed) (set_line l w))
  | Raised e l => Raised e (logs (drain_calls rx feed) (set_line l w))
  | Blocked l => Blocked (logs (drain_calls rx feed) (set_line l w))
  | OutOfFuel => OutOfFuel
  end.

(** The calls of [uplink] around the drain. *)
Definition uplink_open_calls : list call :=
  [COpen device baud; CPrint (lit "Waiting for free line")].

Definition uplink_write_calls (binary : bytes) : list call :=
  [CPrint (lit "Writing AGPS data"); CWrite binary; CPrint (lit "Done")].

(** The world after the device was opened. *)
Definition opened (w : World) : World :=
  logs uplink_open_calls
    (set_ser (set_ser_port (Some (device, baud)) (ser w)) w).

(** ** One iteration *)

Section Drain.
Implicit Types (w : World) (rx : bytes) (feed : list ser_event) (d : pyval).

(** One iteration moves the line on by one event and empties the buffer. *)
Lemma drain_body_open d w :
  port_open w ->
  drain_body d w =
  let rx := ser_rx (ser w) in
  match ser_feed (ser w) with
  | [] =>
      Done (PyInt (length rx))
        (logs [CPoll (length rx); CRead rx] (set_line ([], []) w))
  | Arrive bs :: f =>
      Done (PyInt (length (rx ++ bs)))
        (logs [CPoll (length (rx ++ bs)); CRead (rx ++ bs)] (set_line ([], f) w))
  | Interrupt :: f => Raised KeyboardInterrupt (set_line (rx, f) w)
  | Fault :: f => Raised SerialException (set_line (rx, f) w)
  end.
Proof.
  intros Ho. unfold drain_body, bind. rewrite inWaiting_open by done.
  destruct (ser_feed (ser w)) as [|[bs| |] f]; simpl; try done;
    rewrite ser_read_open by done; simpl; rewrite line_await_all;
    by world_norm.
Qed.

(** The drain, for every line. *)
Lemma drain_while fuel d w :
  port_open w -> truthy d = true ->
  line_weight (ser_rx (ser w)) (ser_feed (ser w)) < fuel ->
  while fuel truthy drain_body d w = drain_result w.
Proof.
  revert d w. induction fuel as [|fuel IH]; intros d w Ho Hd Hfuel; [lia|].
  rewrite while_unfold, Hd. unfold bind. rewrite drain_body_open by done.
  unfold drain_result, line_weight in *.
  destruct (ser_feed (ser w)) as [|[bs| |] f] eqn:Hfeed; simpl in *.
  - destruct (ser_rx (ser w)) as [|c rx] eqn:Hrx; [by rewrite while_exit|].
    rewrite IH; [|done..|simpl; lia]. unfold drain_result. simpl.
    by world_norm.
  - destruct (ser_rx (ser w) ++ bs) as [|c l] eqn:Hl; [by rewrite while_exit|].
    rewrite IH; [|done..|simpl; lia]. unfold drain_result. simpl.
    by destruct (drain_end [] f); world_norm.
  - by world_norm.
  - by world_norm.
Qed.

End Drain.

(** ** The drain loop *)

Section DrainLoop.
Implicit Types (w : World) (rx : bytes) (feed : list ser_event) (d : pyval)
  (cs : list call).

Lemma drain_calls_reads rx feed :
  concat (omap read_data (drain_calls rx feed)) = drained rx feed.
Proof.
  revert rx. induction feed as [|[bs| |] f IH]; intros rx; simpl; try done.
  - destruct rx; simpl; by rewrite ?app_nil_r.
  - destruct (rx ++ bs); simpl; [done | by rewrite IH].
Qed.

Lemma drain_calls_polls rx feed :
  sum_list (omap polled (drain_calls rx feed)) = length (drained rx feed).
Proof.
  revert rx. induction feed as [|[bs| |] f IH]; intros rx; simpl; try done.
  - destruct rx; simpl; lia.
  - destruct (rx ++ bs); simpl; [done | rewrite IH, length_app; lia].
Qed.

(** The polls of a drain that ends are positive but for the last. *)
Lemma drain_calls_last_zero rx feed d l :
  drain_end rx feed = Done d l ->
  d = PyInt 0 /\ l.1 = [] /\
  exists nz, omap polled (drain_calls rx feed) = nz ++ [0] /\
             Forall (fun n => n <> 0) nz.
Proof.
  revert rx. induction feed as [|[bs| |] f IH]; intros rx; simpl; try done.
  - intros [= <- <-]. repeat split. destruct rx as [|c rx]; simpl.
    + by exists [].
    + exists [S (length rx)]. by repeat constructor.
  - destruct (rx ++ bs) as [|c k] eqn:Hk.
    + intros [= <- <-]. repeat split. by exists [].
    + intros (-> & ? & nz & Hp & Hnz)%IH. repeat split; [done|].
      exists (length (c :: k) :: nz).
      split; [simpl; f_equal; apply Hp | by constructor].
Qed.

Lemma drain_calls_no_write rx feed :
  omap written_data (drain_calls rx feed) = [].
Proof.
  revert rx. induction feed as [|[bs| |] f IH]; intros rx; simpl; try done.
  - by destruct rx.
  - destruct (rx ++ bs); simpl; [done | apply IH].
Qed.

Lemma drain_calls_no_close rx feed : CClose ∉ drain_calls rx feed.
Proof.
  revert rx. induction feed as [|[bs| |] f IH]; intros rx; simpl;
    try apply not_elem_of_nil.
  - destruct rx; rewrite !not_elem_of_cons; repeat split; try done;
      apply not_elem_of_nil.
  - destruct (rx ++ bs); rewrite !not_elem_of_cons; repeat split; try done.
    apply not_elem_of_nil.
Qed.

Lemma drain_calls_no_print rx feed :
  omap printed (drain_calls rx feed) = [].
Proof.
  revert rx. induction feed as [|[bs| |] f IH]; intros rx; simpl; try done.
  - by destruct rx.
  - destruct (rx ++ bs); simpl; [done | apply IH].
Qed.

Lemma drain_end_raised rx feed e l :
  drain_end rx feed = Raised e l ->
  e = KeyboardInterrupt \/ e = SerialException.
Proof.
  revert rx. induction feed as [|[bs| |] f IH]; intros rx; simpl; try done.
  - destruct (rx ++ bs); [done | apply IH].
  - intros [= <- _]. by left.
  - intros [= <- _]. by right.
Qed.

(** What the drain leaves on the line is the end of its stream. *)
Lemma drain_end_stream rx feed d l :
  drain_end rx feed = Done d l ->
  exists pre, line_arrivals feed = pre ++ line_arrivals l.2.
Proof.
  revert rx. induction feed as [|[bs| |] f IH]; intros rx; simpl; try done.
  - intros [= _ <-]. by exists [].
  - destruct (rx ++ bs).
    + intros [= _ <-]. by exists bs.
    + intros (pre & ->)%IH. exists (bs ++ pre). by rewrite app_assoc.
Qed.

Lemma drain_end_finished rx feed : finished (drain_end rx feed) = true.
Proof.
  revert rx. induction feed as [|[bs| |] f IH]; intros rx; simpl; try done.
  by destruct (rx ++ bs).
Qed.

(** With the fuel [drain_fuel] the drain loop is the function
    [drain_result] of the line: it polls once per event of the line
    until a poll counts nothing, or until the line interrupts or fails. *)
Lemma drain_loop_result fuel w :
  port_open w -> drain_fuel w <= fuel -> drain_loop fuel w = drain_result w.
Proof. intros Ho Hfuel. by apply drain_while. Qed.

(** C32: the drain loop ends within [drain_fuel] iterations. *)
Theorem drain_loop_terminates fuel w :
  port_open w -> drain_fuel w <= fuel -> finished (drain_loop fuel w) = true.
Proof.
  intros Ho Hfuel. rewrite drain_loop_result by done. unfold drain_result.
  pose proof (drain_end_finished (ser_rx (ser w)) (ser_feed (ser w))).
  by destruct (drain_end _ _).
Qed.

(** C4: when the drain ends, the bytes it has read away are as many as
    its polls counted, the last poll counted none, and the buffer is
    empty. *)
Theorem drain_discards_polled fuel w d w' :
  port_open w -> drain_fuel w <= fuel ->
  drain_loop fuel w = Done d w' ->
  d = PyInt 0 /\ ser_rx (ser w') = [] /\
  exists cs nz,
    trace w' = trace w ++ cs /\
    omap polled cs = nz ++ [0] /\ Forall (fun n => n <> 0) nz /\
    sum_list nz = length (concat (omap read_data cs)).
Proof.
  intros Ho Hfuel. rewrite drain_loop_result by done. unfold drain_result.
  destruct (drain_end _ _) as [d' l| | |] eqn:Hend; try done.
  intros [= <- <-]. apply drain_calls_last_zero in Hend as (-> & Hl & nz & Hp & Hnz).
  repeat split; [done|]. eexists _, nz. repeat split; [done..|].
  rewrite drain_calls_reads, <- drain_calls_polls, Hp, sum_list_with_app.
  simpl. lia.
Qed.

(** C33: the drain stops at the first poll that finds the buffer empty,
    whatever the line sends afterwards. *)
Theorem drain_stops_at_quiet_poll fuel w f :
  port_open w -> 0 < fuel ->
  ser_rx (ser w) = [] -> ser_feed (ser w) = Arrive [] :: f ->
  drain_loop fuel w =
  Done (PyInt 0) (logs [CPoll 0; CRead []] (set_line ([], f) w)).
Proof.
  intros Ho Hfuel Hrx Hfeed. destruct fuel as [|fuel]; [lia|].
  unfold drain_loop. rewrite while_unfold. simpl. unfold bind.
  rewrite drain_body_open by done. rewrite Hfeed, Hrx. simpl.
  by rewrite while_exit.
Qed.

End DrainLoop.

(** ** The whole phase *)

Section Uplink.
Implicit Types (w : World) (binary : bytes).

(** More fuel for the loop does not change a run that has ended. *)
Lemma uplink_extends n m binary : n <= m -> extends (uplink n binary) (uplink m binary).
Proof. intros Hle. unfold uplink, drain_loop. eauto 12 with io. Qed.

(** The outcome of the phase on the world [w]. *)
Lemma uplink_present fuel binary w :
  ser_present (ser w) = true -> drain_fuel w <= fuel ->
  uplink fuel binary w =
  let rx := ser_rx (ser w) in
  let feed := ser_feed (ser w) in
  match drain_end rx feed with
  | Done _ l =>
      Done tt (logs (drain_calls rx feed ++ uplink_write_calls binary)
                 (set_line l (opened w)))
  | Raised e l => Raised e (logs (drain_calls rx feed) (set_line l (opened w)))
  | Blocked l => Blocked (logs (drain_calls rx feed) (set_line l (opened w)))
  | OutOfFuel => OutOfFuel
  end.
Proof.
  intros Hp Hfuel. unfold uplink.
  io_exec by (by apply serial_open_present).
  io_exec by apply print_run.
  unfold bind at 1. rewrite drain_loop_result; [|by eexists|done].
  unfold drain_result. simpl.
  destruct (drain_end _ _) as [d l|e l|l|]; try by (unfold opened; world_norm).
  io_exec by apply print_run.
  io_exec by (apply ser_write_open; by eexists).
  rewrite print_run. unfold opened, uplink_write_calls. by world_norm.
Qed.

(** C18: when the phase completes, the payload has been written to the
    line in one call, after the drain, and nothing else was written. *)
Theorem uplink_writes_once fuel binary w w' :
  ser_present (ser w) = true -> drain_fuel w <= fuel ->
  uplink fuel binary w = Done tt w' ->
  written w' = written w ++ [binary] /\
  exists cs, trace w' =
             trace w ++ uplink_open_calls ++ cs ++ uplink_write_calls binary /\
             omap written_data cs = [].
Proof.
  intros Hp Hfuel. rewrite uplink_present by done. simpl.
  destruct (drain_end _ _) as [d l| | |]; try done. intros [= <-].
  assert (omap written_data (drain_calls (ser_rx (ser w)) (ser_feed (ser w))) = [])
    as Hw by apply drain_calls_no_write.
  split.
  - unfold opened. world_rw. by rewrite written_logs, !omap_app, Hw.
  - eexists. split; [|exact Hw]. unfold opened. simpl. by rewrite <- !app_assoc.
Qed.

(** A device that cannot be opened raises [SerialException]; the
    payload is dropped and nothing is printed. *)
Lemma uplink_absent fuel binary w :
  ser_present (ser w) = false ->
  uplink fuel binary w = Raised SerialException w.
Proof. intros Hp. by apply bind_raised, serial_open_absent. Qed.

(** C39: an interrupt or a device fault during the drain ends the phase
    with the port still open and nothing written. *)
Theorem uplink_raised_open fuel binary w e w' :
  ser_present (ser w) = true -> drain_fuel w <= fuel ->
  uplink fuel binary w = Raised e w' ->
  port_open w' /\ written w' = written w /\
  (e = KeyboardInterrupt \/ e = SerialException).
Proof.
  intros Hp Hfuel. rewrite uplink_present by done. simpl.
  pose proof (drain_end_raised (ser_rx (ser w)) (ser_feed (ser w))) as He.
  destruct (drain_end _ _) as [d l|e' l| |]; try done. intros [= <- <-].
  split; [by eexists|]. split; [|by eapply He].
  unfold opened. world_rw.
  rewrite written_logs, !omap_app, drain_calls_no_write. simpl.
  by rewrite app_nil_r.
Qed.

End Uplink.

(** ** Concrete runs *)

(** An open port with [rx] buffered and [feed] to come. *)
Definition demo_line (rx : bytes) (feed : list ser_event) : World :=
  mkWorld (mkNet true None [] 4096) (mkSerial true (Some (device, baud)) rx feed) [].

(** A port not yet opened. *)
Definition demo_port (present : bool) (rx : bytes) (feed : list ser_event)
  : World :=
  mkWorld (mkNet true None [] 4096) (mkSerial present None rx feed) [].

(** Stale bytes, more of them at the first poll, a quiet second poll,
    and bytes that arrive after the drain. *)
Definition demo_feed : list ser_event :=
  [Arrive (lit "junk"); Arrive []; Arrive (lit "late")].

Example drain_loop_result_demo :
  drain_loop 8 (demo_line (lit "old") demo_feed) =
  Done (PyInt 0)
    (logs [CPoll 7; CRead (lit "oldjunk"); CPoll 0; CRead []]
       (set_line ([], [Arrive (lit "late")]) (demo_line (lit "old") demo_feed))).
Proof.
  rewrite (drain_loop_result 8 (demo_line (lit "old") demo_feed));
    [reflexivity | eexists; reflexivity | vm_compute; lia].
Defined.

Lemma drain_loop_terminates_witness :
  finished (drain_loop 8 (demo_line (lit "old") demo_feed)) = true.
Proof.
  apply (drain_loop_terminates 8 (demo_line (lit "old") demo_feed));
    [eexists; reflexivity | vm_compute; lia].
Defined.

Lemma drain_discards_polled_witness :
  PyInt 0 = PyInt 0 /\
  ser_rx (ser (set_line ([], [Arrive (lit "late")])
                 (demo_line (lit "old") demo_feed))) = [] /\
  exists cs nz,
    [CPoll 7; CRead (lit "oldjunk"); CPoll 0; CRead []] = [] ++ cs /\
    omap polled cs = nz ++ [0] /\ Forall (fun n => n <> 0) nz /\
    sum_list nz = length (concat (omap read_data cs)).
Proof.
  apply (drain_discards_polled 8 (demo_line (lit "old") demo_feed) (PyInt 0)
           (logs [CPoll 7; CRead (lit "oldjunk"); CPoll 0; CRead []]
              (set_line ([], [Arrive (lit "late")])
                 (demo_line (lit "old") demo_feed))));
    [eexists; reflexivity | vm_compute; lia | vm_compute; reflexivity].
Defined.

Lemma drain_stops_at_quiet_poll_witness :
  drain_loop 1 (demo_line [] [Arrive []; Arrive (lit "late")]) =
  Done (PyInt 0)
    (logs [CPoll 0; CRead []]
       (set_line ([], [Arrive (lit "late")])
          (demo_line [] [Arrive []; Arrive (lit "late")]))).
Proof.
  apply (drain_stops_at_quiet_poll 1
           (demo_line [] [Arrive []; Arrive (lit "late")]) [Arrive (lit "late")]);
    [eexists; reflexivity | lia | reflexivity | reflexivity].
Defined.

Lemma uplink_writes_once_witness :
  written (logs (drain_calls (lit "old") demo_feed ++ uplink_write_calls (lit "ubx"))
             (set_line ([], [Arrive (lit "late")])
                (opened (demo_port true (lit "old") demo_feed)))) =
  written (demo_port true (lit "old") demo_feed) ++ [lit "ubx"] /\
  exists cs,
    trace (logs (drain_calls (lit "old") demo_feed ++ uplink_write_calls (lit "ubx"))
             (set_line ([], [Arrive (lit "late")])
                (opened (demo_port true (lit "old") demo_feed)))) =
    trace (demo_port true (lit "old") demo_feed) ++
    uplink_open_calls ++ cs ++ uplink_write_calls (lit "ubx") /\
    omap written_data cs = [].
Proof.
  apply (uplink_writes_once 8 (lit "ubx") (demo_port true (lit "old") demo_feed));
    [reflexivity | vm_compute; lia | vm_compute; reflexivity].
Defined.

Example uplink_absent_demo :
  uplink 8 (lit "ubx") (demo_port false [] demo_feed) =
  Raised SerialException (demo_port false [] demo_feed).
Proof. apply (uplink_absent 8 (lit "ubx") (demo_port false [] demo_feed)). reflexivity. Defined.

Lemma uplink_raised_open_witness :
  port_open (logs [CPoll 4; CRead (lit "junk")]
               (set_line ([], [Arrive (lit "late")])
                  (opened (demo_port true [] [Arrive (lit "junk"); Interrupt;
                                                Arrive (lit "late")])))) /\
  written (logs [CPoll 4; CRead (lit "junk")]
             (set_line ([], [Arrive (lit "late")])
                (opened (demo_port true [] [Arrive (lit "junk"); Interrupt;
                                              Arrive (lit "late")])))) =
  written (demo_port true [] [Arrive (lit "junk"); Interrupt; Arrive (lit "late")]) /\
  (KeyboardInterrupt = KeyboardInterrupt \/ KeyboardInterrupt = SerialException).
Proof.
  apply (uplink_raised_open 8 (lit "ubx")
           (demo_port true [] [Arrive (lit "junk"); Interrupt; Arrive (lit "late")]));
    [reflexivity | vm_compute; lia | vm_compute; reflexivity].
Defined.
