(* ===== verification/Relay.v ===== *)
(** * The relay: lines 37-48 of [agps.py]

    [relay] reads the serial line one byte at a time.  A [$] ends the
    message collected so far, which is printed, stripped, when it starts
    with [$GPGGA], and starts the next message.  [KeyboardInterrupt]
    ends the loop and closes the port.  The theorems give the calls of
    the loop for every line ([relay_while]), show that what is printed
    are the [$GPGGA] frames of the stream as an independent splitting
    function defines them ([relay_prints_frames]) and as any cut of the
    stream at its [$]s gives them ([relay_prints_cut]), that the
    message buffer is the last frame of what was read
    ([reach_message]) and is bounded by nothing else
    ([message_bounded]), and how the phase ends. *)

From Stdlib Require Import Ascii.
From Stdlib Require String.
From stdpp Require Import list strings.
From S2P Require Import Prelude Python Env.

Local Open Scope io_scope.

(** ** The program *)

(** The variables of the relay loop. *)
Record relay_state : Type := mkRelay {
  buffer : pyval;
  message : bytes
}.

(** Lines 41-46: one iteration. *)
Definition relay_body (st : relay_state) : prog relay_state :=
  buf <- ser_read 1 ;;
  message1 <-
    (if py_eq_str (PyStr buf) (lit "$") then
       (if startswith (message st) (lit "$GPGGA")
        then print (strip (message st)) else ret tt) ;;
       ret []
     else ret (message st)) ;;
  ret (mkRelay (PyStr buf) (message1 ++ buf)).

(** Lines 37-46: [buffer = True; message = ""; while buffer: ...] *)
Definition relay_loop (fuel : nat) : prog relay_state :=
  while fuel (fun st => truthy (buffer st)) relay_body
    (mkRelay (PyBool true) []).

(** [except KeyboardInterrupt] *)
Definition is_interrupt (e : exn) : bool :=
  match e with KeyboardInterrupt => true | _ => false end.

(** Lines 37-48. *)
Definition relay (fuel : nat) : prog unit :=
  try_except (relay_loop fuel ;; ret tt) is_interrupt ser_close.

(** ** Framing, as a function of the stream *)

Definition is_dollar (c : ascii) : bool := Ascii.eqb c "$"%char.

(** The line a [$] makes the loop print, if any. *)
Definition frame_line (msg : bytes) : list call :=
  if startswith msg (lit "$GPGGA") then [CPrint (strip msg)] else [].

(** The calls of the loop on the bytes [stream], from the message [msg]. *)
Fixpoint relay_calls (msg stream : bytes) : list call :=
  match stream with
  | [] => []
  | c :: s =>
      CRead [c] ::
      (if is_dollar c then frame_line msg ++ relay_calls [c] s
       else relay_calls (msg ++ [c]) s)
  end.

(** The message buffer after the bytes [stream]. *)
Fixpoint relay_message (msg stream : bytes) : bytes :=
  match stream with
  | [] => msg
  | c :: s =>
      if is_dollar c then relay_message [c] s else relay_message (msg ++ [c]) s
  end.

(** *** The reference: cutting the stream at every [$] *)

(** The stream cut before each [$]: the bytes before the first [$], and
    the pieces that follow, each from a [$] to the next. *)
Fixpoint split_dollar (s : bytes) : bytes * list bytes :=
  match s with
  | [] => ([], [])
  | c :: s' =>
      let '(seg, segs) := split_dollar s' in
      if is_dollar c then ([], (c :: seg) :: segs) else (c :: seg, segs)
  end.

(** Of the frames [f :: fs], those that are complete (all but the
    last), and the one still open (the last). *)
Fixpoint complete_frames (f : bytes) (fs : list bytes) : list bytes :=
  match fs with
  | [] => []
  | g :: gs => f :: complete_frames g gs
  end.

Fixpoint open_frame (f : bytes) (fs : list bytes) : bytes :=
  match fs with
  | [] => f
  | g :: gs => open_frame g gs
  end.

(** The line a complete frame gives on the console. *)
Definition gpgga_line (f : bytes) : option bytes :=
  if startswith f (lit "$GPGGA") then Some (strip f) else None.

(** The lines of a stream: its complete [$GPGGA] frames, stripped. *)
Definition gpgga_lines (msg stream : bytes) : list bytes :=
  let '(seg, segs) := split_dollar stream in
  omap gpgga_line (complete_frames (msg ++ seg) segs).

(** A cut of a stream at its [$]s: a first piece without [$], and
    pieces that start with their only [$]. *)
Definition framed (seg : bytes) (segs : list bytes) : Prop :=
  Forall (fun c => is_dollar c = false) seg /\
  Forall (fun g => exists body, g = "$"%char :: body /\
                     Forall (fun c => is_dollar c = false) body) segs.

(** A printed line is well formed: [$GPGGA], then bytes that hold no
    [$], and no white space at either end. *)
Definition sentence_line (ln : bytes) : Prop :=
  trimmed ln /\
  exists body, ln = lit "$GPGGA" ++ body /\
               Forall (fun c => is_dollar c = false) body.

(** The bytes the loop will read: those buffered, then those that arrive. *)
Definition relay_stream (w : World) : bytes :=
  ser_rx (ser w) ++ line_arrivals (ser_feed (ser w)).

Definition relay_fuel (w : World) : nat := S (length (relay_stream w)).

(** The world when the loop stops: the stream read, the calls logged. *)
Definition relayed (msg : bytes) (f : list ser_event) (w : World) : World :=
  logs (relay_calls msg (relay_stream w)) (set_line ([], f) w).

(** The outcome of the loop started with [msg] in [message]. *)
Definition relay_result (msg : bytes) (w : World)
  : outcome World exn relay_state :=
  match line_stop (ser_feed (ser w)) with
  | Interrupt :: f => Raised KeyboardInterrupt (relayed msg f w)
  | Fault :: f => Raised SerialException (relayed msg f w)
  | _ => Blocked (relayed msg [] w)
  end.

(** The world after the port was closed. *)
Definition closed (w : World) : World :=
  logs [CClose] (set_ser (set_ser_port None (ser w)) w).

(** The states the loop goes through from the world [w0]. *)
Definition relay_reach (w0 : World) : relay_state -> World -> Prop :=
  iterates (fun st => truthy (buffer st)) relay_body (mkRelay (PyBool true) []) w0.

(** ** One read *)

Section Read.
Implicit Types (w : World) (rx : bytes) (feed : list ser_event).

(** What [ser.read()] returns, in terms of what the line delivers. *)
Lemma line_await_one rx feed :
  match line_await 1 rx feed with
  | Done bs l =>
      exists c, bs = [c] /\
        rx ++ line_arrivals feed = c :: l.1 ++ line_arrivals l.2 /\
        line_stop l.2 = line_stop feed
  | Raised e l =>
      rx ++ line_arrivals feed = [] /\ l.1 = [] /\
      ((e = KeyboardInterrupt /\ line_stop feed = Interrupt :: l.2) \/
       (e = SerialException /\ line_stop feed = Fault :: l.2))
  | Blocked l => rx ++ line_arrivals feed = [] /\ l = ([], []) /\ line_stop feed = []
  | OutOfFuel => False
  end.
Proof.
  revert rx. induction feed as [|[bs| |] f IH]; intros [|c rx];
    rewrite line_await_unfold; simpl; eauto 10.
  specialize (IH bs). by destruct (line_await 1 bs f).
Qed.

End Read.

(** ** The loop *)

Section Loop.
Implicit Types (w : World) (st : relay_state) (msg : bytes).

Let cond st := truthy (buffer st).

Lemma str_eqb_dollar c : str_eqb [c] (lit "$") = is_dollar c.
Proof. unfold is_dollar. simpl. apply andb_true_r. Qed.

(** One iteration, by what the read returns. *)
Lemma relay_body_open st w :
  port_open w ->
  relay_body st w =
  match line_await 1 (ser_rx (ser w)) (ser_feed (ser w)) with
  | Done bs l =>
      if str_eqb bs (lit "$") then
        Done (mkRelay (PyStr bs) bs)
          (logs (CRead bs :: frame_line (message st)) (set_line l w))
      else
        Done (mkRelay (PyStr bs) (message st ++ bs))
          (logs [CRead bs] (set_line l w))
  | Raised e l => Raised e (set_line l w)
  | Blocked l => Blocked (set_line l w)
  | OutOfFuel => OutOfFuel
  end.
Proof.
  intros Ho. unfold relay_body, bind at 1. rewrite ser_read_open by done.
  destruct (line_await _ _ _) as [bs l| | |]; try done. simpl.
  destruct (str_eqb bs _); [|done]. unfold frame_line, bind.
  by destruct (startswith _ _); world_norm.
Qed.

(** The loop reads the whole stream and stops with the line. *)
Lemma relay_while fuel st w :
  port_open w -> cond st = true ->
  length (relay_stream w) < fuel ->
  while fuel cond relay_body st w = relay_result (message st) w.
Proof.
  revert st w. induction fuel as [|fuel IH]; intros st w Ho Hst Hfuel; [lia|].
  rewrite while_unfold, Hst. unfold bind. rewrite relay_body_open by done.
  pose proof (line_await_one (ser_rx (ser w)) (ser_feed (ser w))) as Hspec.
  unfold relay_result, relayed, relay_stream in *.
  destruct (line_await _ _ _) as [bs [rx' feed']|e [rx' feed']|l|]; simpl in *.
  - destruct Hspec as (c & -> & Hs & Hstop). rewrite Hs in *.
    rewrite str_eqb_dollar. simpl.
    destruct (is_dollar c); (rewrite IH; [|done..|simpl in *; lia]);
      unfold relay_result, relayed, relay_stream; simpl; rewrite Hstop;
      by destruct (line_stop (ser_feed (ser w))) as [|[| |] ?]; world_norm.
  - destruct Hspec as (-> & -> & [[-> ->]|[-> ->]]); by world_norm.
  - destruct Hspec as (-> & -> & ->). by world_norm.
  - done.
Qed.

End Loop.

(** ** Framing *)

Section Framing.
Implicit Types (msg s seg : bytes) (segs : list bytes) (c : ascii).

Lemma printed_frame_line msg : omap printed (frame_line msg) = option_list (gpgga_line msg).
Proof. unfold frame_line, gpgga_line. by destruct (startswith _ _). Qed.

(** The cut loses nothing. *)
Lemma split_dollar_concat s :
  (split_dollar s).1 ++ concat (split_dollar s).2 = s.
Proof.
  induction s as [|c s IH]; [done|]. simpl.
  destruct (split_dollar s) as [seg segs]. simpl in *.
  destruct (is_dollar c); simpl; by rewrite IH.
Qed.

(** The first piece holds no [$]; every other piece starts with its only [$]. *)
Lemma split_dollar_pieces s : framed (split_dollar s).1 (split_dollar s).2.
Proof.
  induction s as [|c s [IH1 IH2]]; [by split|]. simpl.
  destruct (split_dollar s) as [seg segs]. simpl in *.
  destruct (is_dollar c) eqn:Hc; simpl; split; auto.
  constructor; [|done]. apply Ascii.eqb_eq in Hc as ->. by exists seg.
Qed.

(** Cutting what starts with a piece without [$], and what is made of
    pieces that start with their only [$]. *)
Lemma split_dollar_app seg s :
  Forall (fun c => is_dollar c = false) seg ->
  split_dollar (seg ++ s) = (seg ++ (split_dollar s).1, (split_dollar s).2).
Proof.
  induction 1 as [|c seg Hc _ IH]; simpl; [by destruct (split_dollar s)|].
  by rewrite IH, Hc.
Qed.

Lemma split_dollar_frames segs :
  framed [] segs -> split_dollar (concat segs) = ([], segs).
Proof.
  intros [_ Hsegs]. induction Hsegs as [|g gs (body & -> & Hb) _ IH]; [done|].
  simpl. by rewrite split_dollar_app, IH, app_nil_r.
Qed.

(** The cut is the one way of writing a stream as a piece without [$]
    followed by pieces that start with their only [$]: nothing is lost
    by it, and joining such pieces and cutting again gives them back. *)
Lemma split_dollar_unique s seg segs :
  split_dollar s = (seg, segs) <-> s = seg ++ concat segs /\ framed seg segs.
Proof.
  split.
  - intros Hs. pose proof (split_dollar_concat s) as Hc.
    pose proof (split_dollar_pieces s) as Hp. by rewrite Hs in Hc, Hp.
  - intros [-> [Hseg Hsegs]].
    rewrite split_dollar_app, split_dollar_frames by done.
    simpl. by rewrite app_nil_r.
Qed.

(** The loop prints the complete [$GPGGA] frames of what it reads. *)
Lemma relay_calls_printed msg s :
  omap printed (relay_calls msg s) = gpgga_lines msg s.
Proof.
  unfold gpgga_lines. revert msg. induction s as [|c s IH]; intros msg; [done|].
  simpl. destruct (is_dollar c).
  - rewrite omap_app, printed_frame_line, IH.
    destruct (split_dollar s) as [seg segs]. simpl. rewrite app_nil_r.
    by destruct (gpgga_line msg).
  - rewrite IH. destruct (split_dollar s) as [seg segs].
    by rewrite <- app_assoc.
Qed.

(** The message buffer is the frame still open. *)
Lemma relay_message_open msg s :
  relay_message msg s =
  open_frame (msg ++ (split_dollar s).1) (split_dollar s).2.
Proof.
  revert msg. induction s as [|c s IH]; intros msg; simpl.
  - by rewrite app_nil_r.
  - destruct (is_dollar c); rewrite IH; destruct (split_dollar s) as [seg segs];
      simpl; by rewrite <- ?app_assoc.
Qed.

(** The loop reads the stream byte by byte, in order. *)
Lemma relay_calls_reads msg s :
  concat (omap read_data (relay_calls msg s)) = s.
Proof.
  revert msg. induction s as [|c s IH]; intros msg; [done|]. simpl.
  destruct (is_dollar c); [|by rewrite IH].
  rewrite omap_app, concat_app, IH. unfold frame_line.
  by destruct (startswith _ _).
Qed.

Lemma relay_calls_no_close msg s : CClose ∉ relay_calls msg s.
Proof.
  revert msg. induction s as [|c s IH]; intros msg; simpl; [by apply not_elem_of_nil|].
  unfold frame_line. destruct (is_dollar c); [destruct (startswith msg _)|];
    simpl; rewrite ?not_elem_of_cons; auto.
Qed.

Lemma relay_calls_no_write msg s : omap written_data (relay_calls msg s) = [].
Proof.
  revert msg. induction s as [|c s IH]; intros msg; simpl; [done|].
  unfold frame_line. destruct (is_dollar c); [destruct (startswith msg _)|];
    simpl; apply IH.
Qed.

(** One more byte: one more read, and the frame closed by a [$]. *)
Lemma relay_calls_snoc msg s c :
  relay_calls msg (s ++ [c]) =
  relay_calls msg s ++
  CRead [c] :: (if is_dollar c then frame_line (relay_message msg s) else []).
Proof.
  revert msg. induction s as [|d s IH]; intros msg; simpl.
  - destruct (is_dollar c); by rewrite ?app_nil_r.
  - destruct (is_dollar d); rewrite IH; by rewrite <- ?app_assoc.
Qed.

Lemma relay_message_snoc msg s c :
  relay_message msg (s ++ [c]) =
  if is_dollar c then [c] else relay_message msg s ++ [c].
Proof.
  revert msg. induction s as [|d s IH]; intros msg; simpl; [done|].
  by destruct (is_dollar d).
Qed.



(** A piece without [$] is never printed. *)
Lemma gpgga_line_no_dollar seg :
  Forall (fun c => is_dollar c = false) seg -> gpgga_line seg = None.
Proof.
  unfold gpgga_line. destruct (startswith _ _) eqn:Hs; [|done].
  apply startswith_prefix in Hs as [rest ->].
  change (lit "$GPGGA") with ("$"%char :: lit "GPGGA").
  intros [Hc _]%Forall_cons. done.
Qed.

(** A piece that starts with its only [$] is printed as a sentence. *)
Lemma gpgga_line_sentence g ln :
  (exists body, g = "$"%char :: body /\
                Forall (fun c => is_dollar c = false) body) ->
  gpgga_line g = Some ln -> sentence_line ln.
Proof.
  intros (body & -> & Hbody). unfold gpgga_line.
  destruct (startswith _ _) eqn:Hs; [|done]. intros [= <-].
  apply startswith_prefix in Hs as [rest Hrest]. rewrite Hrest.
  change (lit "$GPGGA") with ("$"%char :: lit "GPGGA") in Hrest.
  injection Hrest as ->.
  apply (Forall_app _ (lit "GPGGA") rest) in Hbody as [_ Hrest].
  destruct (rstrip_split rest) as (ws & Hws & _).
  rewrite Hws in Hrest. apply Forall_app in Hrest as [Hrest _].
  split; [apply strip_spec|]. exists (rstrip rest). split; [|done].
  apply strip_prefix; [done|]. unfold lit. simpl. by repeat constructor.
Qed.

(** Every line of the reference is one sentence. *)
Lemma gpgga_lines_sentences s : Forall sentence_line (gpgga_lines [] s).
Proof.
  unfold gpgga_lines. pose proof (split_dollar_pieces s) as [H0 Hp].
  destruct (split_dollar s) as [seg segs]. simpl in *.
  destruct segs as [|g gs]; [done|]. simpl.
  rewrite gpgga_line_no_dollar by done.
  revert g Hp. induction gs as [|h gs IH]; intros g Hp; [done|]. simpl.
  apply Forall_cons in Hp as [Hg Hp].
  destruct (gpgga_line g) as [ln|] eqn:Hln; [constructor|]; auto.
  by eapply gpgga_line_sentence.
Qed.

End Framing.

(** ** The states of the loop *)

Section Reach.
Implicit Types (w : World) (st : relay_state).

Lemma ser_read_one w bs w' :
  ser_read 1 w = Done bs w' -> exists c, bs = [c].
Proof.
  destruct (ser_port (ser w)) eqn:Hp.
  - rewrite ser_read_open by (by eexists).
    pose proof (line_await_one (ser_rx (ser w)) (ser_feed (ser w))) as Hspec.
    destruct (line_await _ _ _); try done. destruct Hspec as (c & -> & _).
    intros [= <- _]. by exists c.
  - unfold ser_read, on_ser, zoom, dev_read, when_open, bind. by rewrite Hp.
Qed.

(** Every iteration leaves one byte in [buffer]. *)
Lemma relay_body_buffer st w st' w' :
  relay_body st w = Done st' w' -> exists c, buffer st' = PyStr [c].
Proof.
  unfold relay_body. intros (bs & w1 & (c & ->)%ser_read_one & H)%bind_Done_inv.
  apply bind_Done_inv in H as (m & w2 & _ & [= <- _]). by exists c.
Qed.

(** C31: the loop never ends through its condition: [buffer] holds
    [True] or the byte just read, never the empty string. *)
Theorem relay_loop_never_exits fuel w st w' : relay_loop fuel w <> Done st w'.
Proof.
  apply while_never_Done; [|done].
  by intros s1 w1 s2 w2 (c & ->)%relay_body_buffer.
Qed.

(** What the loop has done when it tests its condition: it has read a
    prefix of the stream, and [message] is what the framing function
    keeps of it. *)
Lemma relay_reach_consumed w0 st w :
  port_open w0 -> relay_reach w0 st w ->
  port_open w /\
  exists consumed,
    trace w = trace w0 ++ relay_calls [] consumed /\
    relay_stream w0 = consumed ++ relay_stream w /\
    message st = relay_message [] consumed.
Proof.
  intros Ho0. unfold relay_reach. induction 1 as [|st w st' w' _ IH Hc Hb].
  - split; [done|]. exists []. by rewrite app_nil_r.
  - destruct IH as (Ho & consumed & Ht & Hs & Hm).
    rewrite relay_body_open in Hb by done.
    pose proof (line_await_one (ser_rx (ser w)) (ser_feed (ser w))) as Hspec.
    destruct (line_await _ _ _) as [bs l| | |]; try done.
    destruct Hspec as (c & -> & Hs' & _). rewrite str_eqb_dollar in Hb.
    assert (port_open w' /\ trace w' =
              trace w0 ++ relay_calls [] (consumed ++ [c]) /\
            relay_stream w' = l.1 ++ line_arrivals l.2 /\
            message st' = relay_message [] (consumed ++ [c])) as (? & ? & Hw' & ?).
    { rewrite relay_calls_snoc, relay_message_snoc, <- Hm.
      destruct (is_dollar c); injection Hb as <- <-; simpl;
        by rewrite Ht, <- ?app_assoc. }
    split; [done|]. exists (consumed ++ [c]). repeat split; [done| |done].
    rewrite Hs, Hw'. unfold relay_stream. by rewrite Hs', <- app_assoc.
Qed.

(** C14: at every iteration, the trace holds the reads of the bytes
    consumed so far with the lines printed for them, and the message
    buffer holds the bytes read since the last [$], that [$] included
    (all the bytes read when no [$] was read yet). *)
Theorem reach_message w0 st w :
  port_open w0 ->
  relay_reach w0 st w ->
  port_open w /\
  exists consumed,
    trace w = trace w0 ++ relay_calls [] consumed /\
    relay_stream w0 = consumed ++ relay_stream w /\
    message st = open_frame (split_dollar consumed).1 (split_dollar consumed).2.
Proof.
  intros Ho0 Hr.
  destruct (relay_reach_consumed w0 st w Ho0 Hr) as (Ho & consumed & Ht & Hs & Hm).
  split; [done|]. exists consumed.
  by rewrite <- (app_nil_l (split_dollar _).1), <- relay_message_open.
Qed.


End Reach.

(** ** The whole phase *)

Section Phase.
Implicit Types (w : World).

(** More fuel for the loop does not change a run that has ended. *)
Lemma relay_extends n m : n <= m -> extends (relay n) (relay m).
Proof. intros Hle. unfold relay, relay_loop. eauto 12 with io. Qed.

Lemma relay_loop_result fuel w :
  port_open w -> relay_fuel w <= fuel -> relay_loop fuel w = relay_result [] w.
Proof. intros Ho Hfuel. by apply relay_while. Qed.

(** The phase ends as the line does: closed by an interrupt, raising
    on a device fault, blocked on a silent line; in each case it has
    read the whole stream before. *)
Lemma relay_outcome fuel w :
  port_open w -> relay_fuel w <= fuel ->
  relay fuel w =
  match line_stop (ser_feed (ser w)) with
  | Interrupt :: f => Done tt (closed (relayed [] f w))
  | Fault :: f => Raised SerialException (relayed [] f w)
  | _ => Blocked (relayed [] [] w)
  end.
Proof.
  intros Ho Hfuel. unfold relay, try_except, bind.
  rewrite relay_loop_result by done. unfold relay_result.
  by destruct (line_stop _) as [|[| |] ?].
Qed.

(** What the phase adds to the console. *)
Lemma relay_stdout fuel w w' :
  port_open w -> relay_fuel w <= fuel ->
  final_world (relay fuel w) = Some w' ->
  stdout w' = stdout w ++ gpgga_lines [] (relay_stream w).
Proof.
  intros Ho Hfuel. rewrite relay_outcome by done. unfold closed, relayed.
  destruct (line_stop _) as [|[| |] ?]; intros [= <-]; world_rw;
    rewrite stdout_logs, ?omap_app, relay_calls_printed; simpl;
    by rewrite ?app_nil_r.
Qed.

(** The relay writes nothing to the line. *)
Lemma relay_written fuel w w' :
  port_open w -> relay_fuel w <= fuel ->
  final_world (relay fuel w) = Some w' -> written w' = written w.
Proof.
  intros Ho Hfuel. rewrite relay_outcome by done. unfold closed, relayed.
  destruct (line_stop _) as [|[| |] ?]; intros [= <-]; world_rw;
    rewrite written_logs, ?omap_app, relay_calls_no_write; simpl;
    by rewrite ?app_nil_r.
Qed.

(** C2: whatever way the phase ends, the console has gained exactly
    the complete [$GPGGA] frames of the stream, stripped, in order, and
    each line gained is one sentence: [$GPGGA], no other [$], no white
    space at its ends. *)
Theorem relay_prints_frames fuel w w' :
  port_open w -> relay_fuel w <= fuel ->
  final_world (relay fuel w) = Some w' ->
  stdout w' = stdout w ++ gpgga_lines [] (relay_stream w) /\
  Forall sentence_line (gpgga_lines [] (relay_stream w)).
Proof.
  intros Ho Hfuel Hw'.
  split; [by eapply relay_stdout | apply gpgga_lines_sentences].
Qed.

(** C11: the lines printed are those of the stream, not of a way to
    cut it: however the stream is written as a piece without [$] and
    pieces that start with their only [$], the console has gained the
    stripped [$GPGGA] pieces among those that another piece follows,
    in order, and nothing else. *)
Theorem relay_prints_cut fuel w w' seg segs :
  port_open w -> relay_fuel w <= fuel ->
  final_world (relay fuel w) = Some w' ->
  relay_stream w = seg ++ concat segs -> framed seg segs ->
  stdout w' = stdout w ++ omap gpgga_line (complete_frames seg segs).
Proof.
  intros Ho Hfuel Hw' Hs Hfr. rewrite (relay_stdout _ _ _ Ho Hfuel Hw').
  unfold gpgga_lines. by rewrite (proj2 (split_dollar_unique _ seg segs)).
Qed.

(** C24: what the relay prints depends on the bytes of the stream only:
    two runs on lines that deliver the same bytes, in whatever pieces
    and however they end, add the same lines to the console. *)
Theorem relay_chunking_irrelevant fuel1 fuel2 w1 w2 w1' w2' :
  port_open w1 -> port_open w2 ->
  relay_fuel w1 <= fuel1 -> relay_fuel w2 <= fuel2 ->
  relay_stream w1 = relay_stream w2 ->
  final_world (relay fuel1 w1) = Some w1' ->
  final_world (relay fuel2 w2) = Some w2' ->
  drop (length (stdout w1)) (stdout w1') =
  drop (length (stdout w2)) (stdout w2').
Proof.
  intros Ho1 Ho2 Hf1 Hf2 Hs Hw1 Hw2.
  rewrite (relay_stdout _ _ _ Ho1 Hf1 Hw1), (relay_stdout _ _ _ Ho2 Hf2 Hw2).
  by rewrite !drop_app_length, Hs.
Qed.

(** C10: the phase completes only on [KeyboardInterrupt]; the port is
    then closed by one [close()], the last call of the script, after
    the reads of the whole stream. *)
Theorem relay_closes_once fuel w w' :
  port_open w -> relay_fuel w <= fuel ->
  relay fuel w = Done tt w' ->
  (exists f, line_stop (ser_feed (ser w)) = Interrupt :: f) /\
  ser_port (ser w') = None /\
  exists cs, trace w' = trace w ++ cs ++ [CClose] /\ (CClose ∉ cs) /\
             concat (omap read_data cs) = relay_stream w.
Proof.
  intros Ho Hfuel. rewrite relay_outcome by done.
  destruct (line_stop _) as [|[| |] f]; try done. intros [= <-].
  split; [by exists f|]. split; [done|]. eexists. split; [|split].
  - unfold closed, relayed. simpl. by rewrite <- app_assoc.
  - apply relay_calls_no_close.
  - apply relay_calls_reads.
Qed.

(** C37: a device fault ends the script with [SerialException] and the
    port still open: [close()] is not called. *)
Theorem relay_fault_leaves_open fuel w f :
  port_open w -> relay_fuel w <= fuel ->
  line_stop (ser_feed (ser w)) = Fault :: f ->
  relay fuel w = Raised SerialException (relayed [] f w) /\
  port_open (relayed [] f w) /\
  (CClose ∉ relay_calls [] (relay_stream w)).
Proof.
  intros Ho Hfuel Hstop. rewrite relay_outcome, Hstop by done.
  split; [done|]. split; [done | apply relay_calls_no_close].
Qed.

(** On a line that falls silent the script blocks for ever in
    [ser.read()]: the port is opened without a timeout. *)
Lemma relay_silent_blocks fuel w :
  port_open w -> relay_fuel w <= fuel ->
  line_stop (ser_feed (ser w)) = [] ->
  relay fuel w = Blocked (relayed [] [] w).
Proof. intros Ho Hfuel Hstop. by rewrite relay_outcome, Hstop. Qed.

End Phase.

(** ** Concrete runs *)

(** An open port with [rx] buffered and [feed] to come. *)
Definition relay_world (rx : bytes) (feed : list ser_event) : World :=
  mkWorld (mkNet true None [] 4096)
    (mkSerial true (Some (lit "/dev/ttyAMA0", 9600%N)) rx feed) [].

(** Three sentences, the second of another kind, cut by the line in
    the middle of a sentence, then the [$] of a fourth. *)
Definition demo_sentences : list ser_event :=
  [Arrive (lit "$GPGGA,1,2,3$GPRM"); Arrive (lit "C,x$GPGGA,9,9,9$")].

Lemma reach_message_witness :
  port_open (logs [CRead (lit "$"); CRead (lit "G")]
               (set_line ([], []) (relay_world (lit "$G") []))) /\
  exists consumed,
    trace (logs [CRead (lit "$"); CRead (lit "G")]
             (set_line ([], []) (relay_world (lit "$G") []))) =
    trace (relay_world (lit "$G") []) ++ relay_calls [] consumed /\
    relay_stream (relay_world (lit "$G") []) =
    consumed ++
    relay_stream (logs [CRead (lit "$"); CRead (lit "G")]
                    (set_line ([], []) (relay_world (lit "$G") []))) /\
    message (mkRelay (PyStr (lit "G")) (lit "$G")) =
    open_frame (split_dollar consumed).1 (split_dollar consumed).2.
Proof.
  apply (reach_message (relay_world (lit "$G") [])); [eexists; reflexivity|].
  eapply iterates_step;
    [eapply iterates_step; [apply iterates_start | reflexivity | reflexivity]
    | reflexivity | reflexivity].
Defined.


(** The stream of the specification, cut: three pieces and the [$]
    that opens a fourth. *)
Example split_dollar_demo :
  split_dollar (lit "$GPGGA,1,2,3$GPRMC,x$GPGGA,9,9,9$") =
  ([], [lit "$GPGGA,1,2,3"; lit "$GPRMC,x"; lit "$GPGGA,9,9,9"; lit "$"]).
Proof. reflexivity. Qed.

Example relay_outcome_demo :
  relay 64 (relay_world [] (demo_sentences ++ [Interrupt])) =
  Done tt
    (closed (relayed [] [] (relay_world [] (demo_sentences ++ [Interrupt])))).
Proof.
  apply (relay_outcome 64 (relay_world [] (demo_sentences ++ [Interrupt])));
    [eexists; reflexivity | vm_compute; lia].
Defined.

Lemma relay_prints_frames_witness :
  stdout
    (closed (relayed [] [] (relay_world [] (demo_sentences ++ [Interrupt])))) =
  stdout (relay_world [] (demo_sentences ++ [Interrupt])) ++
  [lit "$GPGGA,1,2,3"; lit "$GPGGA,9,9,9"] /\
  Forall sentence_line [lit "$GPGGA,1,2,3"; lit "$GPGGA,9,9,9"].
Proof.
  apply (relay_prints_frames 64 (relay_world [] (demo_sentences ++ [Interrupt])));
    [eexists; reflexivity | vm_compute; lia | vm_compute; reflexivity].
Defined.

Lemma relay_closes_once_witness :
  (exists f, line_stop (demo_sentences ++ [Interrupt]) = Interrupt :: f) /\
  ser_port (ser (closed (relayed [] []
                   (relay_world [] (demo_sentences ++ [Interrupt]))))) = None /\
  exists cs,
    trace (closed (relayed [] []
             (relay_world [] (demo_sentences ++ [Interrupt])))) =
    [] ++ cs ++ [CClose] /\ (CClose ∉ cs) /\
    concat (omap read_data cs) =
    relay_stream (relay_world [] (demo_sentences ++ [Interrupt])).
Proof.
  apply (relay_closes_once 64 (relay_world [] (demo_sentences ++ [Interrupt])));
    [eexists; reflexivity | vm_compute; lia | vm_compute; reflexivity].
Defined.

Lemma relay_fault_leaves_open_witness :
  relay 64 (relay_world [] (demo_sentences ++ [Fault; Interrupt])) =
  Raised SerialException
    (relayed [] [Interrupt]
       (relay_world [] (demo_sentences ++ [Fault; Interrupt]))) /\
  port_open (relayed [] [Interrupt]
               (relay_world [] (demo_sentences ++ [Fault; Interrupt]))) /\
  (CClose ∉ relay_calls []
     (relay_stream (relay_world [] (demo_sentences ++ [Fault; Interrupt])))).
Proof.
  apply (relay_fault_leaves_open 64
           (relay_world [] (demo_sentences ++ [Fault; Interrupt])) [Interrupt]);
    [eexists; reflexivity | vm_compute; lia | reflexivity].
Defined.

Example relay_silent_blocks_demo :
  relay 64 (relay_world (lit "$GPGGA,1") demo_sentences) =
  Blocked (relayed [] [] (relay_world (lit "$GPGGA,1") demo_sentences)).
Proof.
  apply (relay_silent_blocks 64 (relay_world (lit "$GPGGA,1") demo_sentences));
    [eexists; reflexivity | vm_compute; lia | reflexivity].
Defined.

Lemma relay_prints_cut_witness :
  stdout (end_world (relay_world [] (demo_sentences ++ [Interrupt]))
            (relay 64 (relay_world [] (demo_sentences ++ [Interrupt])))) =
  stdout (relay_world [] (demo_sentences ++ [Interrupt])) ++
  omap gpgga_line
    (complete_frames []
       [lit "$GPGGA,1,2,3"; lit "$GPRMC,x"; lit "$GPGGA,9,9,9"; lit "$"]).
Proof.
  apply (relay_prints_cut 64 (relay_world [] (demo_sentences ++ [Interrupt]))).
  - eexists; reflexivity.
  - vm_compute; lia.
  - vm_compute; reflexivity.
  - vm_compute; reflexivity.
  - split; repeat constructor; eexists; (split; [reflexivity|]);
      by apply (bool_decide_unpack _); vm_compute.
Defined.

(** The stream of [demo_sentences] in other pieces, on a line that fails. *)
Definition demo_pieces : World :=
  relay_world (lit "$GP") [Arrive (lit "GGA,1,2,3$GPRMC,x$GPGGA,9,9,9$"); Fault].

Lemma relay_chunking_irrelevant_witness :
  drop 0 (stdout (end_world (relay_world [] (demo_sentences ++ [Interrupt]))
                    (relay 64 (relay_world [] (demo_sentences ++ [Interrupt]))))) =
  drop 0 (stdout (end_world demo_pieces (relay 64 demo_pieces))).
Proof.
  apply (relay_chunking_irrelevant 64 64
           (relay_world [] (demo_sentences ++ [Interrupt])) demo_pieces
           (end_world (relay_world [] (demo_sentences ++ [Interrupt]))
              (relay 64 (relay_world [] (demo_sentences ++ [Interrupt]))))
           (end_world demo_pieces (relay 64 demo_pieces))).
  - eexists; reflexivity.
  - eexists; reflexivity.
  - vm_compute; lia.
  - vm_compute; lia.
  - vm_compute; reflexivity.
  - vm_compute; reflexivity.
  - vm_compute; reflexivity.
Defined.
