(* ===== verification/Typing.v ===== *)
(** * The values of the loop variables

    [agps.py] is dynamically typed: each loop starts with [True] in
    the variable it tests and then stores in it what a call returns,
    a [str] in [buffer] and an [int] in [drainer].  This file states
    what each loop variable may hold as a predicate on the state of
    its loop, and proves it of every state the loop goes through
    ([Prelude.iterates]), whatever the environment does: [buffer] of
    the receive loop is [True] or the last chunk received, of at most
    1024 bytes; [drainer] is [True] or a count; [buffer] of the relay
    is [True] or the one byte just read, and [message] ends with that
    byte and holds no [$] but as its first byte. *)

From Stdlib Require Import Ascii.
From Stdlib Require String.
From stdpp Require Import list strings.
From S2P Require Import Prelude Python Env Fetcher Uplink Relay.

Local Open Scope io_scope.

Inductive pytype : Type := TBool | TInt | TStr.

#[export] Instance pytype_eq_dec : EqDecision pytype.
Proof. solve_decision. Defined.

Definition type_of (v : pyval) : pytype :=
  match v with
  | PyBool _ => TBool
  | PyInt _ => TInt
  | PyStr _ => TStr
  end.

(** A variable that a loop tests: [True] before the first iteration, a
    value of type [t] after it. *)
Definition loop_var (t : pytype) (v : pyval) : Prop :=
  v = PyBool true \/ type_of v = t.

(** The receive loop: [data] is empty while [buffer] is [True]; then
    [buffer] is the chunk received last, at the end of [data]. *)
Definition recv_typed (st : recv_state) : Prop :=
  loop_var TStr (Fetcher.buffer st) /\
  match Fetcher.buffer st with
  | PyStr buf => length buf <= 1024 /\ buf `suffix_of` data st
  | _ => data st = []
  end.

(** The drain: [drainer] is [True] or the count of a poll. *)
Definition drain_typed (drainer : pyval) : Prop := loop_var TInt drainer.

(** The relay: [message] is empty while [buffer] is [True]; then
    [buffer] is one byte, the last of [message], and [message] holds
    no [$] after its first byte. *)
Definition relay_typed (st : relay_state) : Prop :=
  loop_var TStr (Relay.buffer st) /\
  match Relay.buffer st with
  | PyStr buf =>
      exists c, buf = [c] /\ last (message st) = Some c /\
                Forall (fun c => is_dollar c = false) (tail (message st))
  | _ => message st = []
  end.

Section Typing.
Implicit Types (w : World).

Lemma recv_body_typed st w st' w' :
  recv_body st w = Done st' w' -> recv_typed st'.
Proof.
  unfold recv_body. intros (buf & w1 & Hlen%sock_recv_length & Hr)%bind_Done_inv.
  destruct buf as [|c buf]; injection Hr as <- _; (split; [by right|]); simpl.
  - split; [lia|apply suffix_nil].
  - split; [done|]. by apply suffix_app_r.
Qed.

Lemma drain_body_typed d w d' w' :
  drain_body d w = Done d' w' -> drain_typed d'.
Proof.
  unfold drain_body. intros (n & w1 & _ & Hr)%bind_Done_inv.
  apply bind_Done_inv in Hr as (bs & w2 & _ & [= <- _]). by right.
Qed.

Lemma relay_body_typed st w st' w' :
  relay_typed st -> relay_body st w = Done st' w' -> relay_typed st'.
Proof.
  intros [_ Hst]. unfold relay_body.
  intros (bs & w1 & (c & ->)%ser_read_one & Hr)%bind_Done_inv.
  apply bind_Done_inv in Hr as (m1 & w2 & Hm & [= <- _]).
  split; [by right|]. simpl. exists c. split; [done|].
  split; [by rewrite last_snoc|]. revert Hm.
  unfold py_eq_str. rewrite str_eqb_dollar. destruct (is_dollar c) eqn:Hc.
  - intros (? & ? & _ & [= <- _])%bind_Done_inv. by constructor.
  - unfold ret. intros [= <- _].
    destruct (message st) as [|d msg] eqn:Hmsg; simpl; [constructor|].
    apply Forall_app. split; [|by repeat constructor].
    destruct (Relay.buffer st); [done..|].
    by destruct Hst as (? & _ & _ & ?).
Qed.

(** C16: the loop variables hold what the script expects of them, in
    every state a loop goes through and whatever the environment does:
    [True] or a [str] of at most 1024 bytes that ends [data], [True] or
    an [int], [True] or the one byte that ends a [message] with no [$]
    past its first byte. *)
Theorem loop_variables_typed w0 :
  (forall st w,
     iterates (fun st => truthy (Fetcher.buffer st)) recv_body
       (mkRecv [] (PyBool true)) w0 st w -> recv_typed st) /\
  (forall d w, iterates truthy drain_body (PyBool true) w0 d w -> drain_typed d) /\
  (forall st w, relay_reach w0 st w -> relay_typed st).
Proof.
  split_and!; intros st w.
  - apply (iterates_invariant _ _ (fun st _ => recv_typed st));
      [by split; [left|] | eauto using recv_body_typed].
  - apply (iterates_invariant _ _ (fun d _ => drain_typed d));
      [by left | eauto using drain_body_typed].
  - apply (iterates_invariant _ _ (fun st _ => relay_typed st));
      [by split; [left|] | eauto using relay_body_typed].
Qed.

End Typing.

(** ** Concrete states *)

(** The state of the relay after [$G] was read. *)
Lemma loop_variables_typed_witness :
  relay_typed (mkRelay (PyStr (lit "G")) (lit "$G")).
Proof.
  eapply (proj2 (proj2 (loop_variables_typed (relay_world (lit "$G") [])))).
  eapply iterates_step;
    [eapply iterates_step; [apply iterates_start | reflexivity | reflexivity]
    | reflexivity | reflexivity].
Defined.
