(* ===== verification/Agps.v ===== *)
(** * The whole script

    [main] is [agps.py] from the statement that follows its imports to
    its last: the fetcher, the uplink with the payload fetched, the
    relay.  The
    theorems give the complete trace of a run that goes well
    ([main_trace]), what the receiver is sent and what the console
    shows then, what each failure leaves behind, and that every run on
    a finite environment ends within [main_fuel] iterations
    ([main_terminates]), whatever larger bound it is given
    ([main_fuel_irrelevant]). *)

From Stdlib Require Import Ascii.
From Stdlib Require String.
From stdpp Require Import list strings.
From S2P Require Import Prelude Python Env Fetcher Uplink Relay.

Local Open Scope io_scope.

(** ** The program *)

(** Lines 4-48. *)
Definition main (fuel : nat) : prog unit :=
  binary <- fetch fuel ;;
  uplink fuel binary ;;
  relay fuel.

(** Fuel for the three loops. *)
Definition main_fuel (w : World) : nat :=
  recv_fuel w `max` (drain_fuel w `max` relay_fuel w).

(** The reply of the peer and its payload. *)
Definition reply (w : World) : bytes := inbox_data (net_inbox (net w)).

Definition payload_at (i : nat) (w : World) : bytes := drop (i + 4) (reply w).

(** The world after the fetcher, and after the uplink, of a run that
    goes well: the peer closes leaving [q], the drain leaves the line [l]. *)
Definition fetched (fuel : nat) (q : list net_event) (w : World) : World :=
  received fuel (Fin :: q) (requested w).

Definition uplinked (fuel : nat) (q : list net_event) (i : nat)
  (l : bytes * list ser_event) (w : World) : World :=
  logs (drain_calls (ser_rx (ser w)) (ser_feed (ser w)) ++
        uplink_write_calls (payload_at i w))
    (set_line l (opened (fetched fuel q w))).

(** The progress lines of the fetcher and of the uplink. *)
Definition progress_lines : list bytes :=
  [lit "Connecting to u-blox"; lit "Connection established";
   lit "Sending the request"; lit "Waiting for free line";
   lit "Writing AGPS data"; lit "Done"].

(** ** Runs in which the server replies *)

(** The server accepts the connection, takes the request or a part of
    it, sends its reply and closes, leaving [q]; the reply holds CRLF
    CRLF, first at [i]. *)
Section Replied.
Context (fuel : nat) (w : World) (q : list net_event) (i : nat).
Hypothesis Hup : net_up (net w) = true.
Hypothesis Hroom : 0 < net_room (net w).
Hypothesis Hrest : inbox_rest (net_inbox (net w)) = Fin :: q.
Hypothesis Hfind : find (reply w) CRLFCRLF = Some i.

Lemma fetch_payload :
  recv_fuel w <= fuel ->
  fetch fuel w = Done (payload_at i w) (fetched fuel q w).
Proof.
  intros Hfuel. rewrite fetch_run, Hrest, extract_binary_find by done.
  unfold reply in Hfind. by rewrite Hfind.
Qed.

(** After the fetcher, the script is the uplink and the relay. *)
Lemma main_uplink :
  recv_fuel w <= fuel ->
  main fuel w =
  (uplink fuel (payload_at i w) ;; relay fuel) (fetched fuel q w).
Proof. intros Hfuel. unfold main. by io_exec by (by apply fetch_payload). Qed.

(** After the fetcher and the uplink, the script is the relay. *)
Lemma main_relay d l :
  ser_present (ser w) = true ->
  drain_end (ser_rx (ser w)) (ser_feed (ser w)) = Done d l ->
  main_fuel w <= fuel ->
  main fuel w = relay fuel (uplinked fuel q i l w) /\
  port_open (uplinked fuel q i l w) /\
  relay_stream (uplinked fuel q i l w) = line_arrivals l.2 /\
  relay_fuel (uplinked fuel q i l w) <= fuel.
Proof.
  intros Hp Hend Hfuel. unfold main_fuel in Hfuel.
  pose proof (drain_calls_last_zero _ _ _ _ Hend) as (_ & Hl & _).
  pose proof (drain_end_stream _ _ _ _ Hend) as (pre & Hpre).
  assert (relay_stream (uplinked fuel q i l w) = line_arrivals l.2) as Hs.
  { unfold relay_stream. simpl. by rewrite Hl. }
  repeat split; [|by eexists|done|].
  - rewrite main_uplink by lia. unfold bind. rewrite uplink_present;
      [|done|change (drain_fuel w <= fuel); lia]. simpl. by rewrite Hend.
  - unfold relay_fuel in *. rewrite Hs. unfold relay_stream in Hfuel.
    rewrite Hpre, !length_app in Hfuel. lia.
Qed.

(** C1: the complete trace of a run in which the server replies and
    closes, the reply holds CRLF CRLF, the device opens, the drain ends
    and the user interrupts the relay: the calls of the three phases in
    the order of the script, the payload written between the drain and
    the first read of the relay, [close()] last. *)
Theorem main_trace d l f :
  ser_present (ser w) = true ->
  drain_end (ser_rx (ser w)) (ser_feed (ser w)) = Done d l ->
  line_stop l.2 = Interrupt :: f ->
  main_fuel w <= fuel ->
  exists w',
    main fuel w = Done tt w' /\
    trace w' =
      trace w ++ fetch_calls (request_sent w) ++
      (CRecv <$> recv_chunks fuel (net_inbox (net w))) ++
      uplink_open_calls ++
      drain_calls (ser_rx (ser w)) (ser_feed (ser w)) ++
      uplink_write_calls (payload_at i w) ++
      relay_calls [] (line_arrivals l.2) ++ [CClose].
Proof.
  intros Hp Hend Hstop Hfuel.
  destruct (main_relay d l) as (-> & Ho & Hs & Hf); [done..|].
  rewrite relay_outcome by done. simpl. rewrite Hstop.
  eexists. split; [done|]. unfold closed, relayed. rewrite Hs. simpl.
  by rewrite <- !app_assoc.
Qed.

(** C9: in a run that reaches the relay, however the relay ends, the
    receiver has been written the payload, once and whole, and nothing
    else: the bytes of the reply after its first CRLF CRLF. *)
Theorem main_writes_payload d l w' :
  ser_present (ser w) = true ->
  drain_end (ser_rx (ser w)) (ser_feed (ser w)) = Done d l ->
  main_fuel w <= fuel ->
  final_world (main fuel w) = Some w' ->
  written w' = written w ++ [payload_at i w] /\
  reply w = take i (reply w) ++ CRLFCRLF ++ payload_at i w.
Proof.
  intros Hp Hend Hfuel.
  destruct (main_relay d l) as (-> & Ho & Hs & Hf); [done..|].
  intros Hw'. split.
  - rewrite (relay_written _ _ _ Ho Hf Hw').
    unfold uplinked, fetched, opened, received, requested.
    world_rw. rewrite written_logs, !omap_app, drain_calls_no_write.
    rewrite omap_recv by done. simpl. by rewrite ?app_nil_r.
  - pose proof (find_occurs _ _ _ Hfind) as [Hi [post Hpost]].
    rewrite <- (take_drop i (reply w)) at 1. f_equal. unfold payload_at.
    by rewrite <- drop_drop, Hpost, (drop_app_length' CRLFCRLF post 4).
Qed.

(** C19: in such a run the console shows the six progress lines and
    then the [$GPGGA] sentences the receiver sent after the drain. *)
Theorem main_console d l w' :
  ser_present (ser w) = true ->
  drain_end (ser_rx (ser w)) (ser_feed (ser w)) = Done d l ->
  main_fuel w <= fuel ->
  final_world (main fuel w) = Some w' ->
  stdout w' =
  stdout w ++ progress_lines ++ gpgga_lines [] (line_arrivals l.2).
Proof.
  intros Hp Hend Hfuel.
  destruct (main_relay d l) as (-> & Ho & Hs & Hf); [done..|].
  intros Hw'. rewrite (relay_stdout _ _ _ Ho Hf Hw'), Hs, app_assoc.
  f_equal. unfold uplinked, fetched, opened, received, requested.
  world_rw. rewrite stdout_logs, !omap_app, drain_calls_no_print.
  rewrite omap_recv by done. simpl. by rewrite ?app_nil_r.
Qed.

(** When the serial device cannot be opened, the script ends with
    [SerialException] after the fetch: the payload fetched is dropped. *)
Lemma main_device_absent :
  ser_present (ser w) = false ->
  recv_fuel w <= fuel ->
  main fuel w = Raised SerialException (fetched fuel q w).
Proof.
  intros Hp Hfuel. rewrite main_uplink by done.
  by apply bind_raised, uplink_absent.
Qed.

(** C36: [KeyboardInterrupt] during the drain is not caught: the [try]
    covers the relay loop only, so the script dies with the port open
    and the payload unwritten. *)
Theorem main_interrupted_in_drain l :
  ser_present (ser w) = true ->
  drain_end (ser_rx (ser w)) (ser_feed (ser w)) = Raised KeyboardInterrupt l ->
  main_fuel w <= fuel ->
  exists w', main fuel w = Raised KeyboardInterrupt w' /\
             port_open w' /\ written w' = written w /\
             (CClose ∉ drop (length (trace w)) (trace w')).
Proof.
  intros Hp Hend Hfuel. unfold main_fuel in Hfuel.
  eexists. split; [|split; [|split]].
  - rewrite main_uplink by lia.
    apply bind_raised. rewrite uplink_present;
      [|done|change (drain_fuel w <= fuel); lia]. simpl. by rewrite Hend.
  - by eexists.
  - unfold fetched, opened, received, requested. world_rw.
    rewrite written_logs, !omap_app, drain_calls_no_write, omap_recv by done.
    simpl. by rewrite ?app_nil_r.
  - unfold fetched, opened, received, requested. world_rw. simpl.
    rewrite drop_app_length, !not_elem_of_cons, not_elem_of_app,
      !not_elem_of_cons.
    repeat split; try done; [|apply drain_calls_no_close].
    rewrite list_elem_of_fmap. by intros (? & ? & ?).
Qed.

End Replied.

(** ** Runs that end in the fetcher *)

Section Failures.
Implicit Types (w : World).

(** C38: a reply without CRLF CRLF ends the script with [ValueError]
    before the serial device is touched: nothing is opened or written. *)
Theorem main_no_separator fuel w q :
  net_up (net w) = true -> 0 < net_room (net w) ->
  inbox_rest (net_inbox (net w)) = Fin :: q ->
  find (reply w) CRLFCRLF = None ->
  recv_fuel w <= fuel ->
  main fuel w = Raised ValueError (fetched fuel q w) /\
  ser (fetched fuel q w) = ser w /\
  written (fetched fuel q w) = written w.
Proof.
  intros Hup Hroom Hrest Hfind Hfuel. repeat split.
  - apply bind_raised. rewrite fetch_run, Hrest, extract_binary_find by done.
    unfold reply in Hfind. by rewrite Hfind.
  - unfold fetched, received, requested. world_rw.
    rewrite written_logs, !omap_app, omap_recv by done. simpl.
    by rewrite ?app_nil_r.
Qed.

(** A server that refuses the connection ends the script after its
    first line; the request is not sent and the device is not opened. *)
Lemma main_refused fuel w :
  net_up (net w) = false ->
  main fuel w =
  Raised SocketError
    (logs (take 2 (fetch_calls 0)) (set_net (set_net_peer None (net w)) w)).
Proof. intros Hup. by apply bind_raised, fetch_refused. Qed.

End Failures.

(** ** Every run ends *)

Section Total.
Implicit Types (w : World).

(** C7: the script is total on every environment that is finite: with
    [main_fuel w] iterations for its loops no run is out of fuel; it
    completes, raises, or waits for an event that never comes. *)
Theorem main_terminates fuel w :
  main_fuel w <= fuel -> finished (main fuel w) = true.
Proof.
  intros Hfuel. pose proof Hfuel as Hf. unfold main_fuel in Hf.
  destruct (net_up (net w)) eqn:Hup.
  2: { unfold main. by erewrite bind_raised by by apply fetch_refused. }
  destruct (decide (net_room (net w) = 0)) as [Hroom|Hroom].
  { unfold main. by erewrite bind_blocked by by apply fetch_send_blocked. }
  destruct (find (reply w) CRLFCRLF) as [i|] eqn:Hfind;
    destruct (inbox_rest (net_inbox (net w))) as [|[bs| | |] q] eqn:Hrest;
    try (unfold main, bind; rewrite fetch_run, Hrest, ?extract_binary_find
           by (done || lia); unfold reply in Hfind; by rewrite ?Hfind).
  rewrite (main_uplink fuel w q i) by (done || lia). unfold bind.
  destruct (ser_present (ser w)) eqn:Hp; [|by rewrite uplink_absent].
  rewrite uplink_present; [|done|change (drain_fuel w <= fuel); lia]. simpl.
  pose proof (drain_end_finished (ser_rx (ser w)) (ser_feed (ser w))) as Hd.
  destruct (drain_end _ _) as [d l|e l|l|] eqn:Hend; try done.
  destruct (main_relay fuel w q i) with (d:=d) (l:=l) as (_ & Ho & _ & Hr);
    [done || lia..|].
  change (finished (relay fuel (uplinked fuel q i l w)) = true).
  rewrite relay_outcome by done. by destruct (line_stop _) as [|[| |] ?].
Qed.


End Total.

(** ** Concrete runs *)

(** The peer of [demo_reply]; a line with stale bytes, a quiet poll,
    and then the sentences of [demo_sentences] followed by [events]. *)
Definition demo_main (present : bool) (inbox : list net_event)
  (events : list ser_event) : World :=
  mkWorld (mkNet true None inbox 4096)
    (mkSerial present None (lit "old")
       ([Arrive (lit "junk"); Arrive []] ++ demo_sentences ++ events)) [].

Lemma main_trace_witness :
  exists w',
    main 128 (demo_main true demo_reply [Interrupt]) = Done tt w' /\
    trace w' =
      trace (demo_main true demo_reply [Interrupt]) ++
      fetch_calls (request_sent (demo_main true demo_reply [Interrupt])) ++
      (CRecv <$> recv_chunks 128
                   (net_inbox (net (demo_main true demo_reply [Interrupt])))) ++
      uplink_open_calls ++
      drain_calls (ser_rx (ser (demo_main true demo_reply [Interrupt])))
        (ser_feed (ser (demo_main true demo_reply [Interrupt]))) ++
      uplink_write_calls (payload_at 15 (demo_main true demo_reply [Interrupt])) ++
      relay_calls [] (line_arrivals (demo_sentences ++ [Interrupt])) ++ [CClose].
Proof.
  apply (fun Hup Hroom Hrest Hfind =>
           main_trace 128 (demo_main true demo_reply [Interrupt]) [] 15
             Hup Hroom Hrest Hfind (PyInt 0)
             ([], demo_sentences ++ [Interrupt]) []);
    try reflexivity; vm_compute; lia.
Defined.

Lemma main_writes_payload_witness :
  written (closed (relayed [] []
             (uplinked 128 [] 15 ([], demo_sentences ++ [Interrupt])
                (demo_main true demo_reply [Interrupt])))) =
  written (demo_main true demo_reply [Interrupt]) ++
  [payload_at 15 (demo_main true demo_reply [Interrupt])] /\
  reply (demo_main true demo_reply [Interrupt]) =
  take 15 (reply (demo_main true demo_reply [Interrupt])) ++ CRLFCRLF ++
  payload_at 15 (demo_main true demo_reply [Interrupt]).
Proof.
  apply (fun Hup Hroom Hrest Hfind =>
           main_writes_payload 128 (demo_main true demo_reply [Interrupt]) [] 15
             Hup Hroom Hrest Hfind (PyInt 0)
             ([], demo_sentences ++ [Interrupt]));
    try reflexivity; try (vm_compute; lia); vm_compute; reflexivity.
Defined.

Lemma main_console_witness :
  stdout (closed (relayed [] []
            (uplinked 128 [] 15 ([], demo_sentences ++ [Interrupt])
               (demo_main true demo_reply [Interrupt])))) =
  stdout (demo_main true demo_reply [Interrupt]) ++ progress_lines ++
  gpgga_lines [] (line_arrivals (demo_sentences ++ [Interrupt])).
Proof.
  apply (fun Hup Hroom Hrest Hfind =>
           main_console 128 (demo_main true demo_reply [Interrupt]) [] 15
             Hup Hroom Hrest Hfind (PyInt 0)
             ([], demo_sentences ++ [Interrupt]));
    try reflexivity; try (vm_compute; lia); vm_compute; reflexivity.
Defined.

Lemma main_no_separator_witness :
  main 16 (demo_main true [Seg (lit "HTTP/1.0 500"); Fin] []) =
  Raised ValueError
    (fetched 16 [] (demo_main true [Seg (lit "HTTP/1.0 500"); Fin] [])) /\
  ser (fetched 16 [] (demo_main true [Seg (lit "HTTP/1.0 500"); Fin] [])) =
  ser (demo_main true [Seg (lit "HTTP/1.0 500"); Fin] []) /\
  written (fetched 16 [] (demo_main true [Seg (lit "HTTP/1.0 500"); Fin] [])) =
  written (demo_main true [Seg (lit "HTTP/1.0 500"); Fin] []).
Proof.
  apply (main_no_separator 16 (demo_main true [Seg (lit "HTTP/1.0 500"); Fin] []) []);
    try reflexivity; vm_compute; lia.
Defined.

Example main_refused_demo :
  main 0 (mkWorld (mkNet false None demo_reply 4096) (mkSerial true None [] []) []) =
  Raised SocketError
    (logs [CSocket; CPrint (lit "Connecting to u-blox")]
       (mkWorld (mkNet false None demo_reply 4096) (mkSerial true None [] []) [])).
Proof.
  apply (main_refused 0
           (mkWorld (mkNet false None demo_reply 4096) (mkSerial true None [] []) [])).
  reflexivity.
Defined.

Example main_device_absent_demo :
  main 64 (demo_main false demo_reply []) =
  Raised SerialException (fetched 64 [] (demo_main false demo_reply [])).
Proof.
  apply (main_device_absent 64 (demo_main false demo_reply []) [] 15);
    try reflexivity; vm_compute; lia.
Defined.

(** The same peer, a line on which Ctrl-C is pressed during the drain. *)
Definition demo_drain_interrupt : World :=
  mkWorld (mkNet true None demo_reply 4096)
    (mkSerial true None (lit "old") [Interrupt]) [].

Lemma main_interrupted_in_drain_witness :
  exists w',
    main 128 demo_drain_interrupt = Raised KeyboardInterrupt w' /\
    port_open w' /\
    written w' = written demo_drain_interrupt /\
    (CClose ∉ drop (length (trace demo_drain_interrupt)) (trace w')).
Proof.
  apply (fun Hup Hroom Hrest Hfind =>
           main_interrupted_in_drain 128 demo_drain_interrupt [] 15
             Hup Hroom Hrest Hfind (lit "old", []));
    try reflexivity; vm_compute; lia.
Defined.

Lemma main_terminates_witness :
  finished (main 128 (demo_main true demo_reply [Interrupt])) = true.
Proof.
  apply (main_terminates 128 (demo_main true demo_reply [Interrupt])).
  vm_compute. lia.
Defined.

