(* ===== verification/Frame.v ===== *)
(** * Each device belongs to its phase

    The fetcher works on the socket and the console, the uplink and
    the relay on the serial port and the console.  The theorems here
    state it as properties the programs keep ([preserves]), for every
    environment, every bound on the loops and every way a phase may
    end: the rules of [preserves] follow the program down to its
    calls, and each call changes its own device and the trace only. *)

From Stdlib Require Import Ascii.
From Stdlib Require String.
From stdpp Require Import list strings.
From S2P Require Import Prelude Python Env Fetcher Uplink Relay Agps.

Local Open Scope io_scope.

(** The serial device is [d]; the socket is [n]; the trace extends [t]. *)
Definition ser_is (d : Serial) (w : World) : Prop := ser w = d.
Definition net_is (n : Net) (w : World) : Prop := net w = n.
Definition trace_from (t : list call) (w : World) : Prop := t `prefix_of` trace w.

Section Calls.
Implicit Types (w : World) (d : Serial) (n : Net) (t : list call).

Lemma ser_is_logs d cs w : ser_is d w -> ser_is d (logs cs w).
Proof. done. Qed.
Lemma ser_is_set_net d n w : ser_is d w -> ser_is d (set_net n w).
Proof. done. Qed.
Lemma net_is_logs n cs w : net_is n w -> net_is n (logs cs w).
Proof. done. Qed.
Lemma net_is_set_ser n d w : net_is n w -> net_is n (set_ser d w).
Proof. done. Qed.
Lemma trace_from_logs t cs w : trace_from t w -> trace_from t (logs cs w).
Proof. intros H. by apply prefix_app_r. Qed.
Lemma trace_from_set_net t n w : trace_from t w -> trace_from t (set_net n w).
Proof. done. Qed.
Lemma trace_from_set_ser t d w : trace_from t w -> trace_from t (set_ser d w).
Proof. done. Qed.

End Calls.

#[export] Hint Resolve ser_is_logs ser_is_set_net net_is_logs net_is_set_ser
  trace_from_logs trace_from_set_net trace_from_set_ser : io.

(** The calls of the script, down to the actions on a device and [log]. *)
Ltac unfold_calls :=
  unfold print, socket_socket, sock_connect, sock_send, sock_recv, serial_open,
    inWaiting, ser_read, ser_write, ser_close, on_net, on_ser, log.

Section Frame.
Implicit Types (w : World) (d : Serial) (n : Net) (t : list call).

Lemma index_preserves (I : World -> Prop) s sub : preserves I (index s sub).
Proof. unfold index. destruct (find s sub); preserves_auto. Qed.

Lemma fetch_keeps_ser fuel d : preserves (ser_is d) (fetch fuel).
Proof.
  pose proof (index_preserves (ser_is d)).
  unfold fetch, recv_loop, recv_body, extract_binary. unfold_calls.
  preserves_auto.
Qed.

Lemma uplink_keeps_net fuel b n : preserves (net_is n) (uplink fuel b).
Proof. unfold uplink, drain_loop, drain_body. unfold_calls. preserves_auto. Qed.

Lemma relay_keeps_net fuel n : preserves (net_is n) (relay fuel).
Proof. unfold relay, relay_loop, relay_body. unfold_calls. preserves_auto. Qed.

Lemma main_extends_trace fuel t : preserves (trace_from t) (main fuel).
Proof.
  pose proof (index_preserves (trace_from t)).
  unfold main, fetch, recv_loop, recv_body, extract_binary, uplink, drain_loop,
    drain_body, relay, relay_loop, relay_body. unfold_calls.
  preserves_auto.
Qed.

(** C34: the fetcher does not touch the serial device: however it ends,
    the port, its buffer and what the line will do are as before. *)
Theorem fetch_frame fuel w w' :
  final_world (fetch fuel w) = Some w' -> ser_is (ser w) w'.
Proof. by apply (fetch_keeps_ser fuel (ser w)). Qed.

(** C35: the uplink and the relay do not touch the socket: however
    they end, the connection and what the peer will send are as the
    fetcher left them. *)
Theorem serial_phases_frame fuel b w w' :
  final_world ((uplink fuel b ;; relay fuel) w) = Some w' ->
  net_is (net w) w'.
Proof.
  intros Hf.
  eapply (preserves_bind (net_is (net w)));
    [apply uplink_keeps_net | intros ?; apply relay_keeps_net | done | exact Hf].
Qed.

(** The script only adds to the trace: the calls recorded before a
    run are a prefix of those recorded after it, however it ends. *)
Lemma main_trace_grows fuel w w' :
  final_world (main fuel w) = Some w' -> trace w `prefix_of` trace w'.
Proof.
  intros Hf. eapply (main_extends_trace fuel (trace w)); [|exact Hf].
  unfold trace_from. reflexivity.
Qed.

End Frame.

(** ** Concrete runs *)

Lemma fetch_frame_witness :
  ser_is (ser (demo_main true demo_reply []))
    (end_world (demo_main true demo_reply [])
       (fetch 64 (demo_main true demo_reply []))).
Proof.
  apply (fetch_frame 64 (demo_main true demo_reply [])). vm_compute. reflexivity.
Defined.

Lemma serial_phases_frame_witness :
  net_is (net (demo_main true [Fin] [Interrupt]))
    (end_world (demo_main true [Fin] [Interrupt])
       ((uplink 64 (lit "ubx") ;; relay 64)
          (demo_main true [Fin] [Interrupt]))).
Proof.
  apply (serial_phases_frame 64 (lit "ubx") (demo_main true [Fin] [Interrupt])).
  vm_compute. reflexivity.
Defined.
