(* ===== verification/Protocol.v ===== *)
(** * The protocol of the script, as a state machine

    What [agps.py] promises to its environment is the order of its
    calls: the socket, the progress lines, the connection, the request
    of which [send] passes on at least a byte, the [recv]s of at most
    1024 bytes up to the empty one, the opening of the port, polls each
    followed by a read of what was counted until a poll counts nothing,
    one write of the payload, byte reads with a line printed after the
    [$] that ends a [$GPGGA] sentence, and [close()] last.
    This file states that promise without the program: a [phase] for
    each point between two calls, the transition [next] a call makes,
    the exceptions a phase may end with ([raises]) and the phases a
    run may wait in for ever ([blocks]).  [Conformance] proves that
    every run of the script, on every environment and for every bound
    on its loops, is a run of this machine; the lemmas here are those
    properties of the traces of the machine that the runs inherit. *)

From Stdlib Require Import Ascii.
From Stdlib Require String.
From stdpp Require Import list strings.
From S2P Require Import Prelude Python Env Fetcher Uplink Relay.

(** ** Phases and transitions *)

Inductive phase : Type :=
| Start
| Created                                 (* the socket made *)
| Announced                               (* "Connecting to u-blox" printed *)
| Connected
| Established                             (* "Connection established" printed *)
| Sending                                 (* "Sending the request" printed *)
| Receiving (data : bytes)                (* the request sent, [data] received *)
| Received (data : bytes)                 (* [recv] has returned [""] *)
| Opened (binary : bytes)
| Draining (binary : bytes)               (* before a poll *)
| Polled (binary : bytes) (n : nat)       (* a poll has counted [n] *)
| Quiet (binary : bytes)                  (* a poll has counted nothing *)
| Writing (binary : bytes)                (* "Writing AGPS data" printed *)
| Written (binary : bytes)
| Relaying (binary message : bytes)       (* before a read of one byte *)
| Framed (binary message : bytes)         (* a [$] has ended a sentence *)
| Closed (binary : bytes).

#[export] Instance phase_eq_dec : EqDecision phase.
Proof. solve_decision. Defined.

(** [q] when [P] holds, no transition otherwise. *)
Definition when (P : Prop) `{Decision P} (q : phase) : option phase :=
  if decide P then Some q else None.

(** The phase after the call [c] in the phase [q], when [c] is a call
    the protocol allows there. *)
Definition next (q : phase) (c : call) : option phase :=
  match q, c with
  | Start, CSocket => Some Created
  | Created, CPrint s => when (s = lit "Connecting to u-blox") Announced
  | Announced, CConnect a p => when (a = address /\ p = port) Connected
  | Connected, CPrint s => when (s = lit "Connection established") Established
  | Established, CPrint s => when (s = lit "Sending the request") Sending
  | Sending, CSend d n =>
      when (d = request /\ 0 < n <= length request) (Receiving [])
  | Receiving data, CRecv buf =>
      when (length buf <= 1024)
        (if decide (buf = []) then Received data else Receiving (data ++ buf))
  | Received data, COpen p b =>
      match find data CRLFCRLF with
      | Some i => when (p = device /\ b = baud) (Opened (drop (i + 4) data))
      | None => None
      end
  | Opened b, CPrint s => when (s = lit "Waiting for free line") (Draining b)
  | Draining b, CPoll n => Some (Polled b n)
  | Polled b n, CRead bs =>
      when (length bs = n) (if decide (n = 0) then Quiet b else Draining b)
  | Quiet b, CPrint s => when (s = lit "Writing AGPS data") (Writing b)
  | Writing b, CWrite d => when (d = b) (Written b)
  | Written b, CPrint s => when (s = lit "Done") (Relaying b [])
  | Relaying b msg, CRead [c] =>
      Some (if is_dollar c then
              if startswith msg (lit "$GPGGA") then Framed b msg
              else Relaying b [c]
            else Relaying b (msg ++ [c]))
  | Relaying b msg, CClose => Some (Closed b)
  | Framed b msg, CPrint s => when (s = strip msg) (Relaying b (lit "$"))
  | _, _ => None
  end.

(** The phase a sequence of calls leads to. *)
Fixpoint run (q : phase) (cs : list call) : option phase :=
  match cs with
  | [] => Some q
  | c :: cs' => q' ← next q c; run q' cs'
  end.

(** The exceptions a run may end with, by the phase it ends in. *)
Definition raises (q : phase) (e : exn) : Prop :=
  match q, e with
  | Announced, SocketError => True
  | Receiving _, (SocketError | KeyboardInterrupt) => True
  | Received data, ValueError => find data CRLFCRLF = None
  | Received data, SerialException => is_Some (find data CRLFCRLF)
  | Draining _, (KeyboardInterrupt | SerialException) => True
  | Relaying _ _, SerialException => True
  | _, _ => False
  end.

(** The phases a run may wait in for ever. *)
Definition blocks (q : phase) : Prop :=
  match q with
  | Sending | Receiving _ | Relaying _ _ => True
  | _ => False
  end.

(** The payload written, in the phases that follow the write. *)
Definition payload_of (q : phase) : option bytes :=
  match q with
  | Written b | Relaying b _ | Framed b _ | Closed b => Some b
  | _ => None
  end.

(** The data received, in the phases of the receive loop. *)
Definition data_of (q : phase) : option bytes :=
  match q with
  | Receiving d | Received d => Some d
  | _ => None
  end.

(** The payload to write, from the opening of the port on. *)
Definition binary_of (q : phase) : option bytes :=
  match q with
  | Opened b | Draining b | Polled b _ | Quiet b | Writing b | Written b
  | Relaying b _ | Framed b _ | Closed b => Some b
  | _ => None
  end.

Definition recv_data (c : call) : option bytes :=
  match c with CRecv buf => Some buf | _ => None end.

(** What a trace of the machine has received, and what it may have
    written: nothing before the write, the payload after it. *)
Definition trace_data (cs : list call) : bytes := concat (omap recv_data cs).

Definition is_payload (data b : bytes) : Prop :=
  exists i, find data CRLFCRLF = Some i /\ b = drop (i + 4) data.

Definition trace_ok (q : phase) (cs : list call) : Prop :=
  omap written_data cs = option_list (payload_of q) /\
  match binary_of q, data_of q with
  | Some b, _ => is_payload (trace_data cs) b
  | None, Some d => trace_data cs = d
  | None, None => trace_data cs = []
  end.

(** The sizes the protocol allows: [send] passes on at least a byte of
    its argument and at most all of it, [recv] returns at most 1024
    bytes. *)
Definition call_sized (c : call) : Prop :=
  match c with
  | CSend d n => 0 < n <= length d
  | CRecv buf => length buf <= 1024
  | _ => True
  end.

(** ** Traces of the machine *)

Lemma when_Some (P : Prop) `{Decision P} (q q' : phase) :
  when P q = Some q' <-> P /\ q' = q.
Proof.
  unfold when. case_decide; [|by split; [|intros []]].
  split; [by intros [= <-] | by intros [_ ->]].
Qed.

Lemma when_True (P : Prop) `{Decision P} (q : phase) : P -> when P q = Some q.
Proof. intros HP. by apply when_Some. Qed.

(** The cases of a transition [H : next q c = Some q']. *)
Ltac next_cases H :=
  match type of H with
  | next ?q ?c = Some _ =>
      destruct q, c as [| | | | | | |[|? [|]]| |]; simpl in H; try done
  end;
  repeat match type of H with
         | when _ _ = Some _ => apply when_Some in H as [? ->]
         | match ?x with _ => _ end = Some _ => destruct x eqn:?; try done
         | Some _ = Some _ => injection H as <-
         end.

Section Runs.
Implicit Types (q : phase) (c : call) (cs : list call).

Lemma run_app q cs1 cs2 :
  run q (cs1 ++ cs2) = q' ← run q cs1; run q' cs2.
Proof.
  revert q. induction cs1 as [|c cs1 IH]; intros q; simpl; [done|].
  destruct (next q c); simpl; [apply IH | done].
Qed.

Lemma run_snoc q cs c q1 q2 :
  run q cs = Some q1 -> next q1 c = Some q2 -> run q (cs ++ [c]) = Some q2.
Proof. intros H1 H2. rewrite run_app, H1. simpl. by rewrite H2. Qed.

(** Induction on a run, by its last call. *)
Lemma run_ind_snoc q0 (I : phase -> list call -> Prop) :
  I q0 [] ->
  (forall q cs c q', run q0 cs = Some q -> I q cs -> next q c = Some q' ->
                     I q' (cs ++ [c])) ->
  forall cs q, run q0 cs = Some q -> I q cs.
Proof.
  intros H0 Hstep cs. induction cs as [|c cs IH] using rev_ind; intros q.
  - by intros [= <-].
  - rewrite run_app. destruct (run q0 cs) as [q1|] eqn:H1; [|done]. simpl.
    destruct (next q1 c) as [q2|] eqn:H2; [|done]. intros [= <-]. eauto.
Qed.

(** No call leads back to [Start], and none follows [close()]. *)
Lemma next_not_Start q c : next q c <> Some Start.
Proof.
  destruct q, c as [| | | | | | |[|? [|]]| |]; simpl; try done;
    repeat (case_match; try done); unfold when; by repeat case_decide.
Qed.

Lemma run_Start cs : run Start cs = Some Start -> cs = [].
Proof.
  destruct cs as [|c cs _] using rev_ind; [done|]. rewrite run_app.
  destruct (run Start cs) as [q|]; [|done]. simpl.
  destruct (next q c) eqn:Hn; [|done]. intros [= ->]. by apply next_not_Start in Hn.
Qed.

Lemma next_Closed q c b :
  next q c = Some (Closed b) <-> c = CClose /\ exists msg, q = Relaying b msg.
Proof.
  split; [|by intros [-> [msg ->]]].
  destruct q, c as [| | | | | | |[|? [|]]| |]; simpl; try done;
    repeat (case_match; try done); unfold when; repeat case_decide;
    try done; intros [= <-]; eauto.
Qed.

Lemma next_CClose q q' : next q CClose = Some q' -> exists b, q' = Closed b.
Proof. destruct q; simpl; try done. intros [= <-]. eauto. Qed.

(** [close()] is the last call of a trace, and the only way to [Closed]. *)
Lemma run_after_close cs1 cs2 q :
  run Start (cs1 ++ CClose :: cs2) = Some q ->
  cs2 = [] /\ exists b, q = Closed b.
Proof.
  rewrite run_app. destruct (run Start cs1) as [q1|]; [|done]. simpl.
  destruct (next q1 CClose) as [q2|] eqn:Hn; [|done].
  apply next_CClose in Hn as [b ->]. destruct cs2 as [|c cs2]; [|done].
  intros [= <-]. eauto.
Qed.

Lemma run_Closed cs b :
  run Start cs = Some (Closed b) -> exists cs', cs = cs' ++ [CClose].
Proof.
  destruct cs as [|c cs _] using rev_ind; [done|]. rewrite run_app.
  destruct (run Start cs) as [q|]; [|done]. simpl.
  destruct (next q c) eqn:Hn; [|done]. intros [= ->].
  apply next_Closed in Hn as [-> _]. eauto.
Qed.

(** A poll is answered by a read of what it has counted. *)
Lemma run_poll_read cs1 n c cs2 q :
  run Start (cs1 ++ CPoll n :: c :: cs2) = Some q ->
  exists bs, c = CRead bs /\ length bs = n.
Proof.
  rewrite run_app. destruct (run Start cs1) as [q1|]; [|done]. simpl.
  destruct (next q1 (CPoll n)) as [q2|] eqn:Hp; [|done]. simpl.
  destruct (next q2 c) as [q3|] eqn:Hr; [|done]. intros _.
  destruct q1; try done. injection Hp as <-.
  destruct c; try done. simpl in Hr. apply when_Some in Hr as [? _]. eauto.
Qed.

(** What was received and written, by the phase reached. *)
Lemma run_trace_ok cs q : run Start cs = Some q -> trace_ok q cs.
Proof.
  apply run_ind_snoc; [done|]. clear. intros q cs c q' _ [Hw Hd] Hn.
  unfold trace_ok, trace_data in *. rewrite !omap_app, concat_app, Hw.
  next_cases Hn; repeat case_decide; repeat case_match; simplify_eq/=;
    rewrite ?app_nil_r, ?Hd; unfold is_payload; eauto.
Qed.

(** Every call of a trace has a size the protocol allows. *)
Lemma run_sized cs q : run Start cs = Some q -> Forall call_sized cs.
Proof.
  apply (run_ind_snoc Start (fun _ cs => Forall call_sized cs)); [done|].
  clear. intros q cs c q' _ Hcs Hn. apply Forall_app. split; [done|].
  constructor; [|done]. next_cases Hn; simpl; try done. by intuition subst.
Qed.

Lemma recv_data_sized cs :
  Forall call_sized cs ->
  Forall (fun buf => length buf <= 1024) (omap recv_data cs).
Proof.
  induction 1 as [|[] cs Hc _ IH]; simpl; try done. by constructor.
Qed.

End Runs.
