(* ===== verification/Conformance.v ===== *)
(** * Every run of the script follows the protocol

    The machine of [Protocol] is tied to the program by an invariant:
    [at_phase t0 q w] says that the calls the world [w] has recorded
    since the trace [t0] lead the machine from [Start] to the phase
    [q], and that the socket and the port are in the state [q] expects
    ([dev_ok]).  Each call of the script has a triple from the phase it
    is made in to the phase it leads to; the loops have the phase as
    invariant, so the triples of [fetch], [uplink], [relay] and [main]
    hold for every environment and for every bound on the loops. *)

From Stdlib Require Import Ascii.
From Stdlib Require String.
From stdpp Require Import list strings.
From S2P Require Import Prelude Hoare Python Env Fetcher Uplink Relay Agps.
From S2P Require Import Protocol.

Local Open Scope io_scope.

(** ** The invariant *)

(** The state of the devices in the phase [q]. *)
Definition dev_ok (q : phase) (w : World) : Prop :=
  match q with
  | Start | Created | Announced => True
  | Connected | Established | Sending | Receiving _ | Received _ => connected w
  | Polled _ n => port_open w /\ length (ser_rx (ser w)) = n
  | Closed _ => ser_port (ser w) = None
  | _ => port_open w
  end.

Definition at_phase (t0 : list call) (q : phase) (w : World) : Prop :=
  dev_ok q w /\ exists cs, trace w = t0 ++ cs /\ run Start cs = Some q.

(** How a run may end but by returning. *)
Definition exits (t0 : list call) (e : exn) (w : World) : Prop :=
  exists q, at_phase t0 q w /\ raises q e.
Definition waits (t0 : list call) (w : World) : Prop :=
  exists q, at_phase t0 q w /\ blocks q.

(** The phase after the byte [c] was read with [msg] in the buffer. *)
Definition after_byte (b msg : bytes) (c : ascii) : phase :=
  if is_dollar c then
    if startswith msg (lit "$GPGGA") then Framed b msg else Relaying b [c]
  else Relaying b (msg ++ [c]).

Section Calls.
Variable t0 : list call.
Implicit Types (q : phase) (w : World) (b data msg : bytes)
  (X : exn -> World -> Prop) (B : World -> Prop).

Lemma dev_ok_logs q cs w : dev_ok q (logs cs w) <-> dev_ok q w.
Proof. by destruct q. Qed.

(** A call recorded, after the devices have moved from [w] to [w2]. *)
Lemma at_phase_step q q' (c : call) w w2 :
  at_phase t0 q w -> trace w2 = trace w -> next q c = Some q' ->
  dev_ok q' w2 -> at_phase t0 q' (logs [c] w2).
Proof.
  intros [_ (cs & Ht & Hr)] Ht2 Hn Hd. split; [by apply dev_ok_logs|].
  exists (cs ++ [c]). split; [|by eapply run_snoc].
  simpl. by rewrite Ht2, Ht, app_assoc.
Qed.

(** The devices have moved and no call was recorded. *)
Lemma at_phase_stay q w w2 :
  at_phase t0 q w -> trace w2 = trace w -> dev_ok q w2 -> at_phase t0 q w2.
Proof. intros [_ (cs & Ht & Hr)] Ht2 Hd. split; [done|]. exists cs. by rewrite Ht2. Qed.

Lemma at_phase_Start w : at_phase (trace w) Start w.
Proof. split; [done|]. exists []. by rewrite app_nil_r. Qed.

(** ** The calls *)

Lemma print_ok q q' s X B :
  next q (CPrint s) = Some q' -> (forall w, dev_ok q w -> dev_ok q' w) ->
  triple (at_phase t0 q) (print s) (fun _ => at_phase t0 q') X B.
Proof.
  intros Hn Hd w Hw. rewrite print_run. simpl.
  eapply at_phase_step; eauto. apply Hd, Hw.
Qed.

Lemma socket_socket_ok X B :
  triple (at_phase t0 Start) socket_socket (fun _ => at_phase t0 Created) X B.
Proof. intros w Hw. rewrite socket_socket_run. simpl. by eapply at_phase_step. Qed.

Lemma sock_connect_ok B :
  triple (at_phase t0 Announced) (sock_connect address port)
    (fun _ => at_phase t0 Connected) (exits t0) B.
Proof.
  intros w Hw. destruct (net_up (net w)) eqn:Hup.
  - rewrite sock_connect_up by done. simpl.
    eapply at_phase_step; [done..|by apply when_True|by eexists].
  - rewrite sock_connect_down by done. by exists Announced.
Qed.

(** [send] passes on a part of the request, or waits for room. *)
Lemma sock_send_ok X :
  triple (at_phase t0 Sending) (sock_send request)
    (fun _ => at_phase t0 (Receiving [])) X (waits t0).
Proof.
  intros w Hw. destruct (decide (net_room (net w) = 0)) as [Hr|Hr].
  - rewrite sock_send_full; [by exists Sending|apply Hw|done..].
  - rewrite sock_send_connected; [|apply Hw|done|lia]. cbn [holds].
    eapply at_phase_step; [done..| |apply Hw].
    apply when_True. pose proof request_length. split; [done|lia].
Qed.

Lemma sock_recv_ok data :
  triple (at_phase t0 (Receiving data)) (sock_recv 1024)
    (fun buf => at_phase t0 (if decide (buf = []) then Received data
                             else Receiving (data ++ buf)))
    (exits t0) (waits t0).
Proof.
  intros w Hw. rewrite sock_recv_connected by apply Hw.
  pose proof (recv_inbox_spec 1024 (net_inbox (net w)) ltac:(lia)) as Hs.
  destruct (recv_inbox 1024 _) as [buf q|e q|q|] eqn:Hr; simpl; [| | |done].
  - eapply at_phase_step; [done..| |].
    + apply when_True. by eapply recv_inbox_length.
    + destruct Hw as [Hc _]. by case_decide.
  - exists (Receiving data). split; [|by destruct Hs as (_ & [[-> _]|[-> _]])].
    eapply at_phase_stay; [done..|apply Hw].
  - exists (Receiving data). split; [|done].
    eapply at_phase_stay; [done..|apply Hw].
Qed.

Lemma serial_open_ok data i B :
  find data CRLFCRLF = Some i ->
  triple (at_phase t0 (Received data)) (serial_open device baud)
    (fun _ => at_phase t0 (Opened (drop (i + 4) data))) (exits t0) B.
Proof.
  intros Hf w Hw. destruct (ser_present (ser w)) eqn:Hp.
  - rewrite serial_open_present by done. simpl.
    eapply at_phase_step; [done..| |by eexists].
    simpl. rewrite Hf. by apply when_True.
  - rewrite serial_open_absent by done. exists (Received data).
    split; [done|]. simpl. by rewrite Hf.
Qed.

Lemma inWaiting_ok b B :
  triple (at_phase t0 (Draining b)) inWaiting
    (fun n => at_phase t0 (Polled b n)) (exits t0) B.
Proof.
  intros w Hw. rewrite inWaiting_open by apply Hw.
  destruct (ser_feed (ser w)) as [|[bs| |] f]; simpl.
  1,2: eapply at_phase_step; [done..|]; split; [apply Hw|done].
  all: exists (Draining b); split; [|done].
  all: eapply at_phase_stay; [done..|apply Hw].
Qed.

(** Reading what the poll has counted returns at once. *)
Lemma ser_read_polled_ok b n X B :
  triple (at_phase t0 (Polled b n)) (ser_read n)
    (fun _ => at_phase t0 (if decide (n = 0) then Quiet b else Draining b))
    X B.
Proof.
  intros w Hw. destruct (Hw) as [[Ho <-] _]. rewrite ser_read_open by done.
  rewrite line_await_all. simpl.
  eapply at_phase_step; [done..|by apply when_True|]. by case_decide.
Qed.

Lemma ser_write_ok b X B :
  triple (at_phase t0 (Writing b)) (ser_write b)
    (fun _ => at_phase t0 (Written b)) X B.
Proof.
  intros w Hw. rewrite ser_write_open by apply Hw. simpl.
  eapply at_phase_step; [done..|by apply when_True|apply Hw].
Qed.

Lemma ser_read_relay_ok b msg X B :
  (forall e w, e = KeyboardInterrupt \/ e = SerialException ->
               at_phase t0 (Relaying b msg) w -> X e w) ->
  (forall w, at_phase t0 (Relaying b msg) w -> B w) ->
  triple (at_phase t0 (Relaying b msg)) (ser_read 1)
    (fun bs w => exists c, bs = [c] /\ at_phase t0 (after_byte b msg c) w)
    X B.
Proof.
  intros HX HB w Hw. rewrite ser_read_open by apply Hw.
  pose proof (line_await_one (ser_rx (ser w)) (ser_feed (ser w))) as Hs.
  destruct (line_await 1 _ _) as [bs l|e l|l|]; simpl; [| | |done].
  - destruct Hs as (c & -> & _). exists c. split; [done|].
    eapply at_phase_step; [done..|]. unfold after_byte.
    destruct Hw as [Ho _]. by repeat case_match.
  - apply HX; [destruct Hs as (_ & _ & [[-> _]|[-> _]]); auto|].
    eapply at_phase_stay; [done..|apply Hw].
  - apply HB. eapply at_phase_stay; [done..|apply Hw].
Qed.

Lemma ser_close_ok b msg X B :
  triple (at_phase t0 (Relaying b msg)) ser_close
    (fun _ => at_phase t0 (Closed b)) X B.
Proof. intros w Hw. rewrite ser_close_run. simpl. by eapply at_phase_step. Qed.

End Calls.

(** The triple of the call at the head of the program. *)
Ltac call_ok :=
  first [ apply print_ok; [by apply when_True | done]
        | apply socket_socket_ok | apply sock_connect_ok | apply sock_send_ok | by apply serial_open_ok
        | apply inWaiting_ok | apply ser_read_polled_ok | apply ser_write_ok ].

(** ** The phases of the script *)

Section Phases.
Variable t0 : list call.
Implicit Types (w : World) (b data binary : bytes).

(** What [fetch] returns: the payload of the data received. *)
Definition fetched_at (binary : bytes) (w : World) : Prop :=
  exists data i, (find data CRLFCRLF = Some i /\ binary = drop (i + 4) data) /\
                 at_phase t0 (Received data) w.

Lemma recv_loop_ok fuel :
  triple (at_phase t0 (Receiving [])) (recv_loop fuel)
    (fun data => at_phase t0 (Received data)) (exits t0) (waits t0).
Proof.
  unfold recv_loop.
  apply (triple_bind _ _ _ (fun st => at_phase t0 (Received (data st))));
    [|by intros st; apply triple_ret_pre].
  apply (triple_loop (fun st => at_phase t0
           (if truthy (Fetcher.buffer st) then Receiving (data st)
            else Received (data st)))); [done|..].
  - intros st Hc. cbv beta. rewrite Hc. unfold recv_body.
    eapply triple_bind; [apply sock_recv_ok|].
    intros [|c buf]; simpl; by apply triple_ret_pre.
  - intros st w Hw Hc. by rewrite Hc in Hw.
Qed.

Lemma extract_binary_ok data B :
  triple (at_phase t0 (Received data)) (extract_binary data)
    fetched_at (exits t0) B.
Proof.
  intros w Hw. rewrite extract_binary_find.
  destruct (find data CRLFCRLF) as [i|] eqn:Hf; simpl.
  - by exists data, i.
  - by exists (Received data).
Qed.

Lemma fetch_ok fuel :
  triple (at_phase t0 Start) (fetch fuel) fetched_at (exits t0) (waits t0).
Proof.
  unfold fetch. do 5 (eapply triple_bind; [call_ok|intros []]).
  eapply triple_bind; [call_ok|intros ?].
  eapply triple_bind; [apply recv_loop_ok|]. intros data. apply extract_binary_ok.
Qed.

Lemma drain_loop_ok fuel b :
  triple (at_phase t0 (Draining b)) (drain_loop fuel)
    (fun _ => at_phase t0 (Quiet b)) (exits t0) (waits t0).
Proof.
  unfold drain_loop.
  apply (triple_loop (fun drainer => at_phase t0
           (if truthy drainer then Draining b else Quiet b))); [done|..].
  - intros drainer Hc. cbv beta. rewrite Hc. unfold drain_body.
    eapply triple_bind; [call_ok|intros n].
    eapply triple_bind; [call_ok|intros ?].
    apply triple_ret_pre. intros w. by destruct n.
  - intros drainer w Hw Hc. by rewrite Hc in Hw.
Qed.

Lemma uplink_ok fuel binary :
  triple (fetched_at binary) (uplink fuel binary)
    (fun _ => at_phase t0 (Relaying binary [])) (exits t0) (waits t0).
Proof.
  apply triple_exist. intros data. apply triple_exist. intros i.
  apply triple_pure. intros [Hf ->]. unfold uplink.
  do 2 (eapply triple_bind; [call_ok|intros []]).
  eapply triple_bind; [apply drain_loop_ok|intros ?].
  eapply triple_bind; [call_ok|intros []].
  eapply triple_bind; [call_ok|intros ?]. call_ok.
Qed.

(** In the relay loop an exception finds the machine before a read. *)
Definition relay_exits (b : bytes) (e : exn) (w : World) : Prop :=
  (e = KeyboardInterrupt \/ e = SerialException) /\
  exists msg, at_phase t0 (Relaying b msg) w.

Lemma relay_body_ok b st :
  triple (at_phase t0 (Relaying b (message st))) (relay_body st)
    (fun st' w => truthy (Relay.buffer st') = true /\
                  at_phase t0 (Relaying b (message st')) w)
    (relay_exits b) (waits t0).
Proof.
  unfold relay_body. eapply triple_bind.
  { apply ser_read_relay_ok; [by intros e w He Hw; split; eauto|].
    intros w Hw. by eexists. }
  intros buf. apply triple_exist. intros c. apply triple_pure. intros ->.
  unfold py_eq_str, after_byte. rewrite (str_eqb_dollar c).
  apply (triple_bind _ _ _ (fun m1 => at_phase t0 (Relaying b (m1 ++ [c]))));
    [|by intros m1; apply triple_ret_pre].
  destruct (is_dollar c) eqn:Hc; [|by apply triple_ret_pre].
  apply Ascii.eqb_eq in Hc as ->.
  apply (triple_bind _ _ _ (fun _ => at_phase t0 (Relaying b (lit "$"))));
    [|by intros ?; apply triple_ret_pre].
  destruct (startswith _ _); [call_ok | by apply triple_ret_pre].
Qed.

Lemma relay_ok fuel b :
  triple (at_phase t0 (Relaying b [])) (relay fuel)
    (fun _ => at_phase t0 (Closed b)) (exits t0) (waits t0).
Proof.
  unfold relay. apply triple_try_except with (X' := relay_exits b).
  - eapply triple_bind; [|intros st; apply triple_False].
    unfold relay_loop.
    apply (triple_loop (fun st w => truthy (Relay.buffer st) = true /\
                                    at_phase t0 (Relaying b (message st)) w));
      [done|..].
    + intros st _. apply triple_pure. intros _. apply relay_body_ok.
    + intros st w [Ht _] Hc. cbv beta in Hc. congruence.
  - intros e He. apply triple_pure. intros _. apply triple_exist. intros msg.
    apply ser_close_ok.
  - intros e w He [[->| ->] [msg Hw]]; [done|]. by exists (Relaying b msg).
Qed.

End Phases.

(** ** The contract between the script and its phases

    The script needs of its phases only their triples: a fetcher, an
    uplink and a relay that meet this contract make a script that
    follows the protocol, whatever their code. *)

Class Contract (fetcher : prog bytes) (uplinker : bytes -> prog unit)
    (relayer : prog unit) : Prop := {
  fetcher_ok t0 :
    triple (at_phase t0 Start) fetcher (fetched_at t0) (exits t0) (waits t0);
  uplinker_ok t0 binary :
    triple (fetched_at t0 binary) (uplinker binary)
      (fun _ => at_phase t0 (Relaying binary [])) (exits t0) (waits t0);
  relayer_ok t0 b :
    triple (at_phase t0 (Relaying b [])) relayer
      (fun _ => at_phase t0 (Closed b)) (exits t0) (waits t0)
}.

Section Script.
Context `{Contract fetcher uplinker relayer}.

Lemma script_ok t0 :
  triple (at_phase t0 Start) (binary <- fetcher ;; uplinker binary ;; relayer)
    (fun _ w => exists b, at_phase t0 (Closed b) w) (exits t0) (waits t0).
Proof.
  eapply triple_bind; [apply fetcher_ok|intros binary].
  eapply triple_bind; [apply uplinker_ok|intros ?].
  eapply triple_post; [apply (relayer_ok t0 binary)|].
  intros ? w Hw. by exists binary.
Qed.

End Script.

(** The phases of [agps.py] meet the contract, for every bound. *)
#[export] Instance agps_contract fuel :
  Contract (fetch fuel) (uplink fuel) (relay fuel).
Proof. split; intros; [apply fetch_ok | apply uplink_ok | apply relay_ok]. Qed.

Lemma main_ok t0 fuel :
  triple (at_phase t0 Start) (main fuel)
    (fun _ w => exists b, at_phase t0 (Closed b) w) (exits t0) (waits t0).
Proof. unfold main. apply script_ok. Qed.

(** ** Runs of the script *)

(** The phases a run may end in, by its outcome. *)
Definition ends {A} (r : outcome World exn A) (q : phase) : Prop :=
  match r with
  | Done _ _ => exists b, q = Closed b
  | Raised e _ => raises q e
  | Blocked _ => blocks q
  | OutOfFuel => False
  end.

(** Every run of [main] that ends has followed the protocol up to a
    phase that allows this end. *)
Lemma main_final fuel w w' :
  final_world (main fuel w) = Some w' ->
  exists q cs, ends (main fuel w) q /\ dev_ok q w' /\
               trace w' = trace w ++ cs /\ run Start cs = Some q.
Proof.
  pose proof (main_ok (trace w) fuel w (at_phase_Start w)) as H.
  destruct (main fuel w) as [a w1|e w1|w1|]; simpl in *; [..|done];
    intros [= <-].
  - destruct H as (b & Hd & cs & Ht & Hr). exists (Closed b), cs. eauto.
  - destruct H as (q & (Hd & cs & Ht & Hr) & He). by exists q, cs.
  - destruct H as (q & (Hd & cs & Ht & Hr) & He). by exists q, cs.
Qed.
