(* ===== verification/Safety.v ===== *)
(** * What holds of every run of the script

    The theorems of this file have no hypothesis on the environment:
    they hold whatever the server and the serial line do and whatever
    bound the loops are given.  They are read off the protocol that
    every run follows ([Conformance.main_final]) and the properties
    of the traces of the protocol ([Protocol]). *)

From Stdlib Require Import Ascii.
From Stdlib Require String.
From stdpp Require Import list strings.
From S2P Require Import Prelude Hoare Python Env Fetcher Uplink Relay Agps.
From S2P Require Import Protocol Conformance.

Local Open Scope io_scope.

(** The calls a run from [w] to [w'] has made. *)
Definition calls_since (w w' : World) : list call :=
  drop (length (trace w)) (trace w').

(** The run from [w] to [w'] has led the protocol to the phase [q]. *)
Definition reaches (w w' : World) (q : phase) : Prop :=
  trace w' = trace w ++ calls_since w w' /\
  run Start (calls_since w w') = Some q.

(** The outcome [r] is not a call on a port that is not open. *)
Definition port_safe {A} (r : outcome World exn A) : Prop :=
  forall w', r <> Raised PortNotOpen w'.

Section Safety.
Implicit Types (w : World) (fuel : nat) (e : exn) (cs : list call).

Lemma calls_since_app w w' cs :
  trace w' = trace w ++ cs -> calls_since w w' = cs.
Proof. intros Ht. unfold calls_since. by rewrite Ht, drop_app_length. Qed.

(** Every run that ends has reached a phase that allows its end. *)
Lemma main_reaches fuel w w' :
  final_world (main fuel w) = Some w' ->
  exists q, ends (main fuel w) q /\ dev_ok q w' /\ reaches w w' q.
Proof.
  intros (q & cs & He & Hd & Ht & Hr)%main_final. exists q.
  unfold reaches. by rewrite (calls_since_app _ _ _ Ht).
Qed.

(** C5: every run of the script is a run of the protocol: the calls it
    has made lead the machine from [Start] to [Closed] with the port
    closed when the script completes, to a phase that may raise its
    exception when it raises, and to a phase that may wait when it
    blocks. *)
Theorem main_conforms fuel w :
  match main fuel w with
  | Done _ w' => exists b, reaches w w' (Closed b) /\ ser_port (ser w') = None
  | Raised e w' => exists q, reaches w w' q /\ raises q e
  | Blocked w' => exists q, reaches w w' q /\ blocks q
  | OutOfFuel => True
  end.
Proof.
  pose proof (main_reaches fuel w) as H.
  destruct (main fuel w) as [a w1|e w1|w1|]; simpl in *; [..|done];
    destruct (H w1 eq_refl) as (q & He & Hd & Hr).
  - destruct He as [b ->]. by exists b.
  - by exists q.
  - by exists q.
Qed.

(** C15: the script never calls the port before it has opened it or
    after it has closed it: no run raises [PortNotOpen]. *)
Theorem main_never_port_not_open fuel w : port_safe (main fuel w).
Proof.
  intros w' Hr. destruct (main_reaches fuel w w') as (q & He & _).
  { by rewrite Hr. }
  rewrite Hr in He. simpl in He. by destruct q.
Qed.

(** C12: in every run [close()] is called at most once, it is the last
    call, and it is called exactly when the script completes. *)
Theorem main_close_last fuel w w' :
  final_world (main fuel w) = Some w' ->
  (CClose ∈ calls_since w w' <-> exists a, main fuel w = Done a w') /\
  (forall cs1 cs2, calls_since w w' = cs1 ++ CClose :: cs2 -> cs2 = []).
Proof.
  intros Hf. destruct (main_reaches fuel w w' Hf) as (q & He & _ & _ & Hr).
  split; [split|].
  - intros (cs1 & cs2 & Hcs)%list_elem_of_split. rewrite Hcs in Hr.
    apply run_after_close in Hr as [_ [b ->]].
    destruct (main fuel w); simpl in *; try done. injection Hf as ->. eauto.
  - intros [a Hd]. rewrite Hd in He. destruct He as [b ->].
    apply run_Closed in Hr as [cs' ->]. apply elem_of_app. right. by left.
  - intros cs1 cs2 Hcs. rewrite Hcs in Hr.
    by apply run_after_close in Hr as [-> _].
Qed.

(** C13: in every run the line is written at most once, and what is
    written is the payload of what was received: the bytes after the
    first CRLF CRLF of the concatenation of what [recv] returned. *)
Theorem main_writes_only_payload fuel w w' :
  final_world (main fuel w) = Some w' ->
  omap written_data (calls_since w w') = [] \/
  exists b, omap written_data (calls_since w w') = [b] /\
            is_payload (trace_data (calls_since w w')) b.
Proof.
  intros Hf. destruct (main_reaches fuel w w' Hf) as (q & _ & _ & _ & Hr).
  apply run_trace_ok in Hr as [Hw Hd]. rewrite Hw.
  destruct q; simpl in *; eauto.
Qed.

(** C20: in every run each poll of the drain is followed by a read of
    exactly the number of bytes the poll has counted. *)
Theorem main_reads_what_it_polls fuel w w' cs1 n c cs2 :
  final_world (main fuel w) = Some w' ->
  calls_since w w' = cs1 ++ CPoll n :: c :: cs2 ->
  exists bs, c = CRead bs /\ length bs = n.
Proof.
  intros Hf Hcs. destruct (main_reaches fuel w w' Hf) as (q & _ & _ & _ & Hr).
  rewrite Hcs in Hr. by eapply run_poll_read.
Qed.

(** C21: a [KeyboardInterrupt] that ends the script was raised while
    the reply was received or in the drain, where no [try] covers it:
    nothing was written, [close()] was not called, and a port opened
    by then is left open; an interrupt in the relay never ends the
    script with an exception. *)
Theorem main_interrupt_escapes fuel w w' :
  main fuel w = Raised KeyboardInterrupt w' ->
  written w' = written w /\ (CClose ∉ calls_since w w') /\
  ((exists data, reaches w w' (Receiving data)) \/
   (exists b, reaches w w' (Draining b) /\ port_open w')).
Proof.
  intros Hr. destruct (main_reaches fuel w w') as (q & He & Hd & Ht & Hq).
  { by rewrite Hr. }
  rewrite Hr in He. simpl in He.
  pose proof (run_trace_ok _ _ Hq) as [Hw _].
  assert (payload_of q = None) as Hp by by destruct q.
  rewrite Hp in Hw. split_and!.
  - unfold written. by rewrite Ht, omap_app, Hw, app_nil_r.
  - intros (cs1 & cs2 & Hcs)%list_elem_of_split. rewrite Hcs in Hq.
    apply run_after_close in Hq as [_ [? ->]]. done.
  - destruct q; try done; [left|right]; by eexists.
Qed.

(** C17: in every run [send] has passed on at least one byte of the
    request and at most its 61, every [recv] has returned at most
    1024 bytes, and so a reply of [n] bytes has taken at least
    [n / 1024] calls of [recv]. *)
Theorem main_sizes_bounded fuel w w' :
  final_world (main fuel w) = Some w' ->
  Forall call_sized (calls_since w w') /\
  length (trace_data (calls_since w w')) <=
  1024 * length (omap recv_data (calls_since w w')).
Proof.
  intros Hf. destruct (main_reaches fuel w w' Hf) as (q & _ & _ & _ & Hr).
  apply run_sized in Hr. split; [done|].
  by apply length_concat_le, recv_data_sized.
Qed.

End Safety.

(** ** Concrete runs *)

(** The world a run ends in. *)
Definition run_end (fuel : nat) (w : World) : World :=
  end_world w (main fuel w).

(** A run that completes, and a run interrupted in the drain. *)
Definition demo_start : World := demo_main true demo_reply [Interrupt].
Definition demo_stale : World := demo_drain_interrupt.

Lemma main_close_last_witness :
  (CClose ∈ calls_since demo_start (run_end 128 demo_start) <->
   exists a, main 128 demo_start = Done a (run_end 128 demo_start)) /\
  (forall cs1 cs2,
     calls_since demo_start (run_end 128 demo_start) = cs1 ++ CClose :: cs2 ->
     cs2 = []).
Proof.
  apply (main_close_last 128 demo_start (run_end 128 demo_start)).
  vm_compute; reflexivity.
Defined.

Lemma main_writes_only_payload_witness :
  omap written_data (calls_since demo_start (run_end 128 demo_start)) = [] \/
  exists b,
    omap written_data (calls_since demo_start (run_end 128 demo_start)) = [b] /\
    is_payload (trace_data (calls_since demo_start (run_end 128 demo_start))) b.
Proof.
  apply (main_writes_only_payload 128 demo_start (run_end 128 demo_start)).
  vm_compute; reflexivity.
Defined.

Lemma main_reads_what_it_polls_witness :
  exists bs, CRead (lit "oldjunk") = CRead bs /\ length bs = 7.
Proof.
  apply (main_reads_what_it_polls 128 demo_start (run_end 128 demo_start)
           (take 12 (trace (run_end 128 demo_start))) 7
           (CRead (lit "oldjunk"))
           (drop 14 (trace (run_end 128 demo_start))));
    vm_compute; reflexivity.
Defined.

Lemma main_interrupt_escapes_witness :
  written (run_end 128 demo_stale) = written demo_stale /\
  (CClose ∉ calls_since demo_stale (run_end 128 demo_stale)) /\
  ((exists data, reaches demo_stale (run_end 128 demo_stale) (Receiving data)) \/
   (exists b, reaches demo_stale (run_end 128 demo_stale) (Draining b) /\
              port_open (run_end 128 demo_stale))).
Proof.
  apply (main_interrupt_escapes 128 demo_stale (run_end 128 demo_stale)).
  vm_compute; reflexivity.
Defined.

Lemma main_sizes_bounded_witness :
  Forall call_sized (calls_since demo_start (run_end 128 demo_start)) /\
  length (trace_data (calls_since demo_start (run_end 128 demo_start))) <=
  1024 * length (omap recv_data (calls_since demo_start (run_end 128 demo_start))).
Proof.
  apply (main_sizes_bounded 128 demo_start (run_end 128 demo_start)).
  vm_compute; reflexivity.
Defined.
