(* ===== verification/Startup.v ===== *)
(** * The script from its first line

    Lines 1-2 of [agps.py] import [socket], of the standard library,
    and [serial], the third-party pyserial.  An import that finds no
    module raises [ImportError] before the script has made a socket or
    printed a line.  The interpreter is a [Host]: the modules it can
    find, the modules it has loaded and the [World] outside; [script]
    is the imports followed by [Agps.main] on that world.  The theorems
    reduce every run of [script] to a run of [main], say when the
    script ends with [ImportError], and carry the protocol of
    [Conformance] over to the script as a whole. *)

From Stdlib Require Import Ascii.
From Stdlib Require String.
From stdpp Require Import list strings.
From S2P Require Import Prelude Hoare Python Env Fetcher Uplink Relay Agps.
From S2P Require Import Protocol Conformance Safety.

Local Open Scope io_scope.

(** ** The interpreter *)

Record Host : Type := mkHost {
  installed : list bytes;           (* the modules on the path *)
  loaded : list bytes;              (* [sys.modules], oldest first *)
  world : World
}.

Definition set_world (w : World) (h : Host) : Host :=
  mkHost (installed h) (loaded h) w.

(** The host after [import name] has succeeded: a module is loaded once. *)
Definition load (name : bytes) (h : Host) : Host :=
  if decide (name ∈ loaded h) then h
  else mkHost (installed h) (loaded h ++ [name]) (world h).

(** [name] is loaded already or can be found. *)
Definition importable (name : bytes) (h : Host) : Prop :=
  name ∈ loaded h \/ name ∈ installed h.

#[export] Instance importable_dec name h : Decision (importable name h).
Proof. unfold importable. apply _. Defined.

(** [import name] *)
Definition import_module (name : bytes) : io Host exn unit :=
  fun h =>
    if decide (importable name h) then Done tt (load name h)
    else Raised ImportError h.

(** A program on the world, run by the interpreter. *)
Definition in_world {A} (m : prog A) : io Host exn A := zoom world set_world m.

(** ** The program *)

(** Lines 1-48. *)
Definition script (fuel : nat) : io Host exn unit :=
  import_module (lit "socket") ;;
  import_module (lit "serial") ;;
  in_world (main fuel).

(** The host after the two imports. *)
Definition started (h : Host) : Host :=
  load (lit "serial") (load (lit "socket") h).

(** Both modules of the script can be imported. *)
Definition ready (h : Host) : Prop :=
  importable (lit "socket") h /\ importable (lit "serial") h.

(** An outcome on the world, as an outcome of the interpreter [h]. *)
Definition on_host {A} (h : Host) (r : outcome World exn A)
  : outcome Host exn A :=
  match r with
  | Done a w => Done a (set_world w h)
  | Raised e w => Raised e (set_world w h)
  | Blocked w => Blocked (set_world w h)
  | OutOfFuel => OutOfFuel
  end.

(** ** Imports *)

Section Imports.
Implicit Types (h : Host) (name : bytes).

Lemma world_load name h : world (load name h) = world h.
Proof. unfold load. by case_decide. Qed.



(** Loading a module keeps the others importable. *)
Lemma importable_load name name' h :
  importable name (load name' h) <-> importable name h \/ name = name'.
Proof.
  unfold importable, load. case_decide; simpl.
  - split; [auto|]. intros [?| ->]; auto.
  - rewrite elem_of_app, list_elem_of_singleton. tauto.
Qed.

Lemma import_module_ok name h :
  importable name h -> import_module name h = Done tt (load name h).
Proof. intros Hi. unfold import_module. by case_decide. Qed.

Lemma import_module_missing name h :
  ~ importable name h -> import_module name h = Raised ImportError h.
Proof. intros Hi. unfold import_module. by case_decide. Qed.

Lemma world_started h : world (started h) = world h.
Proof. unfold started. by rewrite !world_load. Qed.

Lemma in_world_run {A} (m : prog A) h : in_world m h = on_host h (m (world h)).
Proof. unfold in_world, zoom. by destruct (m (world h)). Qed.

(** [main] never raises [ImportError]: no phase of the protocol does. *)
Lemma main_no_import_error fuel w w' : main fuel w <> Raised ImportError w'.
Proof.
  intros Hr. destruct (main_reaches fuel w w') as (q & He & _).
  { by rewrite Hr. }
  rewrite Hr in He. simpl in He. by destruct q.
Qed.

(** The script on a host that has both modules: the imports, and [main]. *)
Lemma script_ready fuel h :
  ready h -> script fuel h = on_host (started h) (main fuel (world h)).
Proof.
  intros [Hs Hp]. unfold script.
  io_exec by (by apply import_module_ok).
  io_exec by (apply import_module_ok, importable_load; by left).
  rewrite in_world_run. fold (started h). by rewrite world_started.
Qed.

(** The script on a host that lacks one. *)
Lemma script_not_ready fuel h :
  ~ ready h -> exists h', script fuel h = Raised ImportError h' /\
                          world h' = world h.
Proof.
  intros Hn. unfold script.
  destruct (decide (importable (lit "socket") h)) as [Hs|Hs].
  - io_exec by (by apply import_module_ok). eexists. split.
    + apply bind_raised, import_module_missing.
      rewrite importable_load. intros [?|?]; [|done]. by apply Hn.
    + apply world_load.
  - eexists. split; [by apply bind_raised, import_module_missing | done].
Qed.

End Imports.

(** ** The script *)

Section Script.
Implicit Types (h : Host) (fuel : nat).


(** C25: the script ends with [ImportError] exactly when [socket] or
    [serial] cannot be imported, and it has then done nothing: no
    socket was made, no line printed. *)
Theorem script_import_error fuel h :
  ((exists h', script fuel h = Raised ImportError h') <-> ~ ready h) /\
  (forall h', script fuel h = Raised ImportError h' -> world h' = world h).
Proof.
  destruct (decide (ready h)) as [Hr|Hn].
  - rewrite script_ready by done.
    assert (forall h', on_host (started h) (main fuel (world h)) <>
                       Raised ImportError h') as Hno.
    { intros h'. pose proof (main_no_import_error fuel (world h)) as Hm.
      destruct (main fuel (world h)) as [|e w1| |]; simpl; try done.
      intros [= -> _]. by destruct (Hm w1). }
    split; [split; [intros [h' ?]; by destruct (Hno h') | done]|].
    intros h' ?. by destruct (Hno h').
  - destruct (script_not_ready fuel h Hn) as (h1 & Hs & Hw).
    split; [by split; [|exists h1]|]. rewrite Hs. by intros h' [= <-].
Qed.

(** C6: every run of the script, from its first line, ends with
    [ImportError] before any call, or is a run of the protocol: its
    calls lead the machine to [Closed] when it completes, to a phase
    that may raise its exception when it raises, to a phase that may
    wait when it blocks. *)
Theorem script_conforms fuel h :
  match script fuel h with
  | Done _ h' => exists b, reaches (world h) (world h') (Closed b)
  | Raised e h' =>
      (e = ImportError /\ world h' = world h) \/
      exists q, reaches (world h) (world h') q /\ raises q e
  | Blocked h' => exists q, reaches (world h) (world h') q /\ blocks q
  | OutOfFuel => True
  end.
Proof.
  destruct (decide (ready h)) as [Hr|Hn].
  - rewrite script_ready by done. pose proof (main_reaches fuel (world h)) as Hm.
    destruct (main fuel (world h)) as [a w1|e w1|w1|]; simpl in *; [..|done];
      destruct (Hm w1 eq_refl) as (q & He & _ & Hq); eauto.
    destruct He as [b ->]. eauto.
  - destruct (script_not_ready fuel h Hn) as (h1 & -> & Hw). by left.
Qed.

End Script.

(** ** Concrete runs *)

(** An interpreter with the standard library, with and without pyserial. *)
Definition demo_host (pyserial : bool) (w : World) : Host :=
  mkHost (lit "socket" :: if pyserial then [lit "serial"] else []) [] w.


(** Without pyserial the script ends at line 2. *)
Example script_no_pyserial_demo :
  script 128 (demo_host false demo_start) =
  Raised ImportError
    (mkHost [lit "socket"] [lit "socket"] demo_start).
Proof. vm_compute. reflexivity. Qed.
